(** * geomdl: control-point manager and topology utilities

    A shallow embedding of [geomdl/control_points.py] and
    [geomdl/utilities.py].  Python integers are [Z], Python floats are
    IEEE-754 binary64 values ([spec_float] with precision 53 and maximal
    exponent 1024), lists and tuples are [list], dictionaries are [gmap].
    Code that can raise returns a [result]; methods that mutate the manager
    thread it explicitly and hand it back also when they raise. *)

From Stdlib Require Import ZArith Lia Bool.
From Stdlib Require Import Floats.SpecFloat.
From Equations Require Import Equations.
From stdpp Require Import base list strings gmap.

Local Open Scope Z_scope.

(* ===================================================================== *)
(** * Part I: definitions                                                 *)
(* ===================================================================== *)

(** ** Python runtime conventions *)

Module Py.

(** The exception classes the two modules can raise. *)
Inductive exn :=
| TypeError | ValueError | IndexError | KeyError | ZeroDivisionError
| OverflowError | GeomdlError.

Inductive result (A : Type) :=
| Ok (a : A)
| Raise (e : exn).
Arguments Ok {A} a.
Arguments Raise {A} e.

Definition bind {A B} (r : result A) (k : A -> result B) : result B :=
  match r with
  | Ok a => k a
  | Raise e => Raise e
  end.

Definition is_ok {A} (r : result A) : bool :=
  match r with Ok _ => true | Raise _ => false end.

(** [len(l)] *)
Definition len {A} (l : list A) : Z := Z.of_nat (length l).

(** Position addressed by the index [i] in a sequence of length [n]:
    negative indices count from the end. *)
Definition norm_index (n i : Z) : option nat :=
  let j := if i <? 0 then i + n else i in
  if (0 <=? j) && (j <? n) then Some (Z.to_nat j) else None.

(** [l[i]] *)
Definition getitem {A} (l : list A) (i : Z) : result A :=
  match norm_index (len l) i with
  | Some j => match l !! j with Some x => Ok x | None => Raise IndexError end
  | None => Raise IndexError
  end.

(** [l[i] = x]: the list after the assignment, or [IndexError]. *)
Definition setitem {A} (l : list A) (i : Z) (x : A) : result (list A) :=
  match norm_index (len l) i with
  | Some j => Ok (<[j := x]> l)
  | None => Raise IndexError
  end.

(** [reduce(lambda x, y: x * y, l)] without an initial value. *)
Definition reduce_mul (l : list Z) : result Z :=
  match l with
  | [] => Raise TypeError
  | x :: l' => Ok (foldl Z.mul x l')
  end.

End Py.
Export Py.

#[global] Instance result_ret : MRet result := fun A a => Ok a.
#[global] Instance result_bind : MBind result := fun A B k r => Py.bind r k.

(** ** control_points.py: the index mapper *)

(** The [for i, arg in enumerate(args)] loop of [default_find_index], with
    the running [idx] as accumulator. *)
Fixpoint find_index_loop (pts_size : list Z) (i : nat) (args : list Z) (idx : Z) : Z :=
  match args with
  | [] => idx
  | arg :: args' =>
      let mul_res :=
        if (0 <? i)%nat then foldl Z.mul 1 (take i pts_size) else 1 in
      find_index_loop pts_size (S i) args' (idx + arg * mul_res)
  end.

Definition default_find_index (pts_size : list Z) (args : list Z) : Z :=
  find_index_loop pts_size 0 args 0.

(** The formula of the specification: [sum_i (c_i * prod (s_0 .. s_{i-1}))]. *)
Definition prod_list (l : list Z) : Z := foldr Z.mul 1 l.

Definition spec_index (size coords : list Z) : Z :=
  foldr Z.add 0 (imap (fun i c => c * prod_list (take i size)) coords).

(** Horner form of the mixed-radix sum. *)
Fixpoint horner (size coords : list Z) {struct coords} : Z :=
  match coords, size with
  | c :: coords', s :: size' => c + s * horner size' coords'
  | _, _ => 0
  end.

(** Coordinate tuples of the shape: one coordinate per dimension, each within
    its dimension's size. *)
Definition in_shape (size coords : list Z) : Prop :=
  Forall2 (fun c s => 0 <= c < s) coords size.

(** The tuple a linear index decodes to. *)
Fixpoint coords_of_index (size : list Z) (n : Z) : list Z :=
  match size with
  | [] => []
  | s :: size' => n mod s :: coords_of_index size' (n / s)
  end.

(** ** Python floats *)

Module Float64.

Definition prec : Z := 53.
Definition emax : Z := 1024.

Definition zero : spec_float := S754_zero false.
(** [1.0] *)
Definition one : spec_float := S754_finite false 4503599627370496 (-52).

Definition sub : spec_float -> spec_float -> spec_float := SFsub prec emax.
Definition mul : spec_float -> spec_float -> spec_float := SFmul prec emax.

Definition is_zero (f : spec_float) : bool :=
  match f with S754_zero _ => true | _ => false end.

(** [x / y] on floats: a zero divisor raises, anything else is IEEE
    division (overflow gives an infinity, not an exception). *)
Definition truediv (x y : spec_float) : result spec_float :=
  if is_zero y then Raise ZeroDivisionError else Ok (SFdiv prec emax x y).

(** [x > 0] *)
Definition positive (x : spec_float) : bool := SFltb zero x.

(** [int(x)] on a float: truncation toward zero. *)
Definition int_of_float (x : spec_float) : result Z :=
  match x with
  | S754_zero _ => Ok 0
  | S754_infinity _ => Raise OverflowError
  | S754_nan => Raise ValueError
  | S754_finite s m e =>
      Ok (cond_Zopp s (if 0 <=? e then Z.pos m * 2 ^ e
                       else Z.pos m / 2 ^ (- e)))
  end.

(** [math.floor(x)]: the largest integer below the float's value. *)
Definition floor (x : spec_float) : result Z :=
  match x with
  | S754_zero _ => Ok 0
  | S754_infinity _ => Raise OverflowError
  | S754_nan => Raise ValueError
  | S754_finite s m e =>
      Ok (if 0 <=? e then cond_Zopp s (Z.pos m) * 2 ^ e
          else cond_Zopp s (Z.pos m) / 2 ^ (- e))
  end.

(** [0.1], the float nearest to one tenth. *)
Definition tenth : spec_float := S754_finite false 7205759403792794 (-56).

(** [2.0], [5.0], [0.5] and the float nearest to one third. *)
Definition two : spec_float := S754_finite false 4503599627370496 (-51).
Definition five : spec_float := S754_finite false 5629499534213120 (-50).
Definition half : spec_float := S754_finite false 4503599627370496 (-53).
Definition third : spec_float := S754_finite false 6004799503160661 (-54).

(** A float that is not a negative number. *)
Definition not_negative (q : spec_float) : Prop :=
  match q with
  | S754_finite s _ _ => s = false
  | _ => True
  end.

(** [float(n)] on an integer: the nearest float, ties to even; an integer
    beyond the largest float raises. *)
Definition float_of_int (n : Z) : result spec_float :=
  match binary_normalize prec emax n 0 false with
  | S754_infinity _ => Raise OverflowError
  | f => Ok f
  end.

End Float64.

(** ** Python values handed to the manager *)

#[warnings="-register-all"] Inductive pyval :=
| VNone
| VInt (z : Z)
| VFloat (f : spec_float)
| VSeq (l : list pyval).

(** Subscripts of the manager: [cm[i]], [cm[u, v, ...]] with integer
    coordinates, or anything else. *)
Inductive pykey :=
| KInt (i : Z)
| KTuple (t : list Z)
| KOther.

(** A stored control point: a tuple of floats. *)
Abbreviation point := (list spec_float).

(** Modelled from the spec: [GeomdlFloat] of geomdl/base.py, which is not
    part of the sources: the float type, used as a conversion to a
    floating-point coordinate. *)
Definition GeomdlFloat (v : pyval) : result spec_float :=
  match v with
  | VFloat f => Ok f
  | VInt z => Float64.float_of_int z
  | VNone | VSeq _ => Raise TypeError
  end.

(** [int(arg)] *)
Definition py_int (v : pyval) : result Z :=
  match v with
  | VInt z => Ok z
  | VFloat f => Float64.int_of_float f
  | VNone | VSeq _ => Raise TypeError
  end.

(** Modelled from the spec: the fields of [GeomdlBase] (geomdl/base.py, not
    part of the sources) that the manager reads and writes: the spatial
    dimension, 0 until it is inferred, and the option store that holds the
    cached derived sequences. *)
Record GeomdlBase := mkBase {
  _dimension : Z;
  _opt_data : gmap string (list point);
}.

(** Modelled from the spec: [GeomdlBase.__init__]. *)
Definition GeomdlBase_init : GeomdlBase :=
  {| _dimension := 0; _opt_data := ∅ |}.

(** Modelled from the spec: [GeomdlBase.reset], the hook the manager's reset
    calls first; it invalidates the cached derived sequences of the option
    store. *)
Definition GeomdlBase_reset (kwargs : list (string * Z)) (b : GeomdlBase)
  : GeomdlBase :=
  {| _dimension := _dimension b; _opt_data := ∅ |}.

(** ** control_points.py: the default storage backend *)

Definition points_store := (list point * gmap string (list pyval))%type.

(** One attribute array of [default_ctrlpts_init]. *)
Definition init_data_array (num_ctrlpts v : Z) : list pyval :=
  if 1 <? v
  then replicate (Z.to_nat num_ctrlpts)
         (VSeq (replicate (Z.to_nat v) (VFloat Float64.zero)))
  else replicate (Z.to_nat num_ctrlpts) (VFloat Float64.zero).

Definition default_ctrlpts_init (num_ctrlpts : Z) (kwargs : list (string * Z))
  : result points_store :=
  let points := replicate (Z.to_nat num_ctrlpts) ([] : point) in
  let points_data :=
    foldl (fun d kv => <[kv.1 := init_data_array num_ctrlpts kv.2]> d)
      (∅ : gmap string (list pyval)) kwargs in
  Ok (points, points_data).

(** [pts_arr[idx] = tuple(GeomdlFloat(c) for c in cpt)]: the outcome and the
    container as the call leaves it. *)
Definition default_ctrlpt_set (pts_arr : list point) (idx : Z) (cpt : list pyval)
  : result unit * list point :=
  match mapM GeomdlFloat cpt with
  | Raise e => (Raise e, pts_arr)
  | Ok t =>
      match setitem pts_arr idx t with
      | Ok pts_arr' => (Ok tt, pts_arr')
      | Raise e => (Raise e, pts_arr)
      end
  end.

(** The [for idx, cpt in enumerate(pts_in)] loop of [default_ctrlpts_set]. *)
Fixpoint ctrlpts_set_loop (idx : Z) (pts_in : list pyval) (dim : Z)
    (pts_out : list point) : result unit * list point :=
  match pts_in with
  | [] => (Ok tt, pts_out)
  | cpt :: rest =>
      match cpt with
      | VSeq c =>
          if negb (len c =? dim) then (Raise GeomdlError, pts_out)
          else
            match default_ctrlpt_set pts_out idx c with
            | (Ok _, pts_out') => ctrlpts_set_loop (idx + 1) rest dim pts_out'
            | (Raise e, pts_out') => (Raise e, pts_out')
            end
      | _ => (Raise GeomdlError, pts_out)
      end
  end.

Definition default_ctrlpts_set (pts_in : list pyval) (dim : Z)
    (pts_out : list point) : result unit * list point :=
  ctrlpts_set_loop 0 pts_in dim pts_out.

(** ** control_points.py: the manager *)

(** The four pluggable functions kept in [self._cfg].  The two setters
    work on the container in place: they give back their outcome and the
    container as they leave it. *)
Record Config := mkConfig {
  func_pts_init : Z -> list (string * Z) -> result points_store;
  func_pts_set : list pyval -> Z -> list point -> result unit * list point;
  func_pt_set : list point -> Z -> list pyval -> result unit * list point;
  func_find_index : list Z -> list Z -> Z;
}.

Definition default_config : Config :=
  {| func_pts_init := default_ctrlpts_init;
     func_pts_set := default_ctrlpts_set;
     func_pt_set := default_ctrlpt_set;
     func_find_index := default_find_index |}.

Record CPManager := mkCPManager {
  base : GeomdlBase;
  _cfg : Config;
  _size : list Z;
  _count : Z;
  _pts : list point;
  _ptsd : gmap string (list pyval);
  _is_changed : bool;
}.

Definition dimension (self : CPManager) : Z := _dimension (base self).
Definition size (self : CPManager) : list Z := _size self.
Definition count (self : CPManager) : Z := _count self.
Definition points (self : CPManager) : list point := _pts self.
Definition points_data (self : CPManager) : gmap string (list pyval) := _ptsd self.
Definition is_changed (self : CPManager) : bool := _is_changed self.

(** Field assignments. *)
Definition set_base (b : GeomdlBase) (self : CPManager) : CPManager :=
  mkCPManager b (_cfg self) (_size self) (_count self) (_pts self)
    (_ptsd self) (_is_changed self).
Definition set_dimension (d : Z) (self : CPManager) : CPManager :=
  set_base (mkBase d (_opt_data (base self))) self.
Definition set_pts (pts : list point) (self : CPManager) : CPManager :=
  mkCPManager (base self) (_cfg self) (_size self) (_count self) pts
    (_ptsd self) (_is_changed self).
Definition set_ptsd (d : gmap string (list pyval)) (self : CPManager) : CPManager :=
  mkCPManager (base self) (_cfg self) (_size self) (_count self) (_pts self)
    d (_is_changed self).
Definition set_is_changed (b : bool) (self : CPManager) : CPManager :=
  mkCPManager (base self) (_cfg self) (_size self) (_count self) (_pts self)
    (_ptsd self) b.

(** The constructor [CPManager] with positional [args] and keyword
    arguments: [cfg] holds the [config_*] keyword
    arguments (the defaults where none is given), [kwargs] the remaining
    ones, the declared attributes with their arities. *)
Definition __init__ (args : list pyval) (kwargs : list (string * Z))
    (cfg : Config) : result CPManager :=
  let b := GeomdlBase_init in
  size ← mapM py_int args;
  count ← reduce_mul size;
  store ← func_pts_init cfg count kwargs;
  Ok (mkCPManager b cfg size count store.1 store.2 false).

(** [self[item]] *)
Definition __getitem__ (item : pykey) (self : CPManager) : result point :=
  match item with
  | KInt i => getitem (_pts self) i
  | KTuple t =>
      if negb (len t =? len (size self)) then Raise ValueError
      else getitem (_pts self) (func_find_index (_cfg self) (size self) t)
  | KOther => Raise TypeError
  end.

(** [self[key] = value]: the outcome and the manager as the call leaves it. *)
Definition __setitem__ (key : pykey) (value : pyval) (self : CPManager)
  : result unit * CPManager :=
  match value with
  | VSeq v =>
      let self := if dimension self <? 1 then set_dimension (len v) self
                  else self in
      if negb (len v =? dimension self) then (Raise ValueError, self)
      else
        match key with
        | KInt k =>
            match func_pt_set (_cfg self) (_pts self) k v with
            | (Ok _, pts) => (Ok tt, set_is_changed true (set_pts pts self))
            | (Raise e, pts) => (Raise e, set_pts pts self)
            end
        | KTuple t =>
            if negb (len t =? len (size self)) then (Raise ValueError, self)
            else
              let idx := func_find_index (_cfg self) (size self) t in
              match func_pt_set (_cfg self) (_pts self) idx v with
              | (Ok _, pts) => (Ok tt, set_is_changed true (set_pts pts self))
              | (Raise e, pts) => (Raise e, set_pts pts self)
              end
        | KOther => (Raise TypeError, self)
        end
  | _ => (Raise TypeError, self)
  end.

(** The setter of the [points] property: [self.points = value]. *)
Definition points_setter (value : pyval) (self : CPManager)
  : result unit * CPManager :=
  match value with
  | VSeq vs =>
      if negb (len vs =? count self) then (Raise GeomdlError, self)
      else
        let infer : result CPManager :=
          if dimension self <? 1 then
            match vs with
            | [] => Raise IndexError
            | VSeq c :: _ => Ok (set_dimension (len c) self)
            | _ :: _ => Raise TypeError
            end
          else Ok self in
        match infer with
        | Raise e => (Raise e, self)
        | Ok self =>
            match func_pts_set (_cfg self) vs (dimension self) (_pts self) with
            | (Ok _, pts) => (Ok tt, set_is_changed true (set_pts pts self))
            | (Raise e, pts) => (Raise e, set_pts pts self)
            end
        end
  | _ => (Raise GeomdlError, self)
  end.

(** [self(points)] *)
Definition __call__ (pts : pyval) (self : CPManager) : result unit * CPManager :=
  match points_setter pts self with
  | (Ok _, self) => (Ok tt, set_is_changed true self)
  | (Raise e, self) => (Raise e, self)
  end.

(** [self.reset] with keyword arguments [kwargs]: the value of the init function is dropped. *)
Definition reset (kwargs : list (string * Z)) (self : CPManager)
  : result unit * CPManager :=
  let self := set_base (GeomdlBase_reset kwargs (base self)) self in
  match func_pts_init (_cfg self) (count self) kwargs with
  | Ok _ => (Ok tt, self)
  | Raise e => (Raise e, self)
  end.

Definition reset_changed (self : CPManager) : CPManager :=
  set_is_changed false self.

(** [self.pt] at the coordinates [args] *)
Definition pt (args : list Z) (self : CPManager) : result point :=
  __getitem__ (KTuple args) self.

(** [self.set_pt(pt, *args)] *)
Definition set_pt (p : pyval) (args : list Z) (self : CPManager)
  : result unit * CPManager :=
  match __setitem__ (KTuple args) p self with
  | (Ok _, self) => (Ok tt, set_is_changed true self)
  | (Raise e, self) => (Raise e, self)
  end.

(** [d[k]] on a dictionary. *)
Definition dict_getitem {V} (d : gmap string V) (k : string) : result V :=
  match d !! k with
  | Some v => Ok v
  | None => Raise KeyError
  end.

(** [self.ptdata(dkey, *args)]; the value [VNone] is Python's [None]. *)
Definition ptdata (dkey : string) (args : list Z) (self : CPManager)
  : result pyval :=
  let idx := func_find_index (_cfg self) (size self) args in
  match (arr ← dict_getitem (_ptsd self) dkey; getitem arr idx) with
  | Ok v => Ok v
  | Raise IndexError => Ok VNone
  | Raise KeyError => Ok VNone
  | Raise e => Raise e
  end.

(** [self._ptsd[k][idx][j] = v] *)
Definition ptsd_set_component (k : string) (idx j : Z) (v : pyval)
    (d : gmap string (list pyval)) : result (gmap string (list pyval)) :=
  arr ← dict_getitem d k;
  elt ← getitem arr idx;
  match elt with
  | VSeq l =>
      l' ← setitem l j v;
      arr' ← setitem arr idx (VSeq l');
      Ok (<[k := arr']> d)
  | _ => Raise TypeError
  end.

(** [self._ptsd[k][idx] = val] *)
Definition ptsd_set_entry (k : string) (idx : Z) (val : pyval)
    (d : gmap string (list pyval)) : result (gmap string (list pyval)) :=
  arr ← dict_getitem d k;
  arr' ← setitem arr idx val;
  Ok (<[k := arr']> d).

(** The [for j, v in enumerate(val)] loop of [set_ptdata]: the outcome and
    the dictionary with the writes made so far. *)
Fixpoint set_components (k : string) (idx j : Z) (val : list pyval)
    (d : gmap string (list pyval)) : result unit * gmap string (list pyval) :=
  match val with
  | [] => (Ok tt, d)
  | v :: val' =>
      match ptsd_set_component k idx j v d with
      | Ok d' => set_components k idx (j + 1) val' d'
      | Raise e => (Raise e, d)
      end
  end.

(** The [for k, val in adct.items()] loop of [set_ptdata]. *)
Fixpoint set_ptdata_loop (idx : Z) (adct : list (string * pyval))
    (self : CPManager) : result unit * CPManager :=
  match adct with
  | [] => (Ok tt, self)
  | (k, val) :: adct' =>
      if bool_decide (is_Some (_ptsd self !! k)) then
        let written :=
          match val with
          | VSeq l => set_components k idx 0 l (_ptsd self)
          | _ =>
              match ptsd_set_entry k idx val (_ptsd self) with
              | Ok d => (Ok tt, d)
              | Raise e => (Raise e, _ptsd self)
              end
          end in
        match written with
        | (Ok _, d) =>
            set_ptdata_loop idx adct' (set_is_changed true (set_ptsd d self))
        | (Raise e, d) => (Raise e, set_ptsd d self)
        end
      else (Raise GeomdlError, self)
  end.

(** [self.set_ptdata(adct, *args)]; [adct] lists the items of the
    attachment dictionary in their order. *)
Definition set_ptdata (adct : list (string * pyval)) (args : list Z)
    (self : CPManager) : result unit * CPManager :=
  let idx := func_find_index (_cfg self) (size self) args in
  match set_ptdata_loop idx adct self with
  | (Raise IndexError, self) => (Raise GeomdlError, self)
  | r => r
  end.

(** A point of [vs] whose length is not [dim]. *)
Definition has_wrong_length (dim : Z) (vs : list pyval) : Prop :=
  Exists (fun v => exists c, v = VSeq c /\ len c <> dim) vs.

(** The validation clause of the bulk-set contract: the function raises
    when a point of its input has not the length [dim]. *)
Definition pts_set_validates
    (f : list pyval -> Z -> list point -> result unit * list point) : Prop :=
  forall vs dim pts_out,
    has_wrong_length dim vs -> is_ok (f vs dim pts_out).1 = false.

(** The states a manager built by [CPManager] with [args], [kwargs] and
    [cfg] can be in: after the constructor, and after any call of a mutating
    method, whether it returned or raised. *)
Inductive reachable (args : list pyval) (kwargs : list (string * Z))
    (cfg : Config) : CPManager -> Prop :=
| reach_init self :
    __init__ args kwargs cfg = Ok self -> reachable args kwargs cfg self
| reach_setitem key value self :
    reachable args kwargs cfg self ->
    reachable args kwargs cfg (__setitem__ key value self).2
| reach_set_pt p coords self :
    reachable args kwargs cfg self ->
    reachable args kwargs cfg (set_pt p coords self).2
| reach_points value self :
    reachable args kwargs cfg self ->
    reachable args kwargs cfg (points_setter value self).2
| reach_call value self :
    reachable args kwargs cfg self ->
    reachable args kwargs cfg (__call__ value self).2
| reach_set_ptdata adct coords self :
    reachable args kwargs cfg self ->
    reachable args kwargs cfg (set_ptdata adct coords self).2
| reach_reset kw self :
    reachable args kwargs cfg self ->
    reachable args kwargs cfg (reset kw self).2
| reach_reset_changed self :
    reachable args kwargs cfg self ->
    reachable args kwargs cfg (reset_changed self).

(** ** utilities.py *)

(** The [while idx < points_size] loop of [make_zigzag]; [idx] grows by one
    in every round. *)
Equations? zigzag_loop {A} (points : list A) (num_cols : Z)
    (new_points : list A) (forward : bool) (idx rev_idx : Z)
  : result (list A) by wf (Z.to_nat (len points - idx)) lt :=
  zigzag_loop points num_cols new_points forward idx rev_idx
    with decide (idx < len points) => {
    | right _ := Ok new_points;
    | left _
        with (if forward then getitem points idx
              else getitem points rev_idx) => {
        | Raise e := Raise e;
        | Ok p with decide (num_cols = 0) => {
            | left _ := Raise ZeroDivisionError;
            | right _ with decide ((idx + 1) mod num_cols = 0) => {
                | left _ :=
                    zigzag_loop points num_cols (new_points ++ [p])
                      (negb forward) (idx + 1) (idx + 1 + num_cols - 1);
                | right _ :=
                    zigzag_loop points num_cols (new_points ++ [p])
                      forward (idx + 1)
                      (if forward then rev_idx else rev_idx - 1) } } } }.
Proof. all: lia. Qed.

Definition make_zigzag {A} (points : list A) (num_cols : Z) : result (list A) :=
  zigzag_loop points num_cols [] true 0 (-1).

(** Where element [k] of a zig-zag of row width [w] comes from: its own
    position in an even row, the mirrored column of its row in an odd one. *)
Definition zigzag_index (w k : Z) : Z :=
  if Z.even (k / w) then k else (k / w) * w + (w - 1 - k mod w).

Section Quadtree.

(** Points and vectors; [linalg.vector_generate] and
    [linalg.point_translate] are not part of the sources and are taken as
    they come. *)
Context {P V : Type}.
Variable vector_generate : P -> P -> result V.
Variable point_translate : P -> V -> result P.

(** The first loop nest of [make_quadtree]: one row per [j] below
    [size_v], holding [points[i + j * size_u]] for [i] below [size_u]. *)
Definition quadtree_points2d (points : list P) (size_u size_v : Z)
  : result (list (list P)) :=
  mapM (fun j => mapM (fun i => getitem points (i + j * size_u))
                   (seqZ 0 size_u))
    (seqZ 0 size_v).

(** [points2d[a][b]] *)
Definition getitem2d (points2d : list (list P)) (a b : Z) : result P :=
  row ← getitem points2d a; getitem row b.

(** One of the four neighbour blocks of the cell [(u, v)]: the neighbour
    at [(nu, nv)] when [inside] holds, else, under [extrapolate], the cell's
    point translated by the vector from [(ou, ov)] to the cell, else
    nothing. *)
Definition quadtree_neighbor (points2d : list (list P)) (extrapolate : bool)
    (u v : Z) (inside : bool) (nu nv ou ov : Z) : result (list P) :=
  if inside then
    x ← getitem2d points2d nu nv; Ok [x]
  else if extrapolate then
    a ← getitem2d points2d ou ov;
    b ← getitem2d points2d u v;
    extrapolated_edge ← vector_generate a b;
    c ← getitem2d points2d u v;
    translated_point ← point_translate c extrapolated_edge;
    Ok [translated_point]
  else Ok [].

(** The body of the traversal for the cell [(u, v)]: the tuple [temp]. *)
Definition quadtree_cell (points2d : list (list P)) (size_u size_v : Z)
    (extrapolate : bool) (u v : Z) : result (list P) :=
  self ← getitem2d points2d u v;
  east ← quadtree_neighbor points2d extrapolate u v
            (u + 1 <? size_u) (u + 1) v (u - 1) v;
  north ← quadtree_neighbor points2d extrapolate u v
            (v + 1 <? size_v) u (v + 1) u (v - 1);
  west ← quadtree_neighbor points2d extrapolate u v
            (0 <=? u - 1) (u - 1) v (u + 1) v;
  south ← quadtree_neighbor points2d extrapolate u v
            (0 <=? v - 1) u (v - 1) u (v + 1);
  Ok (self :: east ++ north ++ west ++ south).

Definition make_quadtree (points : list P) (size_u size_v : Z)
    (extrapolate : bool) : result (list (list P)) :=
  points2d ← quadtree_points2d points size_u size_v;
  qtree ← mapM (fun v => mapM (fun u =>
                   quadtree_cell points2d size_u size_v extrapolate u v)
                 (seqZ 0 size_u))
             (seqZ 0 size_v);
  Ok (concat qtree).

End Quadtree.

Definition compute_delta_from_sample_size (sample_size : Z)
    (domain : list spec_float) (domain_range : spec_float) : result spec_float :=
  d1 ← getitem domain 1;
  d0 ← getitem domain 0;
  n ← GeomdlFloat (VInt (sample_size - 1));
  Float64.truediv (Float64.sub d1 d0) (Float64.mul domain_range n).

Definition compute_sample_size_from_delta (delta : spec_float) : result Z :=
  q ← Float64.truediv Float64.one delta;
  n ← Float64.int_of_float q;
  Ok (n + 1).

(** The conversion as the specification words it:
    [sample_size = floor(1 / delta) + 1]. *)
Definition spec_sample_size (delta : spec_float) : result Z :=
  q ← Float64.truediv Float64.one delta;
  n ← Float64.floor q;
  Ok (n + 1).

(** ** Further definitions: shapes, subscripts and accepted values *)

(** What the methods of the manager leave alone: the configuration, the
    shape, and the lengths of the point and data arrays. *)
Definition same_shape (self self' : CPManager) : Prop :=
  _cfg self' = _cfg self /\ _size self' = _size self
  /\ _count self' = _count self
  /\ length (_pts self') = length (_pts self)
  /\ forall k, length <$> (_ptsd self' !! k) = length <$> (_ptsd self !! k).

(** The index a subscript resolves to in a manager. *)
Definition resolve_key (key : pykey) (self : CPManager) : option Z :=
  match key with
  | KInt i => Some i
  | KTuple t =>
      if len t =? len (size self)
      then Some (func_find_index (_cfg self) (size self) t)
      else None
  | KOther => None
  end.

(** An input point the default bulk-set function accepts for the dimension
    [dim], and the tuple it stores for it. *)
Definition good_point (dim : Z) (v : pyval) (t : point) : Prop :=
  exists c, v = VSeq c /\ len c = dim /\ mapM GeomdlFloat c = Ok t.

(** A value [set_ptdata] stores whole, not component by component. *)
Definition is_scalar (val : pyval) : Prop :=
  match val with VSeq _ => False | _ => True end.

(** The sequences [make_zigzag] walks to the end: those whose last row is
    full or has an even row number. *)
Definition zigzag_walkable (n w : Z) : Prop :=
  n mod w = 0 \/ Z.even (n / w) = true.

(** The second pass of [make_quad], the [for row in range(0, size_v)] loop:
    the column of each row, every other one reversed. *)
Fixpoint quad_rows {A} (points : list A) (size_u size_v : Z) (rows : list Z)
    (forward : bool) (new_points : list A) : result (list A) :=
  match rows with
  | [] => Ok new_points
  | row :: rows' =>
      temp ← mapM (fun col => getitem points (row + col * size_v))
                (seqZ 0 size_u);
      if forward
      then quad_rows points size_u size_v rows' false (new_points ++ temp)
      else quad_rows points size_u size_v rows' true
             (new_points ++ reverse temp)
  end.

Definition make_quad {A} (points : list A) (size_u size_v : Z)
  : result (list A) :=
  new_points ← make_zigzag points size_v;
  quad_rows points size_u size_v (seqZ 0 size_v) true (reverse new_points).

(** Where the element at column [col] of row [row] of the second pass of
    [make_quad] comes from. *)
Definition quad_index (size_u size_v row col : Z) : Z :=
  row + (if Z.even row then col else size_u - 1 - col) * size_v.

(** A float that is a number: a zero or a finite one. *)
Definition is_number (f : spec_float) : Prop :=
  match f with
  | S754_zero _ | S754_finite _ _ _ => True
  | _ => False
  end.

(** One [for i, arr in enumerate(zip(cpt, bb))] loop of
    [evaluate_bounding_box]: [bb[i] = arr[0]] wherever [better arr[0] arr[1]]
    holds; [zip] stops at the shorter of the two. *)
Fixpoint bb_update (better : spec_float -> spec_float -> bool)
    (cpt bb : list spec_float) : list spec_float :=
  match cpt, bb with
  | c :: cpt', b :: bb' =>
      (if better c b then c else b) :: bb_update better cpt' bb'
  | _, _ => bb
  end.

(** [x < y] and [x > y] on floats. *)
Definition float_lt (x y : spec_float) : bool := SFltb x y.
Definition float_gt (x y : spec_float) : bool := SFltb y x.

Definition evaluate_bounding_box (ctrlpts : list (list spec_float))
  : result (list spec_float * list spec_float) :=
  first ← getitem ctrlpts 0;
  let dimension := length first in
  let bbmin := replicate dimension (S754_infinity false) in
  let bbmax := replicate dimension (S754_infinity true) in
  Ok (foldl (fun bb cpt =>
               (bb_update float_lt cpt bb.1, bb_update float_gt cpt bb.2))
        (bbmin, bbmax) ctrlpts).

(** No coordinate of the point [p] is better than the bound of its axis. *)
Definition bounded_by (better : spec_float -> spec_float -> bool)
    (bb p : list spec_float) : Prop :=
  forall i x m, p !! i = Some x -> bb !! i = Some m -> better x m = false.

(** The cells whose points the tuple of the cell [(u, v)] holds when
    [make_quadtree] does not extrapolate: the cell, then its neighbours at
    [u + 1], [v + 1], [u - 1] and [v - 1] that are in the grid. *)
Definition quadtree_cells (size_u size_v u v : Z) : list (Z * Z) :=
  (u, v)
  :: (if u + 1 <? size_u then [(u + 1, v)] else [])
  ++ (if v + 1 <? size_v then [(u, v + 1)] else [])
  ++ (if 0 <=? u - 1 then [(u - 1, v)] else [])
  ++ (if 0 <=? v - 1 then [(u, v - 1)] else []).

(** The tuple [t] holds the points of the cells [cells], the point of the
    cell [(a, b)] being [points[b + a * n]]. *)
Definition holds_points {P} (points : list P) (n : Z) (t : list P)
    (cells : list (Z * Z)) : Prop :=
  Forall2 (fun x ab => points !! Z.to_nat (ab.2 + ab.1 * n) = Some x) t cells.

(** The linear-algebra functions [linalg.vector_generate] and
    [linalg.point_translate] return on all inputs. *)
Definition linalg_total {P V} (vector_generate : P -> P -> result V)
    (point_translate : P -> V -> result P) : Prop :=
  (forall a b, exists e, vector_generate a b = Ok e)
  /\ (forall c e, exists t, point_translate c e = Ok t).

(** [x] is the point of the cell [(a, b)] of a square grid of side [n]:
    [points[b + a * n]]. *)
Definition grid_point {P} (points : list P) (n a b : Z) (x : P) : Prop :=
  points !! Z.to_nat (b + a * n) = Some x.

(** What [make_quadtree] stores for one side of the cell [(u, v)] when it
    extrapolates: the neighbour [(nu, nv)] when it is inside the grid, else
    the point of the cell translated by the vector from the point of
    [(ou, ov)] to the point of the cell. *)
Definition quadtree_side {P V} (vector_generate : P -> P -> result V)
    (point_translate : P -> V -> result P) (points : list P) (n u v : Z)
    (inside : bool) (nu nv ou ov : Z) (x : P) : Prop :=
  if inside then grid_point points n nu nv x
  else exists a c e,
         grid_point points n ou ov a /\ grid_point points n u v c
         /\ vector_generate a c = Ok e /\ point_translate c e = Ok x.

(* ===================================================================== *)
(** * Part II: theorems                                                   *)
(* ===================================================================== *)

(** ** The index mapper *)

Section IndexMapper.

Lemma foldl_mul_prod (l : list Z) (a : Z) :
  foldl Z.mul a l = a * prod_list l.
Proof.
  revert a; induction l as [|x l IH]; intros a; simpl.
  - unfold prod_list; simpl; lia.
  - rewrite IH. unfold prod_list; simpl. lia.
Qed.

Lemma prod_list_app (l1 l2 : list Z) :
  prod_list (l1 ++ l2) = prod_list l1 * prod_list l2.
Proof.
  unfold prod_list. induction l1 as [|x l1 IH]; simpl; [lia|].
  rewrite IH; lia.
Qed.

(** The loop computes the sum of the specification, whatever the lengths
    of the shape and of the coordinate tuple. *)
Lemma find_index_loop_sum (size args : list Z) (i : nat) (idx : Z) :
  find_index_loop size i args idx
  = idx + foldr Z.add 0
            (imap (fun j c => c * prod_list (take (i + j) size)) args).
Proof.
  revert i idx. induction args as [|arg args IH]; intros i idx.
  - simpl. lia.
  - cbn [find_index_loop imap foldr]. rewrite IH.
    assert (Hmul : (if (0 <? i)%nat then foldl Z.mul 1 (take i size) else 1)
                   = prod_list (take (i + 0) size)).
    { rewrite Nat.add_0_r. destruct i as [|i]; [reflexivity|].
      change (0 <? S i)%nat with true. cbv iota.
      rewrite foldl_mul_prod. lia. }
    rewrite Hmul.
    assert (Hshift :
      imap ((fun j c => c * prod_list (take (i + j) size)) ∘ S) args
      = imap (fun j c => c * prod_list (take (S i + j) size)) args).
    { apply imap_ext. intros j c _. simpl. do 3 f_equal. lia. }
    rewrite Hshift. lia.
Qed.

Lemma default_find_index_sum (size coords : list Z) :
  default_find_index size coords = spec_index size coords.
Proof.
  unfold default_find_index, spec_index.
  rewrite find_index_loop_sum. simpl. reflexivity.
Qed.

Lemma sum_imap_scale (s : Z) (g : nat -> Z) (l : list Z) :
  foldr Z.add 0 (imap (fun j c => c * (s * g j)) l)
  = s * foldr Z.add 0 (imap (fun j c => c * g j) l).
Proof.
  revert g. induction l as [|c l IH]; intros g; simpl; [lia|].
  change ((fun j c => c * (s * g j)) ∘ S)
    with (fun j c => c * (s * (g ∘ S) j)).
  rewrite IH.
  change ((fun j c => c * g j) ∘ S) with (fun j c => c * (g ∘ S) j).
  lia.
Qed.

Lemma spec_index_horner (size coords : list Z) :
  length coords = length size ->
  spec_index size coords = horner size coords.
Proof.
  revert size. induction coords as [|c coords IH]; intros size Hlen.
  - reflexivity.
  - destruct size as [|s size]; [discriminate|].
    simpl in Hlen. unfold spec_index. cbn [imap foldr horner].
    rewrite <- IH by lia. unfold spec_index.
    rewrite <- sum_imap_scale.
    change ((fun i c0 => c0 * prod_list (take i (s :: size))) ∘ S)
      with (fun j c => c * (s * prod_list (take j size))).
    unfold prod_list at 1. simpl. lia.
Qed.

Lemma prod_list_pos (size : list Z) :
  Forall (fun s => 0 < s) size -> 0 < prod_list size.
Proof.
  unfold prod_list. induction 1; simpl; lia.
Qed.

Lemma horner_range (size coords : list Z) :
  in_shape size coords -> 0 <= horner size coords < prod_list size.
Proof.
  unfold in_shape, prod_list. induction 1 as [|c s coords size Hc _ IH].
  - simpl. lia.
  - cbn [horner foldr]. nia.
Qed.

Lemma horner_inj (size c1 c2 : list Z) :
  in_shape size c1 -> in_shape size c2 ->
  horner size c1 = horner size c2 -> c1 = c2.
Proof.
  unfold in_shape. intros H1. revert c2.
  induction H1 as [|c s coords size Hc Hrest IH]; intros c2 H2 Heq.
  - inversion H2; reflexivity.
  - inversion H2 as [|c' s' coords' size' Hc' Hrest']; subst.
    cbn [horner] in Heq.
    assert (Hdiv : horner size coords = horner size coords') by nia.
    assert (c = c') by nia.
    subst c'. f_equal. apply IH; assumption.
Qed.

Lemma coords_of_index_in_shape (size : list Z) (n : Z) :
  Forall (fun s => 0 < s) size ->
  0 <= n < prod_list size ->
  in_shape size (coords_of_index size n)
  /\ horner size (coords_of_index size n) = n.
Proof.
  unfold in_shape, prod_list. intros Hpos. revert n.
  induction Hpos as [|s size Hs _ IH]; intros n Hn.
  - simpl in *. split; [constructor | lia].
  - cbn [coords_of_index horner foldr] in *.
    assert (Hq : 0 <= n / s < foldr Z.mul 1 size).
    { split; [apply Z.div_pos; lia|].
      apply Z.div_lt_upper_bound; lia. }
    destruct (IH _ Hq) as [Hin Hh].
    split.
    + constructor; [apply Z.mod_pos_bound; lia | exact Hin].
    + rewrite Hh. pose proof (Z.div_mod n s). lia.
Qed.

Lemma reduce_mul_prod (size : list Z) (count : Z) :
  reduce_mul size = Ok count -> count = prod_list size.
Proof.
  destruct size as [|s size]; simpl; [discriminate|].
  intros [= <-]. rewrite foldl_mul_prod. reflexivity.
Qed.

(** C4: for a shape of positive sizes whose product is [count],
    [default_find_index] computes the mixed-radix sum
    [sum_i (c_i * prod (s_0 .. s_{i-1}))]; on coordinate tuples with
    [0 <= c_i < s_i] it takes its values in [0, count), it is injective,
    and every linear index of [0, count) is the image of such a tuple. *)
Theorem default_find_index_bijection (size : list Z) (count : Z) :
  Forall (fun s => 0 < s) size ->
  reduce_mul size = Ok count ->
  (forall coords, default_find_index size coords = spec_index size coords)
  /\ (forall coords, in_shape size coords ->
        0 <= default_find_index size coords < count)
  /\ (forall c1 c2, in_shape size c1 -> in_shape size c2 ->
        default_find_index size c1 = default_find_index size c2 -> c1 = c2)
  /\ (forall n, 0 <= n < count ->
        in_shape size (coords_of_index size n)
        /\ default_find_index size (coords_of_index size n) = n).
Proof.
  intros Hpos Hcount. apply reduce_mul_prod in Hcount. subst count.
  assert (Hh : forall coords, in_shape size coords ->
               default_find_index size coords = horner size coords).
  { intros coords Hin. rewrite default_find_index_sum.
    apply spec_index_horner. exact (Forall2_length _ _ _ Hin). }
  split; [exact (default_find_index_sum size)|].
  split; [|split].
  - intros coords Hin. rewrite (Hh _ Hin). apply horner_range, Hin.
  - intros c1 c2 H1 H2. rewrite (Hh _ H1), (Hh _ H2).
    apply horner_inj; assumption.
  - intros n Hn.
    destruct (coords_of_index_in_shape size n Hpos Hn) as [Hin Heq].
    split; [exact Hin|]. rewrite (Hh _ Hin). exact Heq.
Qed.

Lemma default_find_index_bijection_witness :
  default_find_index [6; 7; 11] [2; 1; 5] = 218
  /\ coords_of_index [6; 7; 11] 218 = [2; 1; 5]
  /\ default_find_index [6; 7; 11] (coords_of_index [6; 7; 11] 461) = 461.
Proof.
  assert (Hpos : Forall (fun s => 0 < s) [6; 7; 11])
    by (repeat constructor; lia).
  assert (Hcount : reduce_mul [6; 7; 11] = Ok 462) by reflexivity.
  destruct (default_find_index_bijection [6; 7; 11] 462 Hpos Hcount)
    as (_ & _ & _ & Hsurj).
  split; [reflexivity|]. split; [reflexivity|].
  apply (Hsurj 461). lia.
Defined.

End IndexMapper.

(** ** The manager: the change flag and reset *)

Section ChangeFlag.

Lemma setitem_ok_changed key value self self' :
  __setitem__ key value self = (Ok (), self') -> is_changed self' = true.
Proof.
  unfold __setitem__. intros H.
  repeat case_match; simplify_eq; reflexivity.
Qed.

Lemma set_pt_ok_changed p coords self self' :
  set_pt p coords self = (Ok (), self') -> is_changed self' = true.
Proof.
  unfold set_pt. intros H. repeat case_match; simplify_eq; reflexivity.
Qed.

Lemma points_setter_ok_changed value self self' :
  points_setter value self = (Ok (), self') -> is_changed self' = true.
Proof.
  unfold points_setter. intros H.
  repeat case_match; simplify_eq; reflexivity.
Qed.

Lemma call_ok_changed value self self' :
  __call__ value self = (Ok (), self') -> is_changed self' = true.
Proof.
  unfold __call__. intros H. repeat case_match; simplify_eq; reflexivity.
Qed.

(** No round of the [set_ptdata] loop clears the flag. *)
Lemma set_ptdata_loop_keeps_changed idx adct self r self' :
  set_ptdata_loop idx adct self = (r, self') ->
  is_changed self = true -> is_changed self' = true.
Proof.
  revert self. induction adct as [|[k val] adct IH]; intros self H Hc.
  - simpl in H. simplify_eq. exact Hc.
  - simpl in H. repeat case_match; simplify_eq;
      try exact Hc; try (eapply IH; [eassumption | reflexivity]).
Qed.

Lemma set_ptdata_loop_ok_changed idx adct self self' :
  adct <> [] ->
  set_ptdata_loop idx adct self = (Ok (), self') ->
  is_changed self' = true.
Proof.
  intros Hne H. destruct adct as [|[k val] adct]; [congruence|].
  simpl in H. repeat case_match; simplify_eq;
    (eapply set_ptdata_loop_keeps_changed; [eassumption | reflexivity]).
Qed.

Lemma set_ptdata_ok_changed adct coords self self' :
  adct <> [] ->
  set_ptdata adct coords self = (Ok (), self') ->
  is_changed self' = true.
Proof.
  unfold set_ptdata. intros Hne H.
  destruct (set_ptdata_loop _ adct self) as [r s1] eqn:Hloop.
  destruct r as [[]|e].
  - simplify_eq. eapply set_ptdata_loop_ok_changed; eassumption.
  - destruct e; simplify_eq.
Qed.

(** An empty attachment dictionary writes nothing and leaves the flag. *)
Lemma set_ptdata_empty coords self :
  set_ptdata [] coords self = (Ok (), self).
Proof. reflexivity. Qed.

Lemma init_not_changed args kwargs cfg self :
  __init__ args kwargs cfg = Ok self -> is_changed self = false.
Proof.
  unfold __init__. intros H.
  destruct (mapM py_int args) as [sz|]; [|discriminate]. simpl in H.
  destruct (reduce_mul sz) as [c|]; [|discriminate]. simpl in H.
  destruct (func_pts_init cfg c kwargs) as [st|]; [|discriminate].
  simpl in H. simplify_eq. reflexivity.
Qed.

(** C5: [is_changed] is false right after construction and right after
    [reset_changed]; it is true after every successful single point
    assignment (by linear index, by coordinates, through [set_pt]), after
    every successful bulk assignment (the [points] setter, calling the
    manager), and after every successful [set_ptdata] that sets the data
    of at least one key. *)
Theorem is_changed_tracks_mutation :
  (forall args kwargs cfg self,
      __init__ args kwargs cfg = Ok self -> is_changed self = false)
  /\ (forall self, is_changed (reset_changed self) = false)
  /\ (forall key value self self',
        __setitem__ key value self = (Ok (), self') -> is_changed self' = true)
  /\ (forall p coords self self',
        set_pt p coords self = (Ok (), self') -> is_changed self' = true)
  /\ (forall value self self',
        points_setter value self = (Ok (), self') -> is_changed self' = true)
  /\ (forall value self self',
        __call__ value self = (Ok (), self') -> is_changed self' = true)
  /\ (forall adct coords self self',
        adct <> [] ->
        set_ptdata adct coords self = (Ok (), self') ->
        is_changed self' = true).
Proof.
  split; [exact init_not_changed|].
  split; [reflexivity|].
  split; [exact setitem_ok_changed|].
  split; [exact set_pt_ok_changed|].
  split; [exact points_setter_ok_changed|].
  split; [exact call_ok_changed|].
  exact set_ptdata_ok_changed.
Qed.

Lemma is_changed_tracks_mutation_witness :
  exists cm,
    __init__ [VInt 2; VInt 1] [("weight"%string, 1)] default_config = Ok cm
    /\ is_changed cm = false
    /\ is_changed (__setitem__ (KInt 0) (VSeq [VFloat Float64.one]) cm).2
       = true
    /\ is_changed
         (set_ptdata [("weight"%string, VFloat Float64.one)] [1; 0] cm).2
       = true
    /\ is_changed
         (points_setter (VSeq [VSeq [VInt 3]; VSeq [VInt 4]]) cm).2
       = true.
Proof.
  destruct is_changed_tracks_mutation
    as (Hinit & _ & Hset & _ & Hbulk & _ & Hdata).
  eexists. split; [reflexivity|].
  split; [apply (Hinit [VInt 2; VInt 1] [("weight"%string, 1)]
                   default_config); reflexivity|].
  split; [|split].
  - match goal with
    | |- is_changed (__setitem__ ?k ?v ?c).2 = true =>
        apply (Hset k v c); reflexivity
    end.
  - match goal with
    | |- is_changed (set_ptdata ?a ?i ?c).2 = true =>
        apply (Hdata a i c); [discriminate | reflexivity]
    end.
  - match goal with
    | |- is_changed (points_setter ?v ?c).2 = true =>
        apply (Hbulk v c); reflexivity
    end.
Defined.

(** C10: [reset] leaves [is_changed] as it finds it, whether the init
    function returns or raises; and no mutating method turns a true flag
    back to false, which only [reset_changed] does. *)
Theorem reset_keeps_is_changed :
  (forall kwargs self, is_changed (reset kwargs self).2 = is_changed self)
  /\ (forall key value self,
        is_changed self = true ->
        is_changed (__setitem__ key value self).2 = true)
  /\ (forall p coords self,
        is_changed self = true -> is_changed (set_pt p coords self).2 = true)
  /\ (forall value self,
        is_changed self = true ->
        is_changed (points_setter value self).2 = true)
  /\ (forall value self,
        is_changed self = true -> is_changed (__call__ value self).2 = true)
  /\ (forall adct coords self,
        is_changed self = true ->
        is_changed (set_ptdata adct coords self).2 = true).
Proof.
  split; [|split; [|split; [|split; [|split]]]].
  - intros kwargs self. unfold reset.
    destruct (func_pts_init _ _ _); reflexivity.
  - intros key value self Hc. unfold __setitem__.
    repeat case_match; simplify_eq; simpl; try reflexivity; exact Hc.
  - intros p coords self Hc. unfold set_pt, __setitem__.
    repeat case_match; simplify_eq; simpl; try reflexivity; exact Hc.
  - intros value self Hc. unfold points_setter.
    repeat case_match; simplify_eq; simpl; try reflexivity; exact Hc.
  - intros value self Hc. unfold __call__, points_setter.
    repeat case_match; simplify_eq; simpl; try reflexivity; exact Hc.
  - intros adct coords self Hc. unfold set_ptdata.
    destruct (set_ptdata_loop _ adct self) as [r s1] eqn:Hloop.
    pose proof (set_ptdata_loop_keeps_changed _ _ _ _ _ Hloop Hc) as Hs1.
    destruct r as [[]|[]]; exact Hs1.
Qed.

Lemma reset_keeps_is_changed_witness :
  exists cm cm1,
    __init__ [VInt 2] [] default_config = Ok cm
    /\ __setitem__ (KInt 0) (VSeq [VFloat Float64.one]) cm = (Ok (), cm1)
    /\ is_changed cm1 = true
    /\ is_changed (reset [] cm1).2 = true
    /\ is_changed (__setitem__ (KInt 5) (VSeq [VFloat Float64.one])
                     (reset [] cm1).2).2 = true.
Proof.
  destruct reset_keeps_is_changed as (Hreset & Hset & _).
  eexists _, _.
  split; [reflexivity|]. split; [reflexivity|].
  split; [reflexivity|].
  split; [rewrite Hreset; reflexivity|].
  apply Hset. rewrite Hreset. reflexivity.
Defined.

End ChangeFlag.

(** ** The manager: reset and the stored points *)

Section ResetFacts.

Lemma reset_frame kwargs self :
  points (reset kwargs self).2 = points self
  /\ points_data (reset kwargs self).2 = points_data self
  /\ size (reset kwargs self).2 = size self
  /\ count (reset kwargs self).2 = count self.
Proof.
  unfold reset. destruct (func_pts_init _ _ _); repeat split.
Qed.

(** C1: [reset] calls the init function of the backend and keeps [size]
    and [count], but it drops what the function returns: the stored points
    and the attached data are those of before the call.  On a manager of
    two points whose first point and first weight were set, the point and
    the weight are still there after [reset], although the init function
    returned empty point slots. *)
Theorem reset_drops_init_result :
  (forall kwargs self,
      points (reset kwargs self).2 = points self
      /\ points_data (reset kwargs self).2 = points_data self
      /\ size (reset kwargs self).2 = size self
      /\ count (reset kwargs self).2 = count self)
  /\ exists cm cm1 cm2 cm3,
      __init__ [VInt 2] [("weight"%string, 1)] default_config = Ok cm
      /\ __setitem__ (KInt 0) (VSeq [VFloat Float64.one]) cm = (Ok (), cm1)
      /\ set_ptdata [("weight"%string, VFloat Float64.one)] [0] cm1
         = (Ok (), cm2)
      /\ reset [] cm2 = (Ok (), cm3)
      /\ points cm3 = [[Float64.one]; []]
      /\ points_data cm3 !! "weight"%string
         = Some [VFloat Float64.one; VFloat Float64.zero]
      /\ func_pts_init (_cfg cm2) (count cm2) [] = Ok ([[]; []], ∅).
Proof.
  split; [exact reset_frame|].
  eexists _, _, _, _.
  repeat (split; [reflexivity|]). reflexivity.
Qed.

End ResetFacts.

(** ** The manager: construction *)

Section Construction.

Lemma mapM_result_fails {A B} (f : A -> result B) (l : list A) (a : A) :
  a ∈ l -> is_ok (f a) = false -> is_ok (mapM f l) = false.
Proof.
  induction 1 as [a l|a b l _ IH]; intros Hf; cbn.
  - destruct (f a); [discriminate|reflexivity].
  - destruct (f b); [|reflexivity]. cbn.
    specialize (IH Hf). destruct (mapM f l); [discriminate|reflexivity].
Qed.

(** The claim of C2 fails on sizes that are zero, negative or fractional:
    all three are accepted. *)
Lemma init_accepts_nonpositive_size :
  exists cm cm',
    __init__ [VInt 2; VInt 0; VInt (-3)] [] default_config = Ok cm
    /\ size cm = [2; 0; -3] /\ count cm = 0 /\ points cm = []
    /\ __init__ [VFloat (S754_finite false 5629499534213120 (-51))] []
         default_config = Ok cm'
    /\ size cm' = [2] /\ count cm' = 2.
Proof.
  eexists _, _. repeat (split; [reflexivity|]). reflexivity.
Qed.

Lemma mapM_py_int_Forall2 (args : list pyval) (zs : list Z) :
  mapM py_int args = Ok zs <-> Forall2 (fun a z => py_int a = Ok z) args zs.
Proof.
  revert zs. induction args as [|a args IH]; intros zs; cbn.
  - split.
    + intros [= <-]. constructor.
    + intros H. inversion H. reflexivity.
  - split.
    + destruct (py_int a) as [z|] eqn:Ha; [|discriminate]. cbn.
      destruct (mapM py_int args) as [zs'|]; [|discriminate]. cbn.
      intros [= <-]. constructor; [exact Ha | apply IH; reflexivity].
    + intros H. inversion H as [|a' z args' zs' Ha Hrest]; subst.
      rewrite Ha. cbn. apply IH in Hrest. rewrite Hrest. reflexivity.
Qed.

Lemma mapM_py_int_raises (args : list pyval) (e : exn) :
  mapM py_int args = Raise e -> exists a, a ∈ args /\ py_int a = Raise e.
Proof.
  induction args as [|a args IH]; cbn; [discriminate|].
  destruct (py_int a) as [z|e'] eqn:Ha; cbn.
  - destruct (mapM py_int args) as [zs|e'']; cbn; [discriminate|].
    intros [= <-]. destruct (IH eq_refl) as (b & Hb & Hr).
    exists b. split; [right; exact Hb | exact Hr].
  - intros [= <-]. exists a. split; [left | exact Ha].
Qed.

Lemma reduce_mul_nonempty (zs : list Z) :
  zs <> [] -> reduce_mul zs = Ok (prod_list zs).
Proof.
  destruct zs as [|z zs]; [congruence|]. intros _. cbn.
  rewrite foldl_mul_prod. unfold prod_list. reflexivity.
Qed.

(** C2, amended: the constructor converts every size argument with [int]
    and checks neither sign nor integrality.  [int] takes an integer of
    any sign as it is, truncates a finite float toward zero, and raises on
    [None], on a sequence, on an infinity and on NaN.  Whenever [int]
    converts every argument of a non-empty argument list and the init
    function returns, the constructor returns the manager of those sizes,
    their product as count and the store of the init function; the default
    init function always returns.  The constructor raises only when no
    size is given ([TypeError]), when [int] raises on a size, or when the
    init function raises, and it does raise in the first two cases. *)
Theorem init_converts_sizes_unchecked :
  (forall z, py_int (VInt z) = Ok z)
  /\ (forall s m e,
        exists q,
          py_int (VFloat (S754_finite s m e)) = Ok (cond_Zopp s q)
          /\ 0 <= q
          /\ (0 <= e -> q = Z.pos m * 2 ^ e)
          /\ (e < 0 -> q * 2 ^ (- e) <= Z.pos m < (q + 1) * 2 ^ (- e)))
  /\ (forall s, py_int (VFloat (S754_zero s)) = Ok 0)
  /\ (py_int VNone = Raise TypeError
      /\ (forall l, py_int (VSeq l) = Raise TypeError)
      /\ (forall s, py_int (VFloat (S754_infinity s)) = Raise OverflowError)
      /\ py_int (VFloat S754_nan) = Raise ValueError)
  /\ (forall args zs kwargs cfg store,
        args <> [] ->
        Forall2 (fun a z => py_int a = Ok z) args zs ->
        func_pts_init cfg (prod_list zs) kwargs = Ok store ->
        __init__ args kwargs cfg
        = Ok (mkCPManager GeomdlBase_init cfg zs (prod_list zs)
                store.1 store.2 false))
  /\ (forall args zs kwargs,
        args <> [] ->
        Forall2 (fun a z => py_int a = Ok z) args zs ->
        exists cm,
          __init__ args kwargs default_config = Ok cm
          /\ size cm = zs /\ count cm = prod_list zs
          /\ points cm = replicate (Z.to_nat (prod_list zs)) []
          /\ is_changed cm = false)
  /\ (forall args kwargs cfg e,
        __init__ args kwargs cfg = Raise e ->
        (args = [] /\ e = TypeError)
        \/ (exists a, a ∈ args /\ py_int a = Raise e)
        \/ (exists zs,
              Forall2 (fun a z => py_int a = Ok z) args zs
              /\ func_pts_init cfg (prod_list zs) kwargs = Raise e))
  /\ (forall kwargs cfg, __init__ [] kwargs cfg = Raise TypeError)
  /\ (forall args kwargs cfg a,
        a ∈ args -> is_ok (py_int a) = false ->
        is_ok (__init__ args kwargs cfg) = false).
Proof.
  split; [reflexivity|].
  split.
  { intros s m e. unfold py_int, Float64.int_of_float.
    eexists. split; [reflexivity|].
    destruct (0 <=? e) eqn:He.
    - apply Z.leb_le in He.
      assert (0 < 2 ^ e) by (apply Z.pow_pos_nonneg; lia).
      split; [nia|]. split; [reflexivity | lia].
    - apply Z.leb_gt in He.
      assert (Hp : 0 < 2 ^ (- e)) by (apply Z.pow_pos_nonneg; lia).
      split; [apply Z.div_pos; lia|]. split; [lia|]. intros _.
      pose proof (Z.div_mod (Z.pos m) (2 ^ (- e)) ltac:(lia)) as Hdm.
      pose proof (Z.mod_pos_bound (Z.pos m) (2 ^ (- e)) Hp) as Hb.
      nia. }
  split; [reflexivity|].
  split; [repeat split; reflexivity|].
  split.
  { intros args zs kwargs cfg store Hne Hall Hinit. unfold __init__.
    apply mapM_py_int_Forall2 in Hall as Hm. rewrite Hm. cbn.
    rewrite reduce_mul_nonempty
      by (intros ->; inversion Hall; subst; congruence).
    cbn. rewrite Hinit. reflexivity. }
  split.
  { intros args zs kwargs Hne Hall. unfold __init__.
    apply mapM_py_int_Forall2 in Hall as Hm. rewrite Hm. cbn.
    rewrite reduce_mul_nonempty
      by (intros ->; inversion Hall; subst; congruence).
    cbn. eexists. repeat split. }
  split.
  { intros args kwargs cfg e. unfold __init__.
    destruct (mapM py_int args) as [zs|e'] eqn:Hm; cbn.
    - destruct zs as [|z zs].
      + cbn. intros [= <-]. left. split; [|reflexivity].
        apply mapM_py_int_Forall2 in Hm. inversion Hm. reflexivity.
      + rewrite reduce_mul_nonempty by discriminate.
        change (Ok (prod_list (z :: zs)) ≫= ?k) with (k (prod_list (z :: zs))).
        cbv beta.
        destruct (func_pts_init cfg (prod_list (z :: zs)) kwargs)
          as [store|e''] eqn:Hi; [discriminate|].
        intros [= <-]. right. right. exists (z :: zs).
        split; [apply mapM_py_int_Forall2; exact Hm | exact Hi].
    - intros [= <-]. right. left. apply mapM_py_int_raises. exact Hm. }
  split; [reflexivity|].
  intros args kwargs cfg a Hin Hf. unfold __init__.
  pose proof (mapM_result_fails py_int args a Hin Hf) as Hm.
  destruct (mapM py_int args); [discriminate|reflexivity].
Qed.

Lemma init_converts_sizes_unchecked_witness :
  (exists cm,
      __init__ [VInt 2; VFloat (S754_finite false 5629499534213120 (-51));
                VInt (-3)] [] default_config = Ok cm
      /\ size cm = [2; 2; -3] /\ count cm = -12 /\ points cm = [])
  /\ is_ok (__init__ [VInt 2; VNone] [] default_config) = false.
Proof.
  destruct init_converts_sizes_unchecked
    as (_ & _ & _ & _ & _ & Hdef & _ & _ & Hbad).
  split.
  - destruct (Hdef [VInt 2; VFloat (S754_finite false 5629499534213120 (-51));
                    VInt (-3)] [2; 2; -3] [] ltac:(discriminate))
      as (cm & H & Hs & Hc & Hp & _).
    + repeat constructor.
    + exists cm. repeat split; assumption.
  - apply (Hbad _ _ _ VNone); [|reflexivity].
    apply list_elem_of_In. simpl. tauto.
Defined.

End Construction.

(** ** The manager: the spatial dimension *)

Section Dimension.

Lemma ctrlpts_set_loop_validates idx vs dim pts_out :
  has_wrong_length dim vs ->
  is_ok (ctrlpts_set_loop idx vs dim pts_out).1 = false.
Proof.
  unfold has_wrong_length. intros H. revert idx pts_out.
  induction H as [v vs (c & -> & Hc)|v vs _ IH]; intros idx pts_out.
  - cbn. replace (len c =? dim) with false
      by (symmetry; apply Z.eqb_neq; exact Hc).
    reflexivity.
  - cbn. destruct v as [| | |c]; try reflexivity.
    destruct (negb (len c =? dim)); [reflexivity|].
    destruct (default_ctrlpt_set pts_out idx c) as [[[]|e] pts'];
      [apply IH | reflexivity].
Qed.

Lemma default_ctrlpts_set_validates : pts_set_validates default_ctrlpts_set.
Proof.
  intros vs dim pts_out H. apply ctrlpts_set_loop_validates, H.
Qed.

Lemma setitem_infers key v self :
  dimension self < 1 ->
  dimension (__setitem__ key (VSeq v) self).2 = len v.
Proof.
  intros Hd. unfold __setitem__.
  replace (dimension self <? 1) with true
    by (symmetry; apply Z.ltb_lt; exact Hd).
  replace (len v =? dimension (set_dimension (len v) self)) with true
    by (symmetry; apply Z.eqb_eq; reflexivity).
  cbn [negb]. repeat case_match; reflexivity.
Qed.

Lemma setitem_rejects key v self :
  1 <= dimension self -> len v <> dimension self ->
  __setitem__ key (VSeq v) self = (Raise ValueError, self).
Proof.
  intros Hd Hne. unfold __setitem__.
  replace (dimension self <? 1) with false
    by (symmetry; apply Z.ltb_ge; exact Hd).
  replace (len v =? dimension self) with false
    by (symmetry; apply Z.eqb_neq; exact Hne).
  reflexivity.
Qed.

Lemma setitem_keeps_dimension key value self :
  1 <= dimension self ->
  dimension (__setitem__ key value self).2 = dimension self.
Proof.
  intros Hd. unfold __setitem__. destruct value; try reflexivity.
  replace (dimension self <? 1) with false
    by (symmetry; apply Z.ltb_ge; exact Hd).
  repeat case_match; reflexivity.
Qed.

Lemma points_setter_rejects vs self :
  pts_set_validates (func_pts_set (_cfg self)) ->
  1 <= dimension self ->
  has_wrong_length (dimension self) vs ->
  is_ok (points_setter (VSeq vs) self).1 = false.
Proof.
  intros Hval Hd Hbad. unfold points_setter.
  destruct (negb (len vs =? count self)); [reflexivity|].
  replace (dimension self <? 1) with false
    by (symmetry; apply Z.ltb_ge; exact Hd).
  specialize (Hval vs (dimension self) (_pts self) Hbad).
  destruct (func_pts_set _ _ _ _) as [[[]|e] pts]; [discriminate|reflexivity].
Qed.

Lemma points_setter_keeps_dimension value self :
  1 <= dimension self ->
  dimension (points_setter value self).2 = dimension self.
Proof.
  intros Hd. unfold points_setter. destruct value; try reflexivity.
  replace (dimension self <? 1) with false
    by (symmetry; apply Z.ltb_ge; exact Hd).
  repeat case_match; reflexivity.
Qed.

Lemma init_dimension args kwargs cfg cm :
  __init__ args kwargs cfg = Ok cm -> dimension cm = 0.
Proof.
  unfold __init__. intros H.
  destruct (mapM py_int args) as [sz|]; [|discriminate]. cbn in H.
  destruct (reduce_mul sz) as [c|]; [|discriminate]. cbn in H.
  destruct (func_pts_init cfg c kwargs) as [store|]; [|discriminate].
  cbn in H. injection H as <-. reflexivity.
Qed.

(** The bulk assignment infers the dimension before it calls the bulk-set
    function, whatever that function then does. *)
Lemma points_setter_infers_first c rest self :
  dimension self < 1 -> len (VSeq c :: rest) = count self ->
  dimension (points_setter (VSeq (VSeq c :: rest)) self).2 = len c.
Proof.
  intros Hd Hlen. unfold points_setter.
  replace (len (VSeq c :: rest) =? count self) with true
    by (symmetry; apply Z.eqb_eq; exact Hlen).
  replace (dimension self <? 1) with true
    by (symmetry; apply Z.ltb_lt; exact Hd).
  cbn [negb].
  destruct (func_pts_set _ _ _ _) as [[[]|e] pts]; reflexivity.
Qed.

Lemma points_setter_wrong_count vs self :
  len vs <> count self ->
  points_setter (VSeq vs) self = (Raise GeomdlError, self).
Proof.
  intros Hne. unfold points_setter.
  replace (len vs =? count self) with false
    by (symmetry; apply Z.eqb_neq; exact Hne).
  reflexivity.
Qed.

Lemma set_pt_rejects v coords self :
  1 <= dimension self -> len v <> dimension self ->
  set_pt (VSeq v) coords self = (Raise ValueError, self).
Proof.
  intros Hd Hne. unfold set_pt. rewrite setitem_rejects by assumption.
  reflexivity.
Qed.

Lemma set_pt_keeps_dimension p coords self :
  1 <= dimension self -> dimension (set_pt p coords self).2 = dimension self.
Proof.
  intros Hd. unfold set_pt.
  pose proof (setitem_keeps_dimension (KTuple coords) p self Hd) as H.
  destruct (__setitem__ (KTuple coords) p self) as [[[]|e] self']; exact H.
Qed.

Lemma call_keeps_dimension value self :
  1 <= dimension self -> dimension (__call__ value self).2 = dimension self.
Proof.
  intros Hd. unfold __call__.
  pose proof (points_setter_keeps_dimension value self Hd) as H.
  destruct (points_setter value self) as [[[]|e] self']; exact H.
Qed.

Lemma set_ptdata_loop_base idx adct self r self' :
  set_ptdata_loop idx adct self = (r, self') -> base self' = base self.
Proof.
  revert self. induction adct as [|[k val] adct IH]; intros self H.
  - simpl in H. simplify_eq. reflexivity.
  - simpl in H. repeat case_match; simplify_eq; try reflexivity;
      (erewrite IH; [|eassumption]; reflexivity).
Qed.

Lemma set_ptdata_keeps_dimension adct coords self :
  dimension (set_ptdata adct coords self).2 = dimension self.
Proof.
  unfold set_ptdata, dimension.
  destruct (set_ptdata_loop _ adct self) as [r self'] eqn:Hloop.
  apply set_ptdata_loop_base in Hloop.
  destruct r as [[]|[]]; cbn; rewrite Hloop; reflexivity.
Qed.

Lemma reset_keeps_dimension kw self :
  dimension (reset kw self).2 = dimension self.
Proof. unfold reset. destruct (func_pts_init _ _ _); reflexivity. Qed.

(** The claim of C6 fails when the first assigned point is empty: the
    dimension stays 0 and the next assignment, of a point of another
    length, is accepted and sets it. *)
Lemma dimension_reinferred_after_empty_point :
  exists cm cm1 cm2,
    __init__ [VInt 2] [] default_config = Ok cm
    /\ __setitem__ (KInt 0) (VSeq []) cm = (Ok (), cm1)
    /\ dimension cm1 = 0
    /\ __setitem__ (KInt 1) (VSeq [VInt 1; VInt 2]) cm1 = (Ok (), cm2)
    /\ dimension cm2 = 2
    /\ length <$> points cm2 = [0%nat; 2%nat].
Proof.
  eexists _, _, _. repeat (split; [reflexivity|]). reflexivity.
Qed.

(** C6, amended: the dimension is 0 after construction.  While it is
    below 1, a single assignment sets it to the length of the assigned
    point, before it looks at the key and so also when it then raises, and
    a bulk assignment of [count] points sets it to the length of the first
    point, before it calls the bulk-set function and so also when that
    function raises; a bulk assignment of another number of points raises
    [GeomdlError] and changes nothing.  Once the dimension is at least 1,
    a single assignment of a point of another length, by subscript or by
    [set_pt], raises [ValueError] and changes nothing, a bulk assignment
    holding a point of another length raises when the bulk-set function
    validates points as its contract says (the default one does), and no
    method changes the dimension.  An empty first point leaves the
    dimension at 0, and the next assignment sets it anew. *)
Theorem dimension_fixed_once_inferred :
  (forall args kwargs cfg cm,
      __init__ args kwargs cfg = Ok cm -> dimension cm = 0)
  /\ (forall key v self,
        dimension self < 1 ->
        dimension (__setitem__ key (VSeq v) self).2 = len v)
  /\ (forall c rest self,
        dimension self < 1 -> len (VSeq c :: rest) = count self ->
        dimension (points_setter (VSeq (VSeq c :: rest)) self).2 = len c)
  /\ (forall vs self,
        len vs <> count self ->
        points_setter (VSeq vs) self = (Raise GeomdlError, self))
  /\ (forall key v self,
        1 <= dimension self -> len v <> dimension self ->
        __setitem__ key (VSeq v) self = (Raise ValueError, self))
  /\ (forall v coords self,
        1 <= dimension self -> len v <> dimension self ->
        set_pt (VSeq v) coords self = (Raise ValueError, self))
  /\ (forall vs self,
        pts_set_validates (func_pts_set (_cfg self)) ->
        1 <= dimension self ->
        has_wrong_length (dimension self) vs ->
        is_ok (points_setter (VSeq vs) self).1 = false)
  /\ pts_set_validates default_ctrlpts_set
  /\ (forall self,
        1 <= dimension self ->
        (forall key value,
            dimension (__setitem__ key value self).2 = dimension self)
        /\ (forall p coords,
              dimension (set_pt p coords self).2 = dimension self)
        /\ (forall value,
              dimension (points_setter value self).2 = dimension self)
        /\ (forall value,
              dimension (__call__ value self).2 = dimension self)
        /\ (forall adct coords,
              dimension (set_ptdata adct coords self).2 = dimension self)
        /\ (forall kw, dimension (reset kw self).2 = dimension self)
        /\ dimension (reset_changed self) = dimension self).
Proof.
  split; [exact init_dimension|].
  split; [exact setitem_infers|].
  split; [exact points_setter_infers_first|].
  split; [exact points_setter_wrong_count|].
  split; [exact setitem_rejects|].
  split; [exact set_pt_rejects|].
  split; [exact points_setter_rejects|].
  split; [exact default_ctrlpts_set_validates|].
  intros self Hd.
  split; [intros; apply setitem_keeps_dimension; exact Hd|].
  split; [intros; apply set_pt_keeps_dimension; exact Hd|].
  split; [intros; apply points_setter_keeps_dimension; exact Hd|].
  split; [intros; apply call_keeps_dimension; exact Hd|].
  split; [intros; apply set_ptdata_keeps_dimension|].
  split; [intros; apply reset_keeps_dimension | reflexivity].
Qed.

Lemma dimension_fixed_once_inferred_witness :
  exists cm cm1,
    __init__ [VInt 2] [] default_config = Ok cm
    /\ dimension cm = 0
    /\ points_setter (VSeq [VSeq [VInt 1; VInt 2; VInt 3];
                            VSeq [VInt 4; VInt 5; VInt 6]]) cm = (Ok (), cm1)
    /\ dimension cm1 = 3
    /\ is_ok (points_setter (VSeq [VSeq [VInt 1; VInt 2; VInt 3];
                                   VSeq [VInt 4]]) cm).1 = false
    /\ dimension (points_setter (VSeq [VSeq [VInt 1; VInt 2; VInt 3];
                                       VSeq [VInt 4]]) cm).2 = 3
    /\ __setitem__ (KInt 1) (VSeq [VInt 1; VInt 2]) cm1
       = (Raise ValueError, cm1)
    /\ is_ok (points_setter
                (VSeq [VSeq [VInt 1; VInt 2; VInt 3]; VSeq [VInt 4]]) cm1).1
       = false
    /\ dimension (reset [] cm1).2 = 3.
Proof.
  destruct dimension_fixed_once_inferred
    as (Hinit & _ & Hbulk & _ & Hrej & _ & Hbrej & Hdef & Hkeep).
  eexists _, _.
  split; [reflexivity|].
  split; [apply (Hinit [VInt 2] [] default_config); reflexivity|].
  split; [reflexivity|].
  split; [reflexivity|].
  split; [reflexivity|].
  split; [apply Hbulk; reflexivity|].
  split; [apply Hrej; vm_compute; discriminate|].
  split.
  - apply Hbrej; [exact Hdef | vm_compute; discriminate |].
    apply Exists_cons_tl, Exists_cons_hd.
    exists [VInt 4]. split; [reflexivity | vm_compute; discriminate].
  - match goal with
    | |- dimension (reset [] ?c).2 = 3 =>
        destruct (Hkeep c ltac:(vm_compute; discriminate))
          as (_ & _ & _ & _ & _ & Hreset & _);
          rewrite Hreset; reflexivity
    end.
Defined.

End Dimension.

(** ** The manager: attached data *)

Section AttachedData.

Implicit Types d : gmap string (list pyval).

(** The keys of the dictionary [default_ctrlpts_init] builds. *)
Lemma init_data_keys (n : Z) (kwargs : list (string * Z)) d (k : string) :
  is_Some (foldl (fun d kv => <[kv.1 := init_data_array n kv.2]> d) d kwargs
             !! k)
  <-> is_Some (d !! k) \/ k ∈ kwargs.*1.
Proof.
  revert d. induction kwargs as [|[k' v] kwargs IH]; intros d; cbn.
  - rewrite elem_of_nil. tauto.
  - rewrite IH, elem_of_cons, lookup_insert_is_Some.
    destruct (decide (k' = k)) as [->|Hne]; [tauto|].
    split; [intros [[?|[_ ?]]|?] | intros [?|[?|?]]]; try tauto; congruence.
Qed.

Lemma ptsd_set_component_keys k idx j v d d' (k0 : string) :
  ptsd_set_component k idx j v d = Ok d' ->
  is_Some (d' !! k0) <-> is_Some (d !! k0).
Proof.
  unfold ptsd_set_component, dict_getitem. intros H.
  destruct (d !! k) as [arr|] eqn:Hk; [|discriminate]. cbn in H.
  destruct (getitem arr idx) as [elt|]; [|discriminate]. cbn in H.
  destruct elt as [| | |l]; try discriminate.
  destruct (setitem l j v) as [l'|]; [|discriminate]. cbn in H.
  destruct (setitem arr idx (VSeq l')) as [arr'|]; [|discriminate].
  cbn in H. simplify_eq. rewrite lookup_insert_is_Some.
  destruct (decide (k = k0)) as [->|Hne]; [|tauto].
  rewrite Hk. split; [eauto | tauto].
Qed.

Lemma ptsd_set_entry_keys k idx val d d' (k0 : string) :
  ptsd_set_entry k idx val d = Ok d' ->
  is_Some (d' !! k0) <-> is_Some (d !! k0).
Proof.
  unfold ptsd_set_entry, dict_getitem. intros H.
  destruct (d !! k) as [arr|] eqn:Hk; [|discriminate]. cbn in H.
  destruct (setitem arr idx val) as [arr'|]; [|discriminate].
  cbn in H. simplify_eq. rewrite lookup_insert_is_Some.
  destruct (decide (k = k0)) as [->|Hne]; [|tauto].
  rewrite Hk. split; [eauto | tauto].
Qed.

Lemma set_components_keys k idx j val d r d' (k0 : string) :
  set_components k idx j val d = (r, d') ->
  is_Some (d' !! k0) <-> is_Some (d !! k0).
Proof.
  revert j d. induction val as [|v val IH]; intros j d H; cbn in H.
  - simplify_eq. tauto.
  - destruct (ptsd_set_component k idx j v d) as [d1|] eqn:Hc.
    + rewrite (IH _ _ H). eapply ptsd_set_component_keys, Hc.
    + simplify_eq. tauto.
Qed.

Lemma set_ptdata_loop_keys idx adct self r self' (k0 : string) :
  set_ptdata_loop idx adct self = (r, self') ->
  is_Some (_ptsd self' !! k0) <-> is_Some (_ptsd self !! k0).
Proof.
  revert self. induction adct as [|[k val] adct IH]; intros self H; cbn in H.
  - simplify_eq. tauto.
  - destruct (bool_decide (is_Some (_ptsd self !! k))); [|simplify_eq; tauto].
    assert (Hw : forall w dw,
               match val with
               | VSeq l => set_components k idx 0 l (_ptsd self)
               | _ => match ptsd_set_entry k idx val (_ptsd self) with
                      | Ok d => (Ok (), d)
                      | Raise e => (Raise e, _ptsd self)
                      end
               end = (w, dw) ->
               is_Some (dw !! k0) <-> is_Some (_ptsd self !! k0)).
    { intros w dw Hw. destruct val as [| | |l];
        try (destruct (ptsd_set_entry _ _ _ _) as [d1|] eqn:He;
             simplify_eq; [eapply ptsd_set_entry_keys, He | tauto]).
      eapply set_components_keys, Hw. }
    destruct (match val with VSeq _ => _ | _ => _ end) as [w dw] eqn:Hwr.
    specialize (Hw _ _ eq_refl).
    destruct w as [[]|e].
    + rewrite (IH _ H). exact Hw.
    + simplify_eq. exact Hw.
Qed.

Lemma set_ptdata_keys adct coords self (k0 : string) :
  is_Some (_ptsd (set_ptdata adct coords self).2 !! k0)
  <-> is_Some (_ptsd self !! k0).
Proof.
  unfold set_ptdata.
  destruct (set_ptdata_loop _ adct self) as [r s1] eqn:Hloop.
  pose proof (set_ptdata_loop_keys _ _ _ _ _ k0 Hloop) as Hk.
  destruct r as [[]|[]]; exact Hk.
Qed.

Lemma setitem_ptsd key value self :
  _ptsd (__setitem__ key value self).2 = _ptsd self.
Proof. unfold __setitem__. repeat case_match; reflexivity. Qed.

Lemma points_setter_ptsd value self :
  _ptsd (points_setter value self).2 = _ptsd self.
Proof. unfold points_setter. repeat case_match; simplify_eq; reflexivity. Qed.

(** The keys of the data dictionary are those declared at construction,
    in every state the manager reaches. *)
Lemma reachable_data_keys args kwargs cfg self (k : string) :
  func_pts_init cfg = default_ctrlpts_init ->
  reachable args kwargs cfg self ->
  is_Some (_ptsd self !! k) <-> k ∈ kwargs.*1.
Proof.
  intros Hcfg. induction 1 as
    [self Hinit|key value self _ IH|p coords self _ IH|value self _ IH
    |value self _ IH|adct coords self _ IH|kw self _ IH|self _ IH].
  - unfold __init__ in Hinit. rewrite Hcfg in Hinit.
    destruct (mapM py_int args) as [sz|]; [|discriminate]. cbn in Hinit.
    destruct (reduce_mul sz) as [c|]; [|discriminate]. cbn in Hinit.
    simplify_eq. cbn. rewrite init_data_keys, lookup_empty.
    split; [intros [[? ?]|?]; [discriminate | assumption] | tauto].
  - rewrite setitem_ptsd. exact IH.
  - unfold set_pt.
    pose proof (setitem_ptsd (KTuple coords) p self) as Hs.
    destruct (__setitem__ _ _ _) as [[[]|e] s1]; cbn in *; rewrite Hs; exact IH.
  - rewrite points_setter_ptsd. exact IH.
  - unfold __call__.
    pose proof (points_setter_ptsd value self) as Hs.
    destruct (points_setter _ _) as [[[]|e] s1]; cbn in *; rewrite Hs; exact IH.
  - rewrite set_ptdata_keys. exact IH.
  - unfold reset. destruct (func_pts_init _ _ _); exact IH.
  - exact IH.
Qed.

Lemma getitem_raises {A} (l : list A) (i : Z) (e : exn) :
  getitem l i = Raise e -> e = IndexError.
Proof.
  unfold getitem. intros H. repeat case_match; simplify_eq; reflexivity.
Qed.

Lemma getitem_out_of_range {A} (l : list A) (i : Z) :
  i < - len l \/ len l <= i -> getitem l i = Raise IndexError.
Proof.
  intros Hi. unfold getitem, norm_index.
  destruct (i <? 0) eqn:Hneg.
  - apply Z.ltb_lt in Hneg.
    replace (0 <=? i + len l) with false
      by (symmetry; apply Z.leb_gt; lia).
    reflexivity.
  - apply Z.ltb_ge in Hneg.
    replace (i <? len l) with false by (symmetry; apply Z.ltb_ge; lia).
    rewrite andb_false_r. reflexivity.
Qed.

Lemma getitem_in_range {A} (l : list A) (i : Z) :
  0 <= i < len l ->
  exists x, getitem l i = Ok x /\ l !! Z.to_nat i = Some x.
Proof.
  intros Hi. unfold getitem, norm_index.
  replace (i <? 0) with false by (symmetry; apply Z.ltb_ge; lia).
  replace (0 <=? i) with true by (symmetry; apply Z.leb_le; lia).
  replace (i <? len l) with true by (symmetry; apply Z.ltb_lt; lia).
  cbn. destruct (l !! Z.to_nat i) as [x|] eqn:Hx.
  - exists x. split; reflexivity.
  - apply lookup_ge_None in Hx. unfold len in *. lia.
Qed.

Lemma getitem_from_end {A} (l : list A) (i : Z) :
  - len l <= i < 0 ->
  exists x, getitem l i = Ok x /\ l !! Z.to_nat (i + len l) = Some x.
Proof.
  intros Hi. unfold getitem, norm_index.
  replace (i <? 0) with true by (symmetry; apply Z.ltb_lt; lia).
  replace (0 <=? i + len l) with true by (symmetry; apply Z.leb_le; lia).
  replace (i + len l <? len l) with true by (symmetry; apply Z.ltb_lt; lia).
  cbn. destruct (l !! Z.to_nat (i + len l)) as [x|] eqn:Hx.
  - exists x. split; reflexivity.
  - apply lookup_ge_None in Hx. unfold len in *. lia.
Qed.

(** C8: in every state of a manager built with the default init function,
    [ptdata] returns and never raises; for a key that was not declared at
    construction it returns [None]; for a declared key it reads the array
    of that key at the index the mapper gives, and returns [None] when the
    index is out of the array's range (below [-len] or from [len] on), the
    stored datum when the index is in [0, len), and the datum counted
    from the end when the index is in [-len, 0). *)
Theorem ptdata_absent_or_stored args kwargs cfg self dkey coords :
  func_pts_init cfg = default_ctrlpts_init ->
  reachable args kwargs cfg self ->
  let idx := func_find_index (_cfg self) (size self) coords in
  (exists v, ptdata dkey coords self = Ok v)
  /\ (dkey ∉ kwargs.*1 -> ptdata dkey coords self = Ok VNone)
  /\ (dkey ∈ kwargs.*1 ->
      exists arr,
        points_data self !! dkey = Some arr
        /\ (idx < - len arr \/ len arr <= idx ->
            ptdata dkey coords self = Ok VNone)
        /\ (0 <= idx < len arr ->
            exists v, arr !! Z.to_nat idx = Some v
                      /\ ptdata dkey coords self = Ok v)
        /\ (- len arr <= idx < 0 ->
            exists v, arr !! Z.to_nat (idx + len arr) = Some v
                      /\ ptdata dkey coords self = Ok v)).
Proof.
  intros Hcfg Hreach idx.
  pose proof (reachable_data_keys _ _ _ _ dkey Hcfg Hreach) as Hkeys.
  unfold ptdata, dict_getitem, points_data. fold idx.
  destruct (_ptsd self !! dkey) as [arr|] eqn:Hk; cbn.
  - split; [|split].
    + destruct (getitem arr idx) as [v|e] eqn:Hg; [eauto|].
      rewrite (getitem_raises _ _ _ Hg). eauto.
    + intros Hnot. exfalso. apply Hnot, Hkeys. eauto.
    + intros _. exists arr. split; [reflexivity|].
      split; [|split].
      * intros Hout. rewrite (getitem_out_of_range arr idx Hout). reflexivity.
      * intros Hin. destruct (getitem_in_range arr idx Hin) as (v & Hg & Hv).
        exists v. rewrite Hg. split; [exact Hv | reflexivity].
      * intros Hin. destruct (getitem_from_end arr idx Hin) as (v & Hg & Hv).
        exists v. rewrite Hg. split; [exact Hv | reflexivity].
  - split; [eauto|]. split; [reflexivity|].
    intros Hin. apply Hkeys in Hin. destruct Hin as [? ?]. discriminate.
Qed.

Lemma ptdata_absent_or_stored_witness :
  exists cm,
    __init__ [VInt 2; VInt 2] [("weight"%string, 1)] default_config = Ok cm
    /\ ptdata "normal" [1; 1] cm = Ok VNone
    /\ ptdata "weight" [1; 2] cm = Ok VNone
    /\ ptdata "weight" [1; 1] cm = Ok (VFloat Float64.zero).
Proof.
  eexists. split; [reflexivity|].
  match goal with
  | |- ptdata _ _ ?cm = _ /\ _ =>
      assert (Hr : reachable [VInt 2; VInt 2] [("weight"%string, 1)]
                     default_config cm)
        by (apply reach_init; reflexivity);
      pose proof (ptdata_absent_or_stored
                    [VInt 2; VInt 2] [("weight"%string, 1)] default_config
                    cm "normal" [1; 1] eq_refl Hr) as (_ & Habsent & _);
      pose proof (ptdata_absent_or_stored
                    [VInt 2; VInt 2] [("weight"%string, 1)] default_config
                    cm "weight" [1; 2] eq_refl Hr) as (_ & _ & Hdecl)
  end.
  split; [|split].
  - apply Habsent. cbn. rewrite list_elem_of_In. simpl.
    intros [H|[]]. discriminate H.
  - destruct Hdecl as (arr & Harr & Hout & _).
    + cbn. rewrite list_elem_of_In. simpl. tauto.
    + apply Hout. vm_compute in Harr. simplify_eq. vm_compute. right.
      discriminate.
  - reflexivity.
Defined.

End AttachedData.

(** ** utilities.py: the zig-zag *)

Section Zigzag.

Lemma div_mod_succ (w i : Z) :
  0 < w -> 0 <= i ->
  ((i + 1) mod w = 0 /\ (i + 1) / w = i / w + 1 /\ i mod w = w - 1)
  \/ ((i + 1) mod w <> 0 /\ (i + 1) / w = i / w
      /\ (i + 1) mod w = i mod w + 1).
Proof.
  intros Hw Hi.
  pose proof (Z.div_mod i w ltac:(lia)) as Hdm.
  pose proof (Z.mod_pos_bound i w Hw) as Hb.
  destruct (decide (i mod w + 1 = w)) as [Heq|Hne].
  - left.
    assert (Hq : (i + 1) / w = i / w + 1)
      by (symmetry; apply (Z.div_unique _ _ _ 0); lia).
    assert (Hr : (i + 1) mod w = 0)
      by (symmetry; apply (Z.mod_unique _ _ (i / w + 1)); lia).
    lia.
  - right.
    assert (Hq : (i + 1) / w = i / w)
      by (symmetry; apply (Z.div_unique _ _ _ (i mod w + 1)); lia).
    assert (Hr : (i + 1) mod w = i mod w + 1)
      by (symmetry; apply (Z.mod_unique _ _ (i / w)); lia).
    lia.
Qed.

(** The source position stays in the row of the target position. *)
Lemma zigzag_index_range (w rows i : Z) :
  0 < w -> 0 <= i < rows * w -> 0 <= zigzag_index w i < rows * w.
Proof.
  intros Hw Hi. unfold zigzag_index.
  destruct (Z.even (i / w)); [lia|].
  pose proof (Z.div_mod i w ltac:(lia)) as Hdm.
  pose proof (Z.mod_pos_bound i w Hw) as Hb.
  assert (Hq : 0 <= i / w) by (apply Z.div_pos; lia).
  assert (Hqr : i / w < rows) by (apply Z.div_lt_upper_bound; lia).
  nia.
Qed.

End Zigzag.

(** ** utilities.py: the quadtree-like structure *)

Section QuadtreeFacts.

Context {P V : Type}.
Variable vector_generate : P -> P -> result V.
Variable point_translate : P -> V -> result P.

(** C3: [make_quadtree] builds [points2d] with one row per [v] and then
    reads it as [points2d[u][v]].  On a grid of one column and two rows,
    and on grids of 2 x 3 and 3 x 2 points, the call raises [IndexError]
    instead of giving a tuple per cell; on a 2 x 2 grid without
    extrapolation every tuple holds a point and two of its neighbours. *)
Theorem make_quadtree_transposed_read :
  (forall p0 p1 : P,
      make_quadtree vector_generate point_translate [p0; p1] 1 2 false
      = Raise IndexError)
  /\ (forall p0 p1 p2 p3 p4 p5 : P,
        make_quadtree vector_generate point_translate
          [p0; p1; p2; p3; p4; p5] 2 3 false = Raise IndexError
        /\ make_quadtree vector_generate point_translate
             [p0; p1; p2; p3; p4; p5] 3 2 false = Raise IndexError)
  /\ (forall p0 p1 p2 p3 : P,
        quadtree_points2d [p0; p1; p2; p3] 2 2 = Ok [[p0; p1]; [p2; p3]]
        /\ make_quadtree vector_generate point_translate
             [p0; p1; p2; p3] 2 2 false
           = Ok [[p0; p2; p1]; [p2; p3; p0]; [p1; p3; p0]; [p3; p1; p2]]).
Proof.
  split; [|split]; intros; repeat split; reflexivity.
Qed.

End QuadtreeFacts.

(** ** Binary64 arithmetic: magnitudes and exact conversions *)

Section FloatFacts.

Lemma digits2_pos_bounds (p : positive) :
  2 ^ (Z.pos (digits2_pos p) - 1) <= Z.pos p < 2 ^ Z.pos (digits2_pos p).
Proof.
  induction p as [p IH|p IH|]; cbn [digits2_pos].
  - rewrite Pos2Z.inj_succ, (Pos2Z.inj_xI p).
    replace (Z.succ (Z.pos (digits2_pos p)) - 1)
      with (Z.succ (Z.pos (digits2_pos p) - 1)) by lia.
    rewrite !Z.pow_succ_r by lia. lia.
  - rewrite Pos2Z.inj_succ, (Pos2Z.inj_xO p).
    replace (Z.succ (Z.pos (digits2_pos p)) - 1)
      with (Z.succ (Z.pos (digits2_pos p) - 1)) by lia.
    rewrite !Z.pow_succ_r by lia. lia.
  - cbn. lia.
Qed.

Lemma Zdigits2_bounds (m : Z) :
  0 < m -> 1 <= Zdigits2 m /\ 2 ^ (Zdigits2 m - 1) <= m < 2 ^ Zdigits2 m.
Proof.
  destruct m as [|p|p]; [lia| |lia]. intros _. cbn [Zdigits2].
  split; [lia | apply digits2_pos_bounds].
Qed.

Lemma Zdigits2_unique (m d : Z) :
  0 < m -> 2 ^ (d - 1) <= m < 2 ^ d -> Zdigits2 m = d.
Proof.
  intros Hm Hd. destruct (Zdigits2_bounds m Hm) as [H1 Hb].
  assert (Hd0 : 0 <= d).
  { destruct (Z.lt_ge_cases d 0) as [Hneg|]; [|assumption].
    rewrite (Z.pow_neg_r 2 d) in Hd by assumption. lia. }
  destruct (Z.lt_trichotomy (Zdigits2 m) d) as [Hlt|[Heq|Hgt]]; [|exact Heq|].
  - assert (2 ^ Zdigits2 m <= 2 ^ (d - 1)) by (apply Z.pow_le_mono_r; lia). lia.
  - assert (2 ^ d <= 2 ^ (Zdigits2 m - 1)) by (apply Z.pow_le_mono_r; lia). lia.
Qed.

Lemma Zdigits2_mono (m m' : Z) :
  0 < m -> m <= m' -> Zdigits2 m <= Zdigits2 m'.
Proof.
  intros Hm Hle.
  destruct (Zdigits2_bounds m Hm) as [H1 Hb].
  destruct (Zdigits2_bounds m' ltac:(lia)) as [H1' Hb'].
  destruct (Z.le_gt_cases (Zdigits2 m) (Zdigits2 m')) as [|Hgt]; [assumption|].
  assert (2 ^ Zdigits2 m' <= 2 ^ (Zdigits2 m - 1)) by (apply Z.pow_le_mono_r; lia).
  lia.
Qed.

Lemma shr_1_m (mrs : shr_record) :
  0 <= shr_m mrs -> shr_m (shr_1 mrs) = shr_m mrs / 2.
Proof.
  destruct mrs as [m r s]. cbn [shr_m]. intros Hm.
  rewrite <- Z.div2_div.
  destruct m as [|[p|p|]|p]; cbn [shr_1 shr_m]; try reflexivity; lia.
Qed.

Lemma iter_pos_shr_1 (p : positive) (mrs : shr_record) :
  0 <= shr_m mrs ->
  shr_m (SpecFloat.iter_pos shr_1 p mrs) = shr_m mrs / 2 ^ Z.pos p.
Proof.
  revert mrs. induction p as [p IH|p IH|]; intros mrs Hm; cbn [SpecFloat.iter_pos].
  - assert (H1 : 0 <= shr_m (shr_1 mrs))
      by (rewrite shr_1_m by assumption; apply Z.div_pos; lia).
    assert (H2 : 0 <= shr_m (SpecFloat.iter_pos shr_1 p (shr_1 mrs)))
      by (rewrite IH by assumption; apply Z.div_pos; [|apply Z.pow_pos_nonneg]; lia).
    rewrite IH, IH, shr_1_m by assumption.
    rewrite !Z.div_div by (try apply Z.pow_pos_nonneg; lia).
    f_equal. rewrite (Pos2Z.inj_xI p).
    replace (2 * Z.pos p + 1) with (1 + Z.pos p + Z.pos p) by lia.
    rewrite !Z.pow_add_r by lia. lia.
  - assert (H2 : 0 <= shr_m (SpecFloat.iter_pos shr_1 p mrs))
      by (rewrite IH by assumption; apply Z.div_pos; [|apply Z.pow_pos_nonneg]; lia).
    rewrite IH, IH by assumption.
    rewrite !Z.div_div by (try apply Z.pow_pos_nonneg; lia).
    f_equal. rewrite (Pos2Z.inj_xO p).
    replace (2 * Z.pos p) with (Z.pos p + Z.pos p) by lia.
    rewrite !Z.pow_add_r by lia. lia.
  - rewrite shr_1_m by assumption. reflexivity.
Qed.

Lemma shr_record_of_loc_m (m : Z) (l : location) :
  shr_m (shr_record_of_loc m l) = m.
Proof. destruct l as [|[]]; reflexivity. Qed.

Lemma loc_of_shr_record_of_loc (m : Z) (l : location) :
  loc_of_shr_record (shr_record_of_loc m l) = l.
Proof. destruct l as [|[]]; reflexivity. Qed.

(** A right shift to the exponent of the format keeps the mantissa
    positive and the magnitude [digits + exponent] as long as the number
    is not below the smallest subnormal. *)
Lemma shr_fexp_magnitude (m e : Z) (l : location) mrs' e' :
  0 < m -> emin Float64.prec Float64.emax < Zdigits2 m + e ->
  shr_fexp Float64.prec Float64.emax m e l = (mrs', e') ->
  0 < shr_m mrs' /\ Zdigits2 (shr_m mrs') + e' = Zdigits2 m + e.
Proof.
  intros Hm Hmag. unfold shr_fexp, shr.
  destruct (Zdigits2_bounds m Hm) as [Hd1 Hb].
  destruct (fexp Float64.prec Float64.emax (Zdigits2 m + e) - e) as [|k|k] eqn:Hk;
    intros [= <- <-]; rewrite ?shr_record_of_loc_m; try (split; [lia|reflexivity]).
  rewrite iter_pos_shr_1 by (rewrite shr_record_of_loc_m; lia).
  rewrite shr_record_of_loc_m.
  assert (Hkd : Z.pos k <= Zdigits2 m - 1)
    by (unfold fexp, emin, Float64.prec, Float64.emax in *; lia).
  assert (Hp : 0 < 2 ^ Z.pos k) by (apply Z.pow_pos_nonneg; lia).
  assert (Hsplit : 2 ^ (Zdigits2 m - 1) = 2 ^ Z.pos k * 2 ^ (Zdigits2 m - 1 - Z.pos k))
    by (rewrite <- Z.pow_add_r by lia; f_equal; lia).
  assert (Hsplit' : 2 ^ Zdigits2 m = 2 ^ Z.pos k * 2 ^ (Zdigits2 m - Z.pos k))
    by (rewrite <- Z.pow_add_r by lia; f_equal; lia).
  assert (Hlow : 2 ^ (Zdigits2 m - 1 - Z.pos k) <= m / 2 ^ Z.pos k)
    by (apply Z.div_le_lower_bound; lia).
  assert (Hup : m / 2 ^ Z.pos k < 2 ^ (Zdigits2 m - Z.pos k))
    by (apply Z.div_lt_upper_bound; lia).
  assert (H1 : 0 < 2 ^ (Zdigits2 m - 1 - Z.pos k))
    by (apply Z.pow_pos_nonneg; lia).
  split; [lia|].
  rewrite (Zdigits2_unique (m / 2 ^ Z.pos k) (Zdigits2 m - Z.pos k)); [lia|lia|].
  replace (Zdigits2 m - Z.pos k - 1) with (Zdigits2 m - 1 - Z.pos k) by lia.
  lia.
Qed.

Lemma round_nearest_even_bounds (m : Z) (l : location) :
  m <= round_nearest_even m l <= m + 1.
Proof.
  destruct l as [|[]]; cbn; try lia. destruct (Z.even m); lia.
Qed.

(** Rounding a positive number that is not below the smallest subnormal
    gives a finite float or an infinity of the same sign, and does not
    lower the magnitude. *)
Lemma binary_round_aux_magnitude (s : bool) (m e : Z) (l : location) :
  0 < m -> emin Float64.prec Float64.emax < Zdigits2 m + e ->
  match binary_round_aux Float64.prec Float64.emax s m e l with
  | S754_finite s' m' e' =>
      s' = s /\ Zdigits2 m + e <= Z.pos (digits2_pos m') + e'
  | S754_infinity s' => s' = s
  | _ => False
  end.
Proof.
  intros Hm Hmag. unfold binary_round_aux.
  destruct (shr_fexp Float64.prec Float64.emax m e l) as [mrs' e'] eqn:H1.
  destruct (shr_fexp_magnitude m e l mrs' e' Hm Hmag H1) as [Hm' Hd'].
  pose proof (round_nearest_even_bounds (shr_m mrs') (loc_of_shr_record mrs')) as Hr.
  set (m2 := round_nearest_even (shr_m mrs') (loc_of_shr_record mrs')) in *.
  pose proof (Zdigits2_mono (shr_m mrs') m2 Hm' ltac:(lia)) as Hmono.
  destruct (shr_fexp Float64.prec Float64.emax m2 e' loc_Exact) as [mrs'' e''] eqn:H2.
  destruct (shr_fexp_magnitude m2 e' loc_Exact mrs'' e'' ltac:(lia) ltac:(lia) H2)
    as [Hm'' Hd''].
  destruct (shr_m mrs'') as [|m3|m3]; [lia| |lia].
  destruct (e'' <=? Float64.emax - Float64.prec); [|reflexivity].
  split; [reflexivity|]. cbn [Zdigits2] in Hd''. lia.
Qed.

Lemma digits2_pos_iter (p q : positive) :
  Z.pos (digits2_pos (Pos.iter xO p q)) = Z.pos (digits2_pos p) + Z.pos q.
Proof.
  induction q as [|q IH] using Pos.peano_ind.
  - cbn. lia.
  - rewrite Pos.iter_succ. cbn [digits2_pos]. lia.
Qed.

Lemma pos_iter_xO (p q : positive) :
  Z.pos (Pos.iter xO p q) = Z.pos p * 2 ^ Z.pos q.
Proof.
  induction q as [|q IH] using Pos.peano_ind.
  - cbn. lia.
  - rewrite Pos.iter_succ, (Pos2Z.inj_xO (Pos.iter xO p q)), IH, Pos2Z.inj_succ, Z.pow_succ_r by lia.
    lia.
Qed.

(** [float(n)] of an integer [n >= 1]: it overflows or it is a positive
    float that is at least 1. *)
Lemma float_of_int_ge_1 (n : Z) :
  1 <= n ->
  Float64.float_of_int n = Raise OverflowError
  \/ exists m e,
       Float64.float_of_int n = Ok (S754_finite false m e)
       /\ 1 <= Z.pos (digits2_pos m) + e.
Proof.
  intros Hn. destruct n as [|p|p]; [lia| |lia].
  unfold Float64.float_of_int. cbn [binary_normalize]. unfold binary_round, shl_align.
  pose proof (Zdigits2_bounds (Z.pos p) ltac:(lia)) as [Hd1 _].
  cbn [Zdigits2] in Hd1.
  destruct (fexp Float64.prec Float64.emax (Z.pos (digits2_pos p) + 0) - 0) as [|k|k] eqn:Hk.
  - pose proof (binary_round_aux_magnitude false (Z.pos p) 0 loc_Exact
                  ltac:(lia)) as H.
    cbn [Zdigits2] in H. specialize (H ltac:(unfold emin, Float64.prec, Float64.emax; lia)).
    destruct (binary_round_aux Float64.prec Float64.emax false (Z.pos p) 0 loc_Exact)
      as [| | |s' m' e']; [contradiction | left; reflexivity | contradiction |].
    right. destruct H as [-> H]. exists m', e'. split; [reflexivity | lia].
  - pose proof (binary_round_aux_magnitude false (Z.pos p) 0 loc_Exact
                  ltac:(lia)) as H.
    cbn [Zdigits2] in H. specialize (H ltac:(unfold emin, Float64.prec, Float64.emax; lia)).
    destruct (binary_round_aux Float64.prec Float64.emax false (Z.pos p) 0 loc_Exact)
      as [| | |s' m' e']; [contradiction | left; reflexivity | contradiction |].
    right. destruct H as [-> H]. exists m', e'. split; [reflexivity | lia].
  - pose proof (binary_round_aux_magnitude false (Z.pos (Pos.iter xO p k))
                  (fexp Float64.prec Float64.emax (Z.pos (digits2_pos p) + 0)) loc_Exact
                  ltac:(lia)) as H.
    cbn [Zdigits2] in H. rewrite digits2_pos_iter in H.
    specialize (H ltac:(unfold fexp, emin, Float64.prec, Float64.emax in *; lia)).
    destruct (binary_round_aux Float64.prec Float64.emax false _ _ loc_Exact)
      as [| | |s' m' e']; [contradiction | left; reflexivity | contradiction |].
    right. destruct H as [-> H]. exists m', e'. split; [reflexivity | lia].
Qed.

Lemma int_of_float_ge_1 (m : positive) (e : Z) :
  1 <= Z.pos (digits2_pos m) + e ->
  exists k, Float64.int_of_float (S754_finite false m e) = Ok k /\ 1 <= k.
Proof.
  intros Hmag. unfold Float64.int_of_float. eexists. split; [reflexivity|].
  cbn [cond_Zopp]. destruct (0 <=? e) eqn:He.
  - apply Z.leb_le in He.
    assert (0 < 2 ^ e) by (apply Z.pow_pos_nonneg; lia). nia.
  - apply Z.leb_gt in He.
    pose proof (digits2_pos_bounds m) as [Hlow _].
    assert (Hp : 0 < 2 ^ (- e)) by (apply Z.pow_pos_nonneg; lia).
    assert (2 ^ (- e) <= 2 ^ (Z.pos (digits2_pos m) - 1))
      by (apply Z.pow_le_mono_r; lia).
    apply Z.div_le_lower_bound; lia.
Qed.

(** A mantissa of full width at an exponent of the format is its own
    rounding. *)
Lemma binary_round_aux_canonical (s : bool) (m : positive) (e : Z) :
  Z.pos (digits2_pos m) = Float64.prec -> emin Float64.prec Float64.emax <= e <= Float64.emax - Float64.prec ->
  binary_round_aux Float64.prec Float64.emax s (Z.pos m) e loc_Exact = S754_finite s m e.
Proof.
  intros Hd He. unfold binary_round_aux, shr_fexp. cbn [Zdigits2].
  rewrite Hd.
  replace (fexp Float64.prec Float64.emax (Float64.prec + e) - e) with 0
    by (unfold fexp, emin, Float64.prec, Float64.emax in *; lia).
  cbn [shr shr_record_of_loc shr_m loc_of_shr_record round_nearest_even Zdigits2].
  rewrite Hd.
  replace (fexp Float64.prec Float64.emax (Float64.prec + e) - e) with 0
    by (unfold fexp, emin, Float64.prec, Float64.emax in *; lia).
  cbn [shr shr_record_of_loc shr_m].
  replace (e <=? Float64.emax - Float64.prec) with true by (symmetry; apply Z.leb_le; lia).
  reflexivity.
Qed.

(** [float(n)] is exact for [1 <= n < 2 ^ 53]: [int] gives [n] back. *)
Lemma float_of_int_exact (n : Z) :
  1 <= n < 2 ^ 53 ->
  exists m e,
    Float64.float_of_int n = Ok (S754_finite false m e)
    /\ Float64.int_of_float (S754_finite false m e) = Ok n.
Proof.
  intros Hn. destruct n as [|p|p]; [lia| |lia].
  pose proof (digits2_pos_bounds p) as [Hlow Hup].
  assert (Hd : Z.pos (digits2_pos p) <= 53).
  { destruct (Z.le_gt_cases (Z.pos (digits2_pos p)) 53) as [|Hgt]; [assumption|].
    assert (2 ^ 53 <= 2 ^ (Z.pos (digits2_pos p) - 1))
      by (apply Z.pow_le_mono_r; lia).
    lia. }
  unfold Float64.float_of_int. cbn [binary_normalize]. unfold binary_round, shl_align.
  destruct (fexp Float64.prec Float64.emax (Z.pos (digits2_pos p) + 0) - 0) as [|k|k] eqn:Hk.
  - rewrite binary_round_aux_canonical
      by (unfold fexp, emin, Float64.prec, Float64.emax in *; lia).
    exists p, 0. split; [reflexivity|]. cbn. f_equal. lia.
  - unfold fexp, emin, Float64.prec, Float64.emax in Hk. lia.
  - assert (Hkq : Z.pos k = 53 - Z.pos (digits2_pos p))
      by (unfold fexp, emin, Float64.prec, Float64.emax in Hk; lia).
    rewrite binary_round_aux_canonical;
      [|rewrite digits2_pos_iter; unfold Float64.prec; lia
       |unfold fexp, emin, Float64.prec, Float64.emax in *; lia].
    eexists _, _. split; [reflexivity|].
    unfold Float64.int_of_float. cbn [cond_Zopp].
    replace (fexp Float64.prec Float64.emax (Z.pos (digits2_pos p) + 0)) with (- Z.pos k)
      by (unfold fexp, emin, Float64.prec, Float64.emax in *; lia).
    replace (0 <=? - Z.pos k) with false by (symmetry; apply Z.leb_gt; lia).
    rewrite Z.opp_involutive, pos_iter_xO, Z.div_mul; [reflexivity|].
    apply Z.pow_nonzero; lia.
Qed.

(** The product of a float that is not zero and a float that is at least 1
    is not zero. *)
Lemma mul_not_zero (x : spec_float) (m : positive) (e : Z) :
  valid_binary Float64.prec Float64.emax x = true -> Float64.is_zero x = false ->
  1 <= Z.pos (digits2_pos m) + e ->
  match SFmul Float64.prec Float64.emax x (S754_finite false m e) with
  | S754_zero _ => False
  | S754_nan => x = S754_nan
  | _ => True
  end.
Proof.
  intros Hv Hz Hmag. destruct x as [sx|sx| |sx mx ex]; cbn [SFmul];
    [discriminate | exact I | reflexivity |].
  cbn [valid_binary] in Hv. unfold bounded, canonical_mantissa in Hv.
  apply andb_prop in Hv as [Hc _]. apply Z.eqb_eq in Hc.
  pose proof (digits2_pos_bounds mx) as [Hlx Hux].
  pose proof (digits2_pos_bounds m) as [Hl Hu].
  pose proof (digits2_pos_bounds (mx * m)) as [Hlp Hup].
  assert (Hdig : Z.pos (digits2_pos mx) + Z.pos (digits2_pos m) - 1
                 <= Z.pos (digits2_pos (mx * m))).
  { destruct (Z.le_gt_cases (Z.pos (digits2_pos mx) + Z.pos (digits2_pos m) - 1)
                (Z.pos (digits2_pos (mx * m)))) as [|Hgt]; [assumption|].
    assert (2 ^ Z.pos (digits2_pos (mx * m))
            <= 2 ^ (Z.pos (digits2_pos mx) - 1 + (Z.pos (digits2_pos m) - 1)))
      by (apply Z.pow_le_mono_r; lia).
    rewrite Z.pow_add_r in H by lia.
    rewrite Pos2Z.inj_mul in Hup.
    assert (0 < 2 ^ (Z.pos (digits2_pos mx) - 1)) by (apply Z.pow_pos_nonneg; lia).
    assert (0 < 2 ^ (Z.pos (digits2_pos m) - 1)) by (apply Z.pow_pos_nonneg; lia).
    nia. }
  pose proof (binary_round_aux_magnitude (xorb sx false) (Z.pos (mx * m))
                (ex + e) loc_Exact ltac:(lia)) as H.
  cbn [Zdigits2] in H.
  specialize (H ltac:(unfold fexp, emin, Float64.prec, Float64.emax in *; lia)).
  destruct (binary_round_aux Float64.prec Float64.emax _ _ _ loc_Exact); try contradiction; exact I.
Qed.

Lemma sub_self (x : spec_float) :
  is_number x -> SFsub Float64.prec Float64.emax x x = S754_zero false.
Proof.
  destruct x as [[]|s| |s m e]; cbn; try contradiction; try reflexivity.
  intros _. rewrite Z.sub_diag. reflexivity.
Qed.

Lemma shr_fexp_exponent (m e : Z) (l : location) mrs' e' :
  shr_fexp Float64.prec Float64.emax m e l = (mrs', e') ->
  e' = Z.max e (fexp Float64.prec Float64.emax (Zdigits2 m + e)).
Proof.
  unfold shr_fexp, shr.
  destruct (fexp Float64.prec Float64.emax (Zdigits2 m + e) - e) as [|k|k] eqn:Hk;
    intros [= _ <-]; lia.
Qed.

(** Below the largest magnitude of the format the rounding is finite. *)
Lemma binary_round_aux_finite (s : bool) (m e : Z) (l : location) :
  0 < m -> emin Float64.prec Float64.emax < Zdigits2 m + e ->
  Zdigits2 m + e < Float64.emax -> e <= Float64.emax - Float64.prec ->
  exists m' e',
    binary_round_aux Float64.prec Float64.emax s m e l = S754_finite s m' e'
    /\ Zdigits2 m + e <= Z.pos (digits2_pos m') + e'.
Proof.
  intros Hm Hmag Hmax He.
  pose proof (binary_round_aux_magnitude s m e l Hm Hmag) as Hfin.
  unfold binary_round_aux in *.
  destruct (shr_fexp Float64.prec Float64.emax m e l) as [mrs' e'] eqn:H1.
  destruct (shr_fexp_magnitude m e l mrs' e' Hm Hmag H1) as [Hm' Hd'].
  pose proof (shr_fexp_exponent m e l mrs' e' H1) as He'.
  pose proof (round_nearest_even_bounds (shr_m mrs') (loc_of_shr_record mrs')) as Hr.
  set (m2 := round_nearest_even (shr_m mrs') (loc_of_shr_record mrs')) in *.
  pose proof (Zdigits2_mono (shr_m mrs') m2 Hm' ltac:(lia)) as Hmono.
  assert (Hup : Zdigits2 m2 <= Zdigits2 (shr_m mrs') + 1).
  { destruct (Zdigits2_bounds (shr_m mrs') Hm') as [Hd1 Hb].
    destruct (Zdigits2_bounds m2 ltac:(lia)) as [Hd2 Hb2].
    destruct (Z.le_gt_cases (Zdigits2 m2) (Zdigits2 (shr_m mrs') + 1))
      as [|Hgt]; [assumption|].
    assert (2 ^ (Zdigits2 (shr_m mrs') + 1) <= 2 ^ (Zdigits2 m2 - 1))
      by (apply Z.pow_le_mono_r; lia).
    rewrite Z.pow_add_r in H by lia. lia. }
  destruct (shr_fexp Float64.prec Float64.emax m2 e' loc_Exact)
    as [mrs'' e''] eqn:H2.
  pose proof (shr_fexp_exponent m2 e' loc_Exact mrs'' e'' H2) as He''.
  destruct (shr_m mrs'') as [|m3|m3]; [contradiction| |contradiction].
  replace (e'' <=? Float64.emax - Float64.prec) with true in *
    by (symmetry; apply Z.leb_le;
        unfold fexp, emin, Float64.prec, Float64.emax in *; lia).
  exists m3, e''. split; [reflexivity|]. destruct Hfin as [_ Hfin]. exact Hfin.
Qed.

(** [float(n)] returns for every integer [1 <= n < 2 ^ 1023]. *)
Lemma float_of_int_finite (n : Z) :
  1 <= n < 2 ^ 1023 ->
  exists m e,
    Float64.float_of_int n = Ok (S754_finite false m e)
    /\ 1 <= Z.pos (digits2_pos m) + e.
Proof.
  intros Hn. destruct n as [|p|p]; [lia| |lia].
  pose proof (digits2_pos_bounds p) as [Hlow Hup].
  assert (Hd : Z.pos (digits2_pos p) <= 1023).
  { destruct (Z.le_gt_cases (Z.pos (digits2_pos p)) 1023) as [|Hgt]; [assumption|].
    assert (2 ^ 1023 <= 2 ^ (Z.pos (digits2_pos p) - 1))
      by (apply Z.pow_le_mono_r; lia).
    lia. }
  unfold Float64.float_of_int. cbn [binary_normalize].
  unfold binary_round, shl_align.
  destruct (fexp Float64.prec Float64.emax (Z.pos (digits2_pos p) + 0) - 0)
    as [|k|k] eqn:Hk.
  - destruct (binary_round_aux_finite false (Z.pos p) 0 loc_Exact)
      as (m' & e' & -> & Hmag); cbn [Zdigits2];
      try (unfold emin, Float64.prec, Float64.emax; lia).
    exists m', e'. split; [reflexivity|]. cbn [Zdigits2] in Hmag. lia.
  - destruct (binary_round_aux_finite false (Z.pos p) 0 loc_Exact)
      as (m' & e' & -> & Hmag); cbn [Zdigits2];
      try (unfold emin, Float64.prec, Float64.emax; lia).
    exists m', e'. split; [reflexivity|]. cbn [Zdigits2] in Hmag. lia.
  - destruct (binary_round_aux_finite false (Z.pos (Pos.iter xO p k))
                (fexp Float64.prec Float64.emax (Z.pos (digits2_pos p) + 0))
                loc_Exact)
      as (m' & e' & -> & Hmag); cbn [Zdigits2]; rewrite ?digits2_pos_iter;
      try (unfold fexp, emin, Float64.prec, Float64.emax in *; lia).
    exists m', e'. split; [reflexivity|].
    cbn [Zdigits2] in Hmag. rewrite digits2_pos_iter in Hmag.
    unfold fexp, emin, Float64.prec, Float64.emax in *. lia.
Qed.

End FloatFacts.

(** ** utilities.py: sample size and delta *)

Section SampleSize.

Import Float64.

Lemma binary_round_aux_sign sx mx ex lx s m e :
  binary_round_aux prec emax sx mx ex lx = S754_finite s m e -> s = sx.
Proof.
  unfold binary_round_aux.
  destruct (shr_fexp prec emax mx ex lx) as [mrs' e'].
  destruct (shr_fexp prec emax _ e' loc_Exact) as [mrs'' e''].
  destruct (shr_m mrs'') as [|m'|m']; [discriminate| |discriminate].
  destruct (e'' <=? emax - prec); [|discriminate].
  intros H. inversion H. reflexivity.
Qed.

Lemma div_one_positive (delta : spec_float) :
  positive delta = true -> not_negative (SFdiv prec emax one delta).
Proof.
  destruct delta as [s|s| |s m e]; try discriminate.
  - intros _. exact I.
  - destruct s; [discriminate|]. intros _.
    unfold one, SFdiv.
    destruct (SFdiv_core_binary prec emax _ _ _ _) as [[mz ez] lz].
    unfold not_negative.
    destruct (binary_round_aux prec emax _ mz ez lz) as [| | |s' m' e'] eqn:Hr;
      try exact I.
    apply binary_round_aux_sign in Hr. exact Hr.
Qed.

Lemma int_of_float_floor (q : spec_float) :
  not_negative q -> int_of_float q = floor q.
Proof.
  destruct q as [s|s| |s m e]; try reflexivity.
  cbn. intros ->. cbn. destruct (0 <=? e); reflexivity.
Qed.

(** With a single sample the divisor is zero and the division raises. *)
Lemma compute_delta_single_sample d0 d1 s m e :
  compute_delta_from_sample_size 1 [d0; d1] (S754_finite s m e)
  = Raise ZeroDivisionError.
Proof. reflexivity. Qed.

(** On a negative delta truncation and floor part: for [-0.75] the code
    gives [int(-1.33...) + 1 = 0] and the floor gives [-2 + 1 = -1]. *)
Lemma sample_size_negative_delta :
  compute_sample_size_from_delta
    (S754_finite true 6755399441055744 (-53)) = Ok 0
  /\ spec_sample_size (S754_finite true 6755399441055744 (-53)) = Ok (-1).
Proof. split; reflexivity. Qed.

(** C9: for a positive delta [compute_sample_size_from_delta] is
    [floor(1.0 / delta) + 1], the quotient being the float quotient (both
    raise when it is infinite), and for [0.1] it is 11.  For a sample size
    above 1, a domain of two entries and a domain range that is a float
    other than zero, [compute_delta_from_sample_size] raises only when
    [float(sample_size - 1)] overflows; otherwise that float is at least
    1, the divisor is not zero, and the value is the IEEE quotient of the
    IEEE difference [domain[1] - domain[0]] by the IEEE product of the
    range and that float.  Up to a sample size of [2 ^ 1023] the
    conversion does not overflow and the call returns; for
    [2 ^ 1024 + 1] samples it raises [OverflowError].  Up to [2 ^ 53] the
    conversion of [sample_size - 1] is exact.  Equal end points give a
    zero delta; 4 samples on the domain (2, 5) of range 2 give [0.5], 4
    samples on (0, 1) of range 1 the float nearest to a third, and 11
    samples on (0, 1) of range 1 give [0.1]. *)
Theorem sample_size_delta_conversions :
  (forall delta,
      positive delta = true ->
      compute_sample_size_from_delta delta = spec_sample_size delta)
  /\ compute_sample_size_from_delta tenth = Ok 11
  /\ (forall sample_size domain d0 d1 domain_range,
        1 < sample_size ->
        getitem domain 0 = Ok d0 -> getitem domain 1 = Ok d1 ->
        valid_binary 53 1024 domain_range = true ->
        is_zero domain_range = false ->
        (float_of_int (sample_size - 1) = Raise OverflowError
         /\ compute_delta_from_sample_size sample_size domain domain_range
            = Raise OverflowError)
        \/ (exists fn k,
              float_of_int (sample_size - 1) = Ok fn
              /\ positive fn = true
              /\ int_of_float fn = Ok k /\ 1 <= k
              /\ compute_delta_from_sample_size sample_size domain domain_range
                 = Ok (SFdiv 53 1024 (SFsub 53 1024 d1 d0)
                         (SFmul 53 1024 domain_range fn))))
  /\ (forall sample_size domain d0 d1 domain_range,
        1 < sample_size <= 2 ^ 1023 ->
        getitem domain 0 = Ok d0 -> getitem domain 1 = Ok d1 ->
        valid_binary 53 1024 domain_range = true ->
        is_zero domain_range = false ->
        exists fn,
          float_of_int (sample_size - 1) = Ok fn
          /\ compute_delta_from_sample_size sample_size domain domain_range
             = Ok (SFdiv 53 1024 (SFsub 53 1024 d1 d0)
                     (SFmul 53 1024 domain_range fn)))
  /\ compute_delta_from_sample_size (2 ^ 1024 + 1) [zero; one] one
     = Raise OverflowError
  /\ (forall sample_size,
        1 < sample_size <= 2 ^ 53 ->
        exists fn,
          float_of_int (sample_size - 1) = Ok fn
          /\ int_of_float fn = Ok (sample_size - 1))
  /\ (forall sample_size domain x s m e,
        1 < sample_size <= 2 ^ 53 ->
        getitem domain 0 = Ok x -> getitem domain 1 = Ok x ->
        is_number x ->
        valid_binary 53 1024 (S754_finite s m e) = true ->
        exists s',
          compute_delta_from_sample_size sample_size domain (S754_finite s m e)
          = Ok (S754_zero s'))
  /\ compute_delta_from_sample_size 4 [two; five] two = Ok half
  /\ compute_delta_from_sample_size 4 [zero; one] one = Ok third
  /\ compute_delta_from_sample_size 11 [zero; one] one = Ok tenth.
Proof.
  split; [|split; [|split; [|split; [|split; [|split; [|split; [|split; [|split]]]]]]]].
  - intros delta Hpos.
    unfold compute_sample_size_from_delta, spec_sample_size, truediv.
    pose proof (int_of_float_floor _ (div_one_positive delta Hpos)) as Hq.
    destruct (is_zero delta); [reflexivity|].
    revert Hq. generalize (SFdiv prec emax one delta). intros q Hq.
    cbn. rewrite Hq. reflexivity.
  - reflexivity.
  - intros n domain d0 d1 dr Hn H0 H1 Hv Hz.
    unfold compute_delta_from_sample_size. rewrite H1. cbn. rewrite H0. cbn.
    destruct (float_of_int_ge_1 (n - 1) ltac:(lia))
      as [Hov|(m & e & Hfn & Hmag)].
    + left. rewrite Hov. split; reflexivity.
    + right. destruct (int_of_float_ge_1 m e Hmag) as (k & Hk & Hk1).
      exists (S754_finite false m e), k.
      split; [exact Hfn|]. split; [reflexivity|].
      split; [exact Hk|]. split; [exact Hk1|].
      rewrite Hfn. cbn.
      pose proof (mul_not_zero dr m e Hv Hz Hmag) as Hp.
      unfold truediv, mul, sub, prec, emax in *.
      destruct (SFmul 53 1024 dr (S754_finite false m e));
        [contradiction | reflexivity..].
  - intros n domain d0 d1 dr Hn H0 H1 Hv Hz.
    unfold compute_delta_from_sample_size. rewrite H1. cbn. rewrite H0. cbn.
    destruct (float_of_int_finite (n - 1) ltac:(lia)) as (m & e & Hfn & Hmag).
    exists (S754_finite false m e). split; [exact Hfn|].
    rewrite Hfn. cbn.
    pose proof (mul_not_zero dr m e Hv Hz Hmag) as Hp.
    unfold truediv, mul, sub, prec, emax in *.
    destruct (SFmul 53 1024 dr (S754_finite false m e));
      [contradiction | reflexivity..].
  - vm_compute. reflexivity.
  - intros n Hn.
    destruct (float_of_int_exact (n - 1) ltac:(lia)) as (m & e & Hfn & Hback).
    exists (S754_finite false m e). split; assumption.
  - intros n domain x s m e Hn H0 H1 Hx Hv.
    unfold compute_delta_from_sample_size. rewrite H1. cbn. rewrite H0. cbn.
    destruct (float_of_int_exact (n - 1) ltac:(lia)) as (m' & e' & Hfn & Hback).
    rewrite Hfn. cbn.
    assert (Hmag : 1 <= Z.pos (digits2_pos m') + e').
    { destruct (float_of_int_ge_1 (n - 1) ltac:(lia))
        as [Hov|(m2 & e2 & Hfn2 & Hmag)]; [congruence|].
      rewrite Hfn in Hfn2. injection Hfn2 as -> ->. exact Hmag. }
    pose proof (mul_not_zero (S754_finite s m e) m' e' Hv eq_refl Hmag) as Hp.
    pose proof (sub_self x Hx) as Hs.
    unfold truediv, mul, sub, prec, emax in *. rewrite Hs.
    cbn [SFmul] in Hp.
    destruct (binary_round_aux 53 1024 (xorb s false) (Z.pos (m * m'))
                (e + e') loc_Exact) as [s2|s2| |s2 m2 e2];
      [contradiction | | discriminate |]; eexists; reflexivity.
  - reflexivity.
  - reflexivity.
  - reflexivity.
Qed.

Lemma sample_size_delta_conversions_witness :
  compute_sample_size_from_delta (S754_finite false 4503599627370496 (-54))
  = spec_sample_size (S754_finite false 4503599627370496 (-54))
  /\ compute_delta_from_sample_size 3 [one; five] two
     = Ok one.
Proof.
  destruct sample_size_delta_conversions as (Hsize & _ & Hdelta & _).
  split.
  - apply Hsize. reflexivity.
  - destruct (Hdelta 3 [one; five] one five two ltac:(lia) eq_refl eq_refl
                eq_refl eq_refl) as [[Hov _]|(fn & k & Hfn & _ & _ & _ & Hrun)].
    + discriminate Hov.
    + rewrite Hrun. injection Hfn as <-. reflexivity.
Defined.

End SampleSize.

(** ** Python lists: assignment and lookup *)

Section PyLists.

Context {A : Type}.
Implicit Types (l : list A) (i : Z) (j : nat).

Lemma norm_index_Some (n i : Z) (j : nat) :
  norm_index n i = Some j ->
  (Z.of_nat j < n) /\ Z.of_nat j = (if i <? 0 then i + n else i).
Proof.
  unfold norm_index. destruct (i <? 0) eqn:Hi.
  - destruct (0 <=? i + n) eqn:H0; [|discriminate].
    destruct (i + n <? n) eqn:H1; [|discriminate].
    cbn. intros [= <-]. lia.
  - destruct (0 <=? i) eqn:H0; [|discriminate].
    destruct (i <? n) eqn:H1; [|discriminate].
    cbn. intros [= <-]. lia.
Qed.

Lemma setitem_Ok l i x l' :
  setitem l i x = Ok l' ->
  exists j, norm_index (len l) i = Some j /\ l' = <[j := x]> l.
Proof.
  unfold setitem. destruct (norm_index (len l) i) as [j|]; [|discriminate].
  intros [= <-]. eauto.
Qed.

Lemma setitem_length l i x l' :
  setitem l i x = Ok l' -> length l' = length l.
Proof.
  intros H. apply setitem_Ok in H as (j & _ & ->). apply length_insert.
Qed.

Lemma getitem_setitem l i x l' :
  setitem l i x = Ok l' -> getitem l' i = Ok x.
Proof.
  intros H. apply setitem_Ok in H as (j & Hj & ->).
  unfold getitem, len. rewrite length_insert. fold (len l). rewrite Hj.
  apply norm_index_Some in Hj as [Hlt _].
  rewrite list_lookup_insert_eq by (unfold len in Hlt; lia). reflexivity.
Qed.

Lemma getitem_setitem_other l i i' x l' :
  setitem l i x = Ok l' ->
  norm_index (len l) i' <> norm_index (len l) i ->
  getitem l' i' = getitem l i'.
Proof.
  intros H Hne. apply setitem_Ok in H as (j & Hj & ->).
  unfold getitem, len. rewrite length_insert. fold (len l).
  destruct (norm_index (len l) i') as [j'|]; [|reflexivity].
  rewrite list_lookup_insert_ne by congruence. reflexivity.
Qed.

End PyLists.

(** ** The manager: the shape of the storage *)

Section StorageShape.

Implicit Types (self : CPManager) (d : gmap string (list pyval)).

Lemma default_ctrlpt_set_length pts idx c :
  length (default_ctrlpt_set pts idx c).2 = length pts.
Proof.
  unfold default_ctrlpt_set. destruct (mapM GeomdlFloat c) as [t|]; [|reflexivity].
  destruct (setitem pts idx t) as [pts'|] eqn:Hs; [|reflexivity].
  cbn. eapply setitem_length, Hs.
Qed.

Lemma ctrlpts_set_loop_length idx vs dim pts :
  length (ctrlpts_set_loop idx vs dim pts).2 = length pts.
Proof.
  revert idx pts. induction vs as [|v vs IH]; intros idx pts; [reflexivity|].
  cbn. destruct v as [| | |c]; try reflexivity.
  destruct (negb (len c =? dim)); [reflexivity|].
  pose proof (default_ctrlpt_set_length pts idx c) as Hl.
  destruct (default_ctrlpt_set pts idx c) as [[[]|e] pts']; cbn in Hl.
  - rewrite IH. exact Hl.
  - exact Hl.
Qed.

Lemma same_shape_refl self : same_shape self self.
Proof. repeat split. Qed.

Lemma same_shape_trans s1 s2 s3 :
  same_shape s1 s2 -> same_shape s2 s3 -> same_shape s1 s3.
Proof.
  intros (H1 & H2 & H3 & H4 & H5) (G1 & G2 & G3 & G4 & G5).
  repeat split; try congruence.
Qed.

Lemma setitem_same_shape key value self :
  func_pt_set (_cfg self) = default_ctrlpt_set ->
  same_shape self (__setitem__ key value self).2.
Proof.
  intros Hcfg. unfold __setitem__.
  destruct value as [| | |v]; try apply same_shape_refl.
  set (self1 := if dimension self <? 1 then set_dimension (len v) self else self).
  assert (H1 : same_shape self self1)
    by (unfold self1; destruct (dimension self <? 1); repeat split).
  assert (Hcfg1 : func_pt_set (_cfg self1) = default_ctrlpt_set)
    by (destruct H1 as (-> & _); exact Hcfg).
  destruct (negb (len v =? dimension self1)); [exact H1|].
  assert (Hset : forall idx,
    same_shape self
      match func_pt_set (_cfg self1) (_pts self1) idx v with
      | (Ok _, pts) => (Ok (), set_is_changed true (set_pts pts self1))
      | (Raise e, pts) => (Raise e, set_pts pts self1)
      end.2).
  { intros idx. rewrite Hcfg1.
    pose proof (default_ctrlpt_set_length (_pts self1) idx v) as Hl.
    destruct (default_ctrlpt_set (_pts self1) idx v) as [[[]|e] pts'];
      cbn in *; (eapply same_shape_trans; [exact H1|]);
      repeat split; cbn; exact Hl. }
  destruct key as [k|t|]; [apply Hset| |exact H1].
  destruct (negb (len t =? len (size self1))); [exact H1|apply Hset].
Qed.

Lemma set_pt_same_shape p coords self :
  func_pt_set (_cfg self) = default_ctrlpt_set ->
  same_shape self (set_pt p coords self).2.
Proof.
  intros Hcfg. unfold set_pt.
  pose proof (setitem_same_shape (KTuple coords) p self Hcfg) as H.
  destruct (__setitem__ (KTuple coords) p self) as [[[]|e] s1]; cbn in *;
    [|exact H].
  eapply same_shape_trans; [exact H|]. repeat split.
Qed.

Lemma points_setter_same_shape value self :
  func_pts_set (_cfg self) = default_ctrlpts_set ->
  same_shape self (points_setter value self).2.
Proof.
  intros Hcfg. unfold points_setter.
  destruct value as [| | |vs]; try apply same_shape_refl.
  destruct (negb (len vs =? count self)); [apply same_shape_refl|].
  assert (Hrun : forall self1, same_shape self self1 ->
    same_shape self
      match func_pts_set (_cfg self1) vs (dimension self1) (_pts self1) with
      | (Ok _, pts) => (Ok (), set_is_changed true (set_pts pts self1))
      | (Raise e, pts) => (Raise e, set_pts pts self1)
      end.2).
  { intros self1 H1.
    assert (Hcfg1 : func_pts_set (_cfg self1) = default_ctrlpts_set)
      by (destruct H1 as (-> & _); exact Hcfg).
    rewrite Hcfg1. unfold default_ctrlpts_set.
    pose proof (ctrlpts_set_loop_length 0 vs (dimension self1) (_pts self1)) as Hl.
    destruct (ctrlpts_set_loop 0 vs (dimension self1) (_pts self1))
      as [[[]|e] pts']; cbn in *; (eapply same_shape_trans; [exact H1|]);
      repeat split; cbn; exact Hl. }
  destruct (dimension self <? 1).
  - destruct vs as [|[| | |c] vs']; try apply same_shape_refl.
    apply Hrun. repeat split.
  - apply Hrun, same_shape_refl.
Qed.

Lemma call_same_shape value self :
  func_pts_set (_cfg self) = default_ctrlpts_set ->
  same_shape self (__call__ value self).2.
Proof.
  intros Hcfg. unfold __call__.
  pose proof (points_setter_same_shape value self Hcfg) as H.
  destruct (points_setter value self) as [[[]|e] s1]; cbn in *; [|exact H].
  eapply same_shape_trans; [exact H|]. repeat split.
Qed.

Lemma ptsd_set_component_lengths k idx j v d d' (k0 : string) :
  ptsd_set_component k idx j v d = Ok d' ->
  length <$> (d' !! k0) = length <$> (d !! k0).
Proof.
  unfold ptsd_set_component, dict_getitem. intros H.
  destruct (d !! k) as [arr|] eqn:Hk; [|discriminate]. cbn in H.
  destruct (getitem arr idx) as [elt|]; [|discriminate]. cbn in H.
  destruct elt as [| | |l]; try discriminate.
  destruct (setitem l j v) as [l'|]; [|discriminate]. cbn in H.
  destruct (setitem arr idx (VSeq l')) as [arr'|] eqn:Hs; [|discriminate].
  cbn in H. simplify_eq.
  destruct (decide (k = k0)) as [->|Hne].
  - rewrite lookup_insert_eq, Hk. cbn. f_equal. eapply setitem_length, Hs.
  - rewrite lookup_insert_ne by exact Hne. reflexivity.
Qed.

Lemma ptsd_set_entry_lengths k idx val d d' (k0 : string) :
  ptsd_set_entry k idx val d = Ok d' ->
  length <$> (d' !! k0) = length <$> (d !! k0).
Proof.
  unfold ptsd_set_entry, dict_getitem. intros H.
  destruct (d !! k) as [arr|] eqn:Hk; [|discriminate]. cbn in H.
  destruct (setitem arr idx val) as [arr'|] eqn:Hs; [|discriminate].
  cbn in H. simplify_eq.
  destruct (decide (k = k0)) as [->|Hne].
  - rewrite lookup_insert_eq, Hk. cbn. f_equal. eapply setitem_length, Hs.
  - rewrite lookup_insert_ne by exact Hne. reflexivity.
Qed.

Lemma set_components_lengths k idx j val d r d' (k0 : string) :
  set_components k idx j val d = (r, d') ->
  length <$> (d' !! k0) = length <$> (d !! k0).
Proof.
  revert j d. induction val as [|v val IH]; intros j d H; cbn in H.
  - simplify_eq. reflexivity.
  - destruct (ptsd_set_component k idx j v d) as [d1|] eqn:Hc.
    + rewrite (IH _ _ H). eapply ptsd_set_component_lengths, Hc.
    + simplify_eq. reflexivity.
Qed.

Lemma set_ptdata_loop_same_shape idx adct self r self' :
  set_ptdata_loop idx adct self = (r, self') -> same_shape self self'.
Proof.
  revert self. induction adct as [|[k val] adct IH]; intros self H; cbn in H.
  - simplify_eq. apply same_shape_refl.
  - destruct (bool_decide (is_Some (_ptsd self !! k)));
      [|simplify_eq; apply same_shape_refl].
    assert (Hw : forall w dw,
               match val with
               | VSeq l => set_components k idx 0 l (_ptsd self)
               | _ => match ptsd_set_entry k idx val (_ptsd self) with
                      | Ok d => (Ok (), d)
                      | Raise e => (Raise e, _ptsd self)
                      end
               end = (w, dw) ->
               forall k0, length <$> (dw !! k0) = length <$> (_ptsd self !! k0)).
    { intros w dw Hw k0. destruct val as [| | |l];
        try (destruct (ptsd_set_entry _ _ _ _) as [d1|] eqn:He;
             simplify_eq; [eapply ptsd_set_entry_lengths, He | reflexivity]).
      eapply set_components_lengths, Hw. }
    destruct (match val with VSeq _ => _ | _ => _ end) as [w dw] eqn:Hwr.
    specialize (Hw _ _ eq_refl).
    destruct w as [[]|e].
    + eapply same_shape_trans; [|eapply IH, H]. repeat split. exact Hw.
    + simplify_eq. repeat split. exact Hw.
Qed.

Lemma set_ptdata_same_shape adct coords self :
  same_shape self (set_ptdata adct coords self).2.
Proof.
  unfold set_ptdata.
  destruct (set_ptdata_loop _ adct self) as [r s1] eqn:Hloop.
  pose proof (set_ptdata_loop_same_shape _ _ _ _ _ Hloop) as H.
  destruct r as [[]|[]]; exact H.
Qed.

Lemma reset_same_shape kw self : same_shape self (reset kw self).2.
Proof. unfold reset. destruct (func_pts_init _ _ _); repeat split. Qed.

Lemma init_data_lengths (n : Z) (kwargs : list (string * Z)) d (k : string) arr :
  (forall arr', d !! k = Some arr' -> length arr' = Z.to_nat n) ->
  foldl (fun d kv => <[kv.1 := init_data_array n kv.2]> d) d kwargs !! k
  = Some arr ->
  length arr = Z.to_nat n.
Proof.
  revert d. induction kwargs as [|[k' v] kwargs IH]; intros d Hd; cbn.
  - apply Hd.
  - apply IH. intros arr'. destruct (decide (k' = k)) as [->|Hne].
    + rewrite lookup_insert_eq. intros [= <-]. unfold init_data_array.
      destruct (1 <? v); apply length_replicate.
    + rewrite lookup_insert_ne by exact Hne. apply Hd.
Qed.

Lemma init_fields args kwargs cfg self :
  __init__ args kwargs cfg = Ok self ->
  _cfg self = cfg
  /\ mapM py_int args = Ok (_size self)
  /\ reduce_mul (_size self) = Ok (_count self)
  /\ func_pts_init cfg (_count self) kwargs = Ok (_pts self, _ptsd self).
Proof.
  unfold __init__. intros H.
  destruct (mapM py_int args) as [sz|]; [|discriminate]. cbn in H.
  destruct (reduce_mul sz) as [c|] eqn:Hc; [|discriminate]. cbn in H.
  destruct (func_pts_init cfg c kwargs) as [[pts ptsd]|] eqn:Hi; [|discriminate].
  cbn in H. simplify_eq. cbn. repeat split; assumption.
Qed.

(** Every state of a manager comes from its constructed state by methods
    that keep the shape. *)
Lemma reachable_same_shape args kwargs self :
  reachable args kwargs default_config self ->
  exists self0,
    __init__ args kwargs default_config = Ok self0 /\ same_shape self0 self.
Proof.
  induction 1 as
    [self Hinit|key value self _ IH|p coords self _ IH|value self _ IH
    |value self _ IH|adct coords self _ IH|kw self _ IH|self _ IH];
    [exists self; split; [exact Hinit | apply same_shape_refl]|..];
    destruct IH as (s0 & H0 & Hs); exists s0; (split; [exact H0|]);
    (eapply same_shape_trans; [exact Hs|]);
    pose proof (init_fields _ _ _ _ H0) as (Hc0 & _);
    assert (Hc : _cfg self = default_config)
      by (destruct Hs as (-> & _); exact Hc0).
  - apply setitem_same_shape. rewrite Hc. reflexivity.
  - apply set_pt_same_shape. rewrite Hc. reflexivity.
  - apply points_setter_same_shape. rewrite Hc. reflexivity.
  - apply call_same_shape. rewrite Hc. reflexivity.
  - apply set_ptdata_same_shape.
  - apply reset_same_shape.
  - repeat split.
Qed.

(** X1: in every state of a manager built with the default functions the
    sizes and the count are those computed at construction, and the point
    container and every attached-data array have [max(count, 0)] entries:
    [count] entries when the count is not negative, none when it is
    negative, whatever methods were called and whether they raised. *)
Theorem storage_shape_invariant args kwargs self :
  reachable args kwargs default_config self ->
  mapM py_int args = Ok (size self)
  /\ reduce_mul (size self) = Ok (count self)
  /\ len (points self) = Z.max 0 (count self)
  /\ (forall k arr, points_data self !! k = Some arr ->
                    len arr = Z.max 0 (count self))
  /\ (0 <= count self ->
      len (points self) = count self
      /\ forall k arr, points_data self !! k = Some arr ->
                       len arr = count self)
  /\ (count self < 0 ->
      points self = []
      /\ forall k arr, points_data self !! k = Some arr -> arr = []).
Proof.
  intros Hreach.
  destruct (reachable_same_shape _ _ _ Hreach)
    as (s0 & H0 & (_ & Hsz & Hcnt & Hpts & Hdata)).
  destruct (init_fields _ _ _ _ H0) as (_ & Hargs & Hred & Hinit).
  unfold size, count, points, points_data. rewrite Hsz, Hcnt.
  cbn in Hinit. inversion Hinit as [[Hp Hd]].
  assert (Hlp : length (_pts self) = Z.to_nat (_count s0))
    by (rewrite Hpts, <- Hp; apply length_replicate).
  assert (Hld : forall k arr, _ptsd self !! k = Some arr ->
                              length arr = Z.to_nat (_count s0)).
  { intros k arr Hk. specialize (Hdata k). rewrite Hk in Hdata. cbn in Hdata.
    destruct (_ptsd s0 !! k) as [arr0|] eqn:Hk0; [|discriminate].
    cbn in Hdata. injection Hdata as ->. rewrite <- Hd in Hk0.
    eapply init_data_lengths; [|exact Hk0].
    intros arr'. rewrite lookup_empty. discriminate. }
  split; [exact Hargs|]. split; [exact Hred|].
  split; [unfold len; lia|].
  split; [intros k arr Hk; specialize (Hld k arr Hk); unfold len; lia|].
  split.
  - intros Hc. split; [unfold len; lia|].
    intros k arr Hk. specialize (Hld k arr Hk). unfold len. lia.
  - intros Hc. split.
    + apply length_zero_iff_nil. lia.
    + intros k arr Hk. specialize (Hld k arr Hk).
      apply length_zero_iff_nil. lia.
Qed.

Lemma storage_shape_invariant_witness :
  (exists cm,
      __init__ [VInt 2; VInt 3] [("weight"%string, 1)] default_config = Ok cm
      /\ len (points (set_ptdata [("weight"%string, VNone)] [5; 5]
                        (__setitem__ (KInt 9) (VSeq [VInt 1]) cm).2).2)
         = 6)
  /\ (exists cm,
        __init__ [VInt 3; VInt (-1)] [("weight"%string, 1)] default_config
        = Ok cm
        /\ count cm = -3
        /\ points (__setitem__ (KInt 0) (VSeq [VInt 1]) cm).2 = []).
Proof.
  split.
  - eexists. split; [reflexivity|].
    match goal with
    | |- len (points ?s) = _ =>
        destruct (storage_shape_invariant
                    [VInt 2; VInt 3] [("weight"%string, 1)] s)
          as (_ & _ & H & _);
          [apply reach_set_ptdata, reach_setitem, reach_init; reflexivity|];
          rewrite H; reflexivity
    end.
  - eexists. split; [reflexivity|]. split; [reflexivity|].
    match goal with
    | |- points ?s = _ =>
        destruct (storage_shape_invariant
                    [VInt 3; VInt (-1)] [("weight"%string, 1)] s)
          as (_ & _ & _ & _ & _ & H);
          [apply reach_setitem, reach_init; reflexivity|];
          apply H; vm_compute; reflexivity
    end.
Defined.

End StorageShape.

(** ** The manager: assigning and reading points *)

Section PointRoundTrip.

Implicit Types (self : CPManager).

Lemma getitem_resolved key self idx :
  resolve_key key self = Some idx ->
  __getitem__ key self = getitem (_pts self) idx.
Proof.
  destruct key as [i|t|]; cbn; [congruence| |discriminate].
  destruct (len t =? len (size self)); [|discriminate].
  cbn. congruence.
Qed.

(** A successful assignment with the default single-point function wrote
    the converted point at the resolved index and nothing else. *)
Lemma setitem_ok_inv key v self self' :
  func_pt_set (_cfg self) = default_ctrlpt_set ->
  __setitem__ key (VSeq v) self = (Ok (), self') ->
  exists idx t,
    resolve_key key self = Some idx
    /\ mapM GeomdlFloat v = Ok t
    /\ setitem (_pts self) idx t = Ok (_pts self')
    /\ _cfg self' = _cfg self /\ _size self' = _size self.
Proof.
  intros Hcfg. unfold __setitem__.
  set (self1 := if dimension self <? 1 then set_dimension (len v) self else self).
  assert (H1 : _cfg self1 = _cfg self /\ _size self1 = _size self
               /\ _pts self1 = _pts self)
    by (unfold self1; destruct (dimension self <? 1); repeat split).
  destruct H1 as (Hc1 & Hs1 & Hp1).
  destruct (negb (len v =? dimension self1)); [discriminate|].
  assert (Hset : forall idx,
    match func_pt_set (_cfg self1) (_pts self1) idx v with
    | (Ok _, pts) => (Ok (), set_is_changed true (set_pts pts self1))
    | (Raise e, pts) => (Raise e, set_pts pts self1)
    end = (Ok (), self') ->
    exists t, mapM GeomdlFloat v = Ok t
              /\ setitem (_pts self) idx t = Ok (_pts self')
              /\ _cfg self' = _cfg self /\ _size self' = _size self).
  { intros idx. rewrite Hc1, Hcfg, Hp1. unfold default_ctrlpt_set.
    destruct (mapM GeomdlFloat v) as [t|]; [|discriminate].
    destruct (setitem (_pts self) idx t) as [pts'|] eqn:Hs; [|discriminate].
    intros [= <-]. exists t. cbn. repeat split; assumption. }
  destruct key as [k|c|]; [| |discriminate].
  - intros H. destruct (Hset k H) as (t & ?). exists k, t. split; [reflexivity|].
    assumption.
  - unfold resolve_key, size. rewrite <- Hc1, <- Hs1.
    destruct (len c =? len (_size self1)); [|discriminate]. cbn.
    intros H. destruct (Hset _ H) as (t & Ht & Hs & Hc & Hz). eexists _, t.
    split; [reflexivity|]. repeat split; try assumption; congruence.
Qed.

(** X2: a point assigned with success through [self[key] = value] or
    [set_pt] is read back by [self[key]] or [pt] at the same subscript, as
    the tuple of its coordinates converted to floats. *)
Theorem setitem_then_getitem :
  (forall key v self self',
      func_pt_set (_cfg self) = default_ctrlpt_set ->
      __setitem__ key (VSeq v) self = (Ok (), self') ->
      exists t, mapM GeomdlFloat v = Ok t /\ __getitem__ key self' = Ok t)
  /\ (forall v coords self self',
        func_pt_set (_cfg self) = default_ctrlpt_set ->
        set_pt (VSeq v) coords self = (Ok (), self') ->
        exists t, mapM GeomdlFloat v = Ok t /\ pt coords self' = Ok t).
Proof.
  assert (Hfirst : forall key v self self',
      func_pt_set (_cfg self) = default_ctrlpt_set ->
      __setitem__ key (VSeq v) self = (Ok (), self') ->
      exists t, mapM GeomdlFloat v = Ok t /\ __getitem__ key self' = Ok t).
  { intros key v self self' Hcfg H.
    destruct (setitem_ok_inv _ _ _ _ Hcfg H) as (idx & t & Hk & Ht & Hs & Hc & Hz).
    exists t. split; [exact Ht|].
    assert (Hk' : resolve_key key self' = Some idx).
    { destruct key as [i|c|]; cbn in *; [exact Hk| |discriminate].
      unfold size in *. rewrite Hc, Hz. exact Hk. }
    rewrite (getitem_resolved _ _ _ Hk'). eapply getitem_setitem, Hs. }
  split; [exact Hfirst|].
  intros v coords self self' Hcfg. unfold set_pt, pt.
  destruct (__setitem__ (KTuple coords) (VSeq v) self) as [[[]|e] s1] eqn:Hs;
    [|discriminate].
  intros [= <-]. destruct (Hfirst _ _ _ _ Hcfg Hs) as (t & Ht & Hg).
  exists t. split; [exact Ht|]. exact Hg.
Qed.

Lemma setitem_then_getitem_witness :
  exists cm,
    __init__ [VInt 2; VInt 2] [] default_config = Ok cm
    /\ pt [1; 1] (set_pt (VSeq [VInt 1; VFloat Float64.tenth]) [1; 1] cm).2
       = Ok [Float64.one; Float64.tenth].
Proof.
  destruct setitem_then_getitem as [_ Hpt].
  eexists. split; [reflexivity|].
  match goal with
  | |- pt ?c (set_pt (VSeq ?v) ?c ?cm).2 = _ =>
      destruct (Hpt v c cm (set_pt (VSeq v) c cm).2 eq_refl eq_refl)
        as (t & Ht & Hg)
  end.
  rewrite Hg. vm_compute in Ht. injection Ht as <-. reflexivity.
Defined.

End PointRoundTrip.

Section PointFrame.

Implicit Types (self : CPManager).

(** The stored points after an assignment with the default single-point
    function, whether it returned or raised: those of before, or those of
    before with one slot written. *)
Lemma setitem_pts key value self :
  func_pt_set (_cfg self) = default_ctrlpt_set ->
  _pts (__setitem__ key value self).2 = _pts self
  \/ exists idx t,
       resolve_key key self = Some idx
       /\ setitem (_pts self) idx t = Ok (_pts (__setitem__ key value self).2).
Proof.
  intros Hcfg. unfold __setitem__.
  destruct value as [| | |v]; try (left; reflexivity).
  set (self1 := if dimension self <? 1 then set_dimension (len v) self else self).
  assert (H1 : _cfg self1 = _cfg self /\ _size self1 = _size self
               /\ _pts self1 = _pts self)
    by (unfold self1; destruct (dimension self <? 1); repeat split).
  destruct H1 as (Hc1 & Hs1 & Hp1).
  destruct (negb (len v =? dimension self1)); [left; exact Hp1|].
  assert (Hset : forall idx,
    let r := match func_pt_set (_cfg self1) (_pts self1) idx v with
             | (Ok _, pts) => (Ok (), set_is_changed true (set_pts pts self1))
             | (Raise e, pts) => (Raise e, set_pts pts self1)
             end in
    _pts r.2 = _pts self
    \/ exists t, setitem (_pts self) idx t = Ok (_pts r.2)).
  { intros idx. rewrite Hc1, Hcfg, Hp1. unfold default_ctrlpt_set.
    destruct (mapM GeomdlFloat v) as [t|]; [|left; reflexivity].
    destruct (setitem (_pts self) idx t) as [pts'|] eqn:Hs; [|left; reflexivity].
    right. exists t. exact Hs. }
  destruct key as [k|c|]; [| |left; exact Hp1].
  - destruct (Hset k) as [H|(t & H)]; [left; exact H|].
    right. exists k, t. split; [reflexivity | exact H].
  - unfold resolve_key, size. rewrite <- Hc1, <- Hs1.
    destruct (len c =? len (_size self1)); [|left; exact Hp1]. cbn.
    destruct (Hset (func_find_index (_cfg self1) (_size self1) c))
      as [H|(t & H)]; [left; exact H|].
    right. eexists _, t. split; [reflexivity | exact H].
Qed.

Lemma set_pt_pts p coords self :
  _pts (set_pt p coords self).2 = _pts (__setitem__ (KTuple coords) p self).2.
Proof.
  unfold set_pt. destruct (__setitem__ (KTuple coords) p self) as [[[]|e] s1];
    reflexivity.
Qed.

Lemma in_shape_index size coords :
  in_shape size coords ->
  len coords = len size
  /\ default_find_index size coords = horner size coords
  /\ 0 <= horner size coords.
Proof.
  intros Hin. pose proof (Forall2_length _ _ _ Hin) as Hlen.
  split; [unfold len; lia|].
  split; [rewrite default_find_index_sum; apply spec_index_horner, Hlen|].
  apply horner_range, Hin.
Qed.

(** X3: with the default index mapper and single-point function,
    [set_pt] at a coordinate tuple of the shape leaves the point at every
    other coordinate tuple of the shape as it was, whether it returns or
    raises. *)
Theorem set_pt_leaves_other_points p c1 c2 self :
  func_pt_set (_cfg self) = default_ctrlpt_set ->
  func_find_index (_cfg self) = default_find_index ->
  in_shape (size self) c1 -> in_shape (size self) c2 -> c1 <> c2 ->
  pt c2 (set_pt p c1 self).2 = pt c2 self.
Proof.
  intros Hset Hfind H1 H2 Hne.
  destruct (set_pt_same_shape p c1 self Hset) as (Hc & Hs & _).
  destruct (in_shape_index _ _ H1) as (Hl1 & Hi1 & Hp1).
  destruct (in_shape_index _ _ H2) as (Hl2 & Hi2 & Hp2).
  assert (Hk : forall s, _cfg s = _cfg self -> _size s = _size self ->
                 resolve_key (KTuple c2) s = Some (horner (size self) c2)).
  { intros s Hcs Hss. unfold resolve_key, size. rewrite Hcs, Hss, Hfind.
    fold (size self). rewrite Hi2.
    replace (len c2 =? len (size self)) with true
      by (symmetry; apply Z.eqb_eq; exact Hl2).
    reflexivity. }
  unfold pt.
  rewrite (getitem_resolved _ _ _ (Hk _ Hc Hs)).
  rewrite (getitem_resolved _ _ _ (Hk self eq_refl eq_refl)).
  rewrite set_pt_pts.
  destruct (setitem_pts (KTuple c1) p self Hset) as [->|(idx & t & Hr & Hw)];
    [reflexivity|].
  assert (Hidx : idx = horner (size self) c1).
  { unfold resolve_key in Hr.
    destruct (len c1 =? len (size self)); [|discriminate].
    rewrite Hfind, Hi1 in Hr. congruence. }
  subst idx. eapply getitem_setitem_other; [exact Hw|].
  intros Heq.
  assert (Hh : horner (size self) c1 <> horner (size self) c2)
    by (intros E; apply Hne; eapply horner_inj; eassumption).
  apply setitem_Ok in Hw as (j & Hj & _). rewrite Hj in Heq.
  apply norm_index_Some in Hj as [_ Hj], Heq as [_ Heq].
  replace (horner (size self) c1 <? 0) with false in Hj
    by (symmetry; apply Z.ltb_ge; lia).
  replace (horner (size self) c2 <? 0) with false in Heq
    by (symmetry; apply Z.ltb_ge; lia).
  lia.
Qed.

Lemma set_pt_leaves_other_points_witness :
  exists cm,
    __init__ [VInt 2; VInt 3] [] default_config = Ok cm
    /\ pt [0; 2] (set_pt (VSeq [VInt 1]) [1; 1]
                    (set_pt (VSeq [VInt 7]) [0; 2] cm).2).2
       = Ok [S754_finite false 7881299347898368 (-50)].
Proof.
  eexists. split; [reflexivity|].
  rewrite set_pt_leaves_other_points;
    [reflexivity | reflexivity | reflexivity
    | repeat constructor; lia | repeat constructor; lia | discriminate].
Defined.

(** X4: [__setitem__] infers the dimension before it looks at the key: an
    assignment that raises on its key (a tuple of the wrong arity, a key
    that is neither an integer nor a tuple) has already set the dimension to
    the length of its point, and, when that point is not empty, a later
    assignment of a point of another length raises [ValueError]. *)
Theorem failed_key_still_infers_dimension :
  (forall t v self,
      dimension self < 1 -> len t <> len (size self) ->
      __setitem__ (KTuple t) (VSeq v) self
      = (Raise ValueError, set_dimension (len v) self))
  /\ (forall v self,
        dimension self < 1 ->
        __setitem__ KOther (VSeq v) self
        = (Raise TypeError, set_dimension (len v) self))
  /\ (forall key key' v v' self,
        dimension self < 1 -> resolve_key key self = None ->
        1 <= len v -> len v' <> len v ->
        (__setitem__ key' (VSeq v') (__setitem__ key (VSeq v) self).2).1
        = Raise ValueError).
Proof.
  assert (Hpre : forall (v : list pyval) self, dimension self < 1 ->
            (dimension self <? 1) = true
            /\ negb (len v =? dimension (set_dimension (len v) self)) = false).
  { intros v self Hd. split; [apply Z.ltb_lt; exact Hd|].
    apply negb_false_iff, Z.eqb_eq. reflexivity. }
  assert (Htuple : forall t v self,
      dimension self < 1 -> len t <> len (size self) ->
      __setitem__ (KTuple t) (VSeq v) self
      = (Raise ValueError, set_dimension (len v) self)).
  { intros t v self Hd Hne. unfold __setitem__.
    destruct (Hpre v self Hd) as [-> ->].
    replace (len t =? len (size (set_dimension (len v) self))) with false
      by (symmetry; apply Z.eqb_neq; exact Hne).
    reflexivity. }
  assert (Hother : forall v self,
      dimension self < 1 ->
      __setitem__ KOther (VSeq v) self
      = (Raise TypeError, set_dimension (len v) self)).
  { intros v self Hd. unfold __setitem__.
    destruct (Hpre v self Hd) as [-> ->]. reflexivity. }
  split; [exact Htuple|]. split; [exact Hother|].
  intros key key' v v' self Hd Hk Hv Hne.
  assert (Hs : (__setitem__ key (VSeq v) self).2 = set_dimension (len v) self).
  { destruct key as [i|t|]; cbn in Hk; [discriminate| |].
    - destruct (len t =? len (size self)) eqn:E; [discriminate|].
      apply Z.eqb_neq in E. rewrite (Htuple _ _ _ Hd E). reflexivity.
    - rewrite (Hother _ _ Hd). reflexivity. }
  rewrite Hs. rewrite setitem_rejects; [reflexivity| |]; cbn; lia.
Qed.

Lemma failed_key_still_infers_dimension_witness :
  exists cm,
    __init__ [VInt 2; VInt 2] [] default_config = Ok cm
    /\ (__setitem__ (KTuple [0; 0]) (VSeq [VInt 1; VInt 2])
          (__setitem__ (KTuple [0; 0; 0]) (VSeq [VInt 1; VInt 2; VInt 3]) cm).2).1
       = Raise ValueError.
Proof.
  destruct failed_key_still_infers_dimension as (_ & _ & H).
  eexists. split; [reflexivity|].
  apply H; [vm_compute; reflexivity | reflexivity | vm_compute; discriminate
           | vm_compute; discriminate].
Defined.

End PointFrame.

(** ** The manager: bulk assignment *)

Section BulkAssignment.

Implicit Types (self : CPManager).

Lemma setitem_middle {A} (pre post : list A) (o x : A) :
  setitem (pre ++ o :: post) (len pre) x = Ok (pre ++ x :: post).
Proof.
  unfold setitem, norm_index, len.
  replace (Z.of_nat (length pre) <? 0) with false
    by (symmetry; apply Z.ltb_ge; lia).
  replace (0 <=? Z.of_nat (length pre)) with true
    by (symmetry; apply Z.leb_le; lia).
  replace (Z.of_nat (length pre) <? Z.of_nat (length (pre ++ o :: post)))
    with true
    by (symmetry; apply Z.ltb_lt; rewrite length_app; cbn; lia).
  cbn. rewrite Nat2Z.id. f_equal.
  rewrite insert_app_r_alt by lia. rewrite Nat.sub_diag. reflexivity.
Qed.

(** The loop writes a run of accepted points into the slots it passes and
    goes on with the rest of the input. *)
Lemma ctrlpts_set_loop_prefix dim vs ts :
  Forall2 (good_point dim) vs ts ->
  forall rest pre old post,
    length old = length vs ->
    ctrlpts_set_loop (len pre) (vs ++ rest) dim (pre ++ old ++ post)
    = ctrlpts_set_loop (len pre + len vs) rest dim (pre ++ ts ++ post).
Proof.
  induction 1 as [|v t vs ts (c & -> & Hc & Ht) _ IH];
    intros rest pre old post Hlen.
  - destruct old; [|discriminate]. cbn. rewrite Z.add_0_r. reflexivity.
  - destruct old as [|o old]; [discriminate|]. cbn.
    replace (len c =? dim) with true by (symmetry; apply Z.eqb_eq; exact Hc).
    cbn. unfold default_ctrlpt_set. rewrite Ht, setitem_middle.
    replace (pre ++ t :: old ++ post) with ((pre ++ [t]) ++ old ++ post)
      by (rewrite <- app_assoc; reflexivity).
    replace (len pre + 1) with (len (pre ++ [t]))
      by (unfold len; rewrite length_app; cbn; lia).
    rewrite IH by (cbn in Hlen; lia).
    f_equal.
    + unfold len. rewrite length_app. cbn. lia.
    + rewrite <- app_assoc. reflexivity.
Qed.

Lemma ctrlpts_set_loop_all dim vs ts pts :
  Forall2 (good_point dim) vs ts ->
  (length vs <= length pts)%nat ->
  ctrlpts_set_loop 0 vs dim pts = (Ok (), ts ++ drop (length vs) pts).
Proof.
  intros Hgood Hlen.
  pose proof (ctrlpts_set_loop_prefix dim vs ts Hgood []
                [] (take (length vs) pts) (drop (length vs) pts)) as H.
  rewrite app_nil_r in H. cbn [app] in H. rewrite take_drop in H.
  change (len (@nil point)) with 0 in H.
  rewrite H by (rewrite length_take; lia). reflexivity.
Qed.

(** X5: in every state of a default manager, assigning [count >= 1] points
    of one length [d >= 1] whose coordinates convert to floats succeeds when no
    dimension is set or the dimension is [d]; afterwards the stored points
    are the converted points, the dimension is [d], the change flag is set
    and the attached data are untouched. *)
Theorem points_setter_round_trip args kwargs self vs ts d :
  reachable args kwargs default_config self ->
  len vs = count self -> vs <> [] -> 1 <= d ->
  dimension self < 1 \/ dimension self = d ->
  Forall2 (good_point d) vs ts ->
  exists self',
    points_setter (VSeq vs) self = (Ok (), self')
    /\ points self' = ts /\ dimension self' = d /\ is_changed self' = true
    /\ points_data self' = points_data self.
Proof.
  intros Hreach Hcount Hne Hd Hdim Hgood.
  destruct (reachable_same_shape _ _ _ Hreach) as (s0 & H0 & (Hc & _ & Hcnt & Hp & _)).
  destruct (init_fields _ _ _ _ H0) as (Hc0 & _ & _ & Hinit).
  assert (Hcfg : _cfg self = default_config) by congruence.
  assert (Hlen : length (_pts self) = length vs).
  { rewrite Hp. cbn in Hinit. inversion Hinit as [[Hpts Hdata]].
    rewrite length_replicate, <- Hcnt. fold (count self). rewrite <- Hcount.
    unfold len. lia. }
  assert (Hrun : forall self1,
            _cfg self1 = _cfg self -> _pts self1 = _pts self ->
            dimension self1 = d ->
            match func_pts_set (_cfg self1) vs (dimension self1) (_pts self1) with
            | (Ok _, pts) => (Ok (), set_is_changed true (set_pts pts self1))
            | (Raise e, pts) => (Raise e, set_pts pts self1)
            end = (Ok (), set_is_changed true (set_pts ts self1))).
  { intros self1 Hc1 Hp1 Hd1. rewrite Hc1, Hcfg, Hp1, Hd1. cbn.
    unfold default_ctrlpts_set.
    rewrite (ctrlpts_set_loop_all d vs ts (_pts self) Hgood) by lia.
    rewrite <- Hlen, drop_all, app_nil_r. reflexivity. }
  unfold points_setter.
  replace (len vs =? count self) with true
    by (symmetry; apply Z.eqb_eq; exact Hcount).
  cbn [negb].
  destruct (dimension self <? 1) eqn:Hlt.
  - destruct Hgood as [|v t vs' ts' (c & -> & Hlc & Ht) Hrest]; [congruence|].
    rewrite (Hrun (set_dimension (len c) self)); [|reflexivity|reflexivity|exact Hlc].
    eexists. split; [reflexivity|]. repeat split. exact Hlc.
  - destruct Hdim as [Hlt'|Heq]; [apply Z.ltb_ge in Hlt; lia|].
    rewrite (Hrun self eq_refl eq_refl Heq).
    eexists. split; [reflexivity|]. repeat split. exact Heq.
Qed.

Lemma points_setter_round_trip_witness :
  exists cm cm',
    __init__ [VInt 2; VInt 1] [] default_config = Ok cm
    /\ points_setter (VSeq [VSeq [VInt 1; VInt 0]; VSeq [VInt 0; VInt 1]]) cm
       = (Ok (), cm')
    /\ points cm' = [[Float64.one; Float64.zero]; [Float64.zero; Float64.one]].
Proof.
  eexists.
  match goal with
  | |- exists cm', __init__ ?a ?k ?c = Ok ?cm /\ _ =>
      assert (Hr : reachable a k c cm) by (apply reach_init; reflexivity);
      destruct (points_setter_round_trip a k cm
                  [VSeq [VInt 1; VInt 0]; VSeq [VInt 0; VInt 1]]
                  [[Float64.one; Float64.zero]; [Float64.zero; Float64.one]]
                  2 Hr eq_refl ltac:(discriminate) ltac:(lia)
                  ltac:(left; vm_compute; reflexivity)
                  ltac:(repeat constructor; eexists;
                        (split; [reflexivity|]); split; reflexivity))
        as (cm' & Hset & Hpts & _)
  end.
  exists cm'. split; [reflexivity|]. split; [exact Hset | exact Hpts].
Defined.

(** X6: a bulk assignment stops at the first element that is no sequence
    or has the wrong length and raises [GeomdlError]; the points before it
    are written, the slots from it on keep their points, and the change
    flag is not touched. *)
Theorem points_setter_fails_fast self accepted ts bad rest :
  func_pts_set (_cfg self) = default_ctrlpts_set ->
  1 <= dimension self ->
  len (accepted ++ bad :: rest) = count self ->
  (length accepted < length (_pts self))%nat ->
  Forall2 (good_point (dimension self)) accepted ts ->
  (forall c, bad = VSeq c -> len c <> dimension self) ->
  points_setter (VSeq (accepted ++ bad :: rest)) self
  = (Raise GeomdlError,
     set_pts (ts ++ drop (length accepted) (_pts self)) self).
Proof.
  intros Hcfg Hd Hcount Hlen Hgood Hbad. unfold points_setter.
  replace (len (accepted ++ bad :: rest) =? count self) with true
    by (symmetry; apply Z.eqb_eq; exact Hcount).
  cbn [negb].
  replace (dimension self <? 1) with false by (symmetry; apply Z.ltb_ge; lia).
  rewrite Hcfg. unfold default_ctrlpts_set.
  pose proof (ctrlpts_set_loop_prefix (dimension self) accepted ts Hgood
                (bad :: rest) [] (take (length accepted) (_pts self))
                (drop (length accepted) (_pts self))) as H.
  cbn [app] in H. rewrite take_drop in H.
  change (len (@nil point)) with 0 in H.
  rewrite H by (rewrite length_take; lia).
  cbn. destruct bad as [| | |c]; try reflexivity.
  replace (len c =? dimension self) with false
    by (symmetry; apply Z.eqb_neq; apply Hbad; reflexivity).
  reflexivity.
Qed.

Lemma points_setter_fails_fast_witness :
  exists cm,
    __init__ [VInt 2] [] default_config = Ok cm
    /\ points_setter (VSeq [VSeq [VInt 1]; VSeq []])
         (__setitem__ (KInt 1) (VSeq [VInt 0]) cm).2
       = (Raise GeomdlError,
          set_pts [[Float64.one]; [Float64.zero]]
            (__setitem__ (KInt 1) (VSeq [VInt 0]) cm).2).
Proof.
  eexists. split; [reflexivity|].
  match goal with
  | |- points_setter _ ?s = _ =>
      pose proof (points_setter_fails_fast s [VSeq [VInt 1]] [[Float64.one]]
                    (VSeq []) [] eq_refl
                    ltac:(vm_compute; discriminate) eq_refl
                    ltac:(vm_compute; lia)
                    ltac:(repeat constructor; eexists;
                          (split; [reflexivity|]); split; reflexivity)
                    ltac:(intros c [= <-]; vm_compute; discriminate)) as H
  end.
  cbn [app] in H. rewrite H. reflexivity.
Defined.

End BulkAssignment.

(** ** The manager: writing attached data *)

Section AttachedDataWrites.

Implicit Types (self : CPManager) (d : gmap string (list pyval)).


Lemma set_ptdata_loop_scalar idx k val self arr arr' :
  is_scalar val ->
  _ptsd self !! k = Some arr ->
  setitem arr idx val = Ok arr' ->
  set_ptdata_loop idx [(k, val)] self
  = (Ok (), set_is_changed true (set_ptsd (<[k := arr']> (_ptsd self)) self)).
Proof.
  intros Hsc Hk Hs. cbn.
  rewrite bool_decide_true by (rewrite Hk; eauto).
  unfold ptsd_set_entry, dict_getitem. rewrite Hk. cbn. rewrite Hs. cbn.
  destruct val; try reflexivity. destruct Hsc.
Qed.

Lemma ptdata_lookup dkey coords self arr :
  _ptsd self !! dkey = Some arr ->
  forall v,
    getitem arr (func_find_index (_cfg self) (size self) coords) = Ok v ->
    ptdata dkey coords self = Ok v.
Proof.
  intros Hk v Hg. unfold ptdata, dict_getitem. rewrite Hk. cbn.
  rewrite Hg. reflexivity.
Qed.

(** X7: a value that is no sequence, attached with success under one key,
    is what [ptdata] returns for that key at the same coordinates; the data
    of the other keys and the points are unchanged. *)
Theorem set_ptdata_then_ptdata k val coords self self' :
  is_scalar val ->
  set_ptdata [(k, val)] coords self = (Ok (), self') ->
  ptdata k coords self' = Ok val
  /\ (forall k', k' <> k -> points_data self' !! k' = points_data self !! k')
  /\ points self' = points self.
Proof.
  intros Hsc. unfold set_ptdata.
  set (idx := func_find_index (_cfg self) (size self) coords).
  destruct (_ptsd self !! k) as [arr|] eqn:Hk.
  - destruct (setitem arr idx val) as [arr'|] eqn:Hs.
    + rewrite (set_ptdata_loop_scalar idx k val self arr arr' Hsc Hk Hs).
      intros [= <-]. split; [|split].
      * eapply ptdata_lookup; [cbn; apply lookup_insert_eq|].
        cbn. fold idx. eapply getitem_setitem, Hs.
      * intros k' Hne. cbn. apply lookup_insert_ne. congruence.
      * reflexivity.
    + cbn. rewrite bool_decide_true by (rewrite Hk; eauto).
      unfold ptsd_set_entry, dict_getitem. rewrite Hk. cbn. rewrite Hs. cbn.
      destruct val; try discriminate; try (destruct e; discriminate);
        try destruct Hsc.
      all: unfold setitem in Hs;
        destruct (norm_index (len arr) idx); discriminate.
  - cbn. rewrite bool_decide_false by (rewrite Hk; intros [? ?]; discriminate).
    discriminate.
Qed.

Lemma set_ptdata_then_ptdata_witness :
  exists cm,
    __init__ [VInt 2; VInt 2] [("weight"%string, 1)] default_config = Ok cm
    /\ ptdata "weight" [1; 1]
         (set_ptdata [("weight"%string, VFloat Float64.tenth)] [1; 1] cm).2
       = Ok (VFloat Float64.tenth).
Proof.
  eexists. split; [reflexivity|].
  match goal with
  | |- ptdata ?k ?c (set_ptdata [(?k, ?v)] ?c ?cm).2 = _ =>
      apply (set_ptdata_then_ptdata k v c cm
               (set_ptdata [(k, v)] c cm).2 I eq_refl)
  end.
Defined.

Lemma set_ptsd_id self : set_ptsd (_ptsd self) self = self.
Proof. destruct self. reflexivity. Qed.

(** X8: [set_ptdata] raises [GeomdlError] and changes nothing when its
    first key was not declared, and when the index is out of the range of
    the array of a declared key and the value is a scalar or a non-empty
    sequence (the [IndexError] is converted); it raises
    [TypeError], unconverted, when a sequence is attached where a scalar is
    stored. *)
Theorem set_ptdata_rejects k val rest coords self :
  let idx := func_find_index (_cfg self) (size self) coords in
  (points_data self !! k = None ->
   set_ptdata ((k, val) :: rest) coords self = (Raise GeomdlError, self))
  /\ (forall arr,
        points_data self !! k = Some arr ->
        norm_index (len arr) idx = None ->
        is_scalar val \/ (exists v vs, val = VSeq (v :: vs)) ->
        set_ptdata ((k, val) :: rest) coords self = (Raise GeomdlError, self))
  /\ (forall arr elt v vs,
        points_data self !! k = Some arr ->
        getitem arr idx = Ok elt -> is_scalar elt -> val = VSeq (v :: vs) ->
        set_ptdata ((k, val) :: rest) coords self = (Raise TypeError, self)).
Proof.
  intros idx. unfold points_data, set_ptdata. fold idx.
  split; [|split].
  - intros Hk. cbn.
    rewrite bool_decide_false by (rewrite Hk; intros [? ?]; discriminate).
    reflexivity.
  - intros arr Hk Hout Hval. cbn.
    rewrite bool_decide_true by (rewrite Hk; eauto).
    destruct Hval as [Hsc|(v & vs & ->)].
    + unfold ptsd_set_entry, dict_getitem, setitem. rewrite Hk. cbn.
      rewrite Hout. cbn.
      destruct val; try (rewrite set_ptsd_id; reflexivity). destruct Hsc.
    + cbn. unfold ptsd_set_component, dict_getitem, getitem. rewrite Hk. cbn.
      rewrite Hout. cbn. rewrite set_ptsd_id. reflexivity.
  - intros arr elt v vs Hk Hg Hsc ->. cbn.
    rewrite bool_decide_true by (rewrite Hk; eauto).
    unfold ptsd_set_component, dict_getitem. rewrite Hk. cbn. rewrite Hg. cbn.
    destruct elt; try (rewrite set_ptsd_id; reflexivity). destruct Hsc.
Qed.

Lemma set_ptdata_rejects_witness :
  exists cm,
    __init__ [VInt 2] [("weight"%string, 1)] default_config = Ok cm
    /\ set_ptdata [("normal"%string, VFloat Float64.one)] [0] cm
       = (Raise GeomdlError, cm)
    /\ set_ptdata [("weight"%string, VFloat Float64.one)] [2] cm
       = (Raise GeomdlError, cm)
    /\ set_ptdata [("weight"%string, VSeq [VFloat Float64.one])] [0] cm
       = (Raise TypeError, cm).
Proof.
  eexists. split; [reflexivity|].
  split; [|split].
  - match goal with
    | |- set_ptdata [(?k, ?v)] ?c ?cm = _ =>
        apply (set_ptdata_rejects k v [] c cm); reflexivity
    end.
  - match goal with
    | |- set_ptdata [(?k, ?v)] ?c ?cm = _ =>
        destruct (set_ptdata_rejects k v [] c cm) as (_ & H & _);
        eapply H; [reflexivity | reflexivity | left; exact I]
    end.
  - match goal with
    | |- set_ptdata [(?k, ?v)] ?c ?cm = _ =>
        destruct (set_ptdata_rejects k v [] c cm) as (_ & _ & H);
        eapply H; [reflexivity | reflexivity | exact I | reflexivity]
    end.
Defined.



Lemma norm_index_nat (n : Z) (j : nat) :
  Z.of_nat j < n -> norm_index n (Z.of_nat j) = Some j.
Proof.
  intros Hj. unfold norm_index.
  replace (Z.of_nat j <? 0) with false by (symmetry; apply Z.ltb_ge; lia).
  replace (0 <=? Z.of_nat j) with true by (symmetry; apply Z.leb_le; lia).
  replace (Z.of_nat j <? n) with true by (symmetry; apply Z.ltb_lt; lia).
  cbn. rewrite Nat2Z.id. reflexivity.
Qed.

(** The component loop on a stored vector that is long enough: the
    components from [j] on are overwritten by the values, the others stay. *)
Lemma set_components_vector k idx p vs :
  forall (j : nat) d arr l,
    d !! k = Some arr ->
    norm_index (len arr) idx = Some p ->
    arr !! p = Some (VSeq l) ->
    (j + length vs <= length l)%nat ->
    set_components k idx (Z.of_nat j) vs d
    = (Ok (),
       <[k := <[p := VSeq (take j l ++ vs ++ drop (j + length vs) l)]> arr]> d).
Proof.
  induction vs as [|v vs IH]; intros j d arr l Hk Hp Hl Hlen.
  - cbn. rewrite Nat.add_0_r, take_drop.
    rewrite (list_insert_id _ _ _ Hl), (insert_id _ _ _ Hk). reflexivity.
  - cbn [set_components]. cbn [length] in Hlen.
    assert (Hplt : (p < length arr)%nat) by (eapply lookup_lt_Some, Hl).
    unfold ptsd_set_component, dict_getitem, getitem, setitem.
    rewrite Hk. cbn. rewrite Hp, Hl. cbn.
    rewrite (norm_index_nat (len l) j) by (unfold len; lia). cbn.
    replace (Z.of_nat j + 1) with (Z.of_nat (S j)) by lia.
    rewrite (IH (S j) _ (<[p := VSeq (<[j := v]> l)]> arr) (<[j := v]> l)).
    + f_equal. rewrite insert_insert_eq, list_insert_insert_eq.
      do 3 f_equal.
      rewrite (take_S_r _ _ v)
        by (apply list_lookup_insert_eq; lia).
      rewrite take_insert_ge by lia.
      rewrite drop_insert_lt by lia.
      rewrite <- app_assoc. cbn.
      replace (S (j + length vs)) with (j + S (length vs))%nat by lia.
      reflexivity.
    + apply lookup_insert_eq.
    + unfold len. rewrite length_insert. exact Hp.
    + apply list_lookup_insert_eq. exact Hplt.
    + rewrite length_insert. lia.
Qed.

(** X10: attaching a sequence to a stored vector of at least its length
    writes it component by component: the first components of the stored
    vector become the values, the remaining ones stay, and [ptdata] returns
    the resulting vector. *)
Theorem set_ptdata_vector k vs coords self arr p l :
  points_data self !! k = Some arr ->
  norm_index (len arr) (func_find_index (_cfg self) (size self) coords)
  = Some p ->
  arr !! p = Some (VSeq l) ->
  (length vs <= length l)%nat ->
  exists self',
    set_ptdata [(k, VSeq vs)] coords self = (Ok (), self')
    /\ ptdata k coords self' = Ok (VSeq (vs ++ drop (length vs) l))
    /\ is_changed self' = true.
Proof.
  intros Hk Hp Hl Hlen. unfold points_data in Hk. unfold set_ptdata.
  set (idx := func_find_index (_cfg self) (size self) coords) in *.
  cbn. rewrite bool_decide_true by (rewrite Hk; eauto).
  pose proof (set_components_vector k idx p vs 0 _ arr l Hk Hp Hl
                ltac:(cbn; lia)) as Hrun.
  change (Z.of_nat 0) with 0 in Hrun. rewrite Hrun.
  cbn. eexists. split; [reflexivity|]. split; [|reflexivity].
  eapply ptdata_lookup; [cbn; apply lookup_insert_eq|].
  cbn. unfold getitem, len. rewrite length_insert. fold (len arr).
  change (func_find_index (_cfg self) (_size self) coords) with idx.
  rewrite Hp, list_lookup_insert_eq by (eapply lookup_lt_Some, Hl).
  reflexivity.
Qed.

Lemma set_ptdata_vector_witness :
  exists cm,
    __init__ [VInt 2] [("normal"%string, 3)] default_config = Ok cm
    /\ ptdata "normal" [1]
         (set_ptdata [("normal"%string, VSeq [VInt 1; VInt 2])] [1] cm).2
       = Ok (VSeq [VInt 1; VInt 2; VFloat Float64.zero]).
Proof.
  eexists. split; [reflexivity|].
  match goal with
  | |- ptdata ?k ?c (set_ptdata [(?k, VSeq ?vs)] ?c ?cm).2 = _ =>
      destruct (set_ptdata_vector k vs c cm
                  [VSeq [VFloat Float64.zero; VFloat Float64.zero;
                         VFloat Float64.zero];
                   VSeq [VFloat Float64.zero; VFloat Float64.zero;
                         VFloat Float64.zero]]
                  1%nat
                  [VFloat Float64.zero; VFloat Float64.zero;
                   VFloat Float64.zero]
                  eq_refl eq_refl eq_refl ltac:(cbn; lia))
        as (cm' & Hset & Hget & _)
  end.
  rewrite Hset. exact Hget.
Defined.

End AttachedDataWrites.

(** ** utilities.py: more on the zig-zag *)

Section ZigzagMore.

Lemma zigzag_index_involutive (w k : Z) :
  0 < w -> 0 <= k -> zigzag_index w (zigzag_index w k) = k.
Proof.
  intros Hw Hk. unfold zigzag_index at 2.
  destruct (Z.even (k / w)) eqn:He.
  - unfold zigzag_index. rewrite He. reflexivity.
  - pose proof (Z.div_mod k w ltac:(lia)) as Hdm.
    pose proof (Z.mod_pos_bound k w Hw) as Hb.
    set (k' := k / w * w + (w - 1 - k mod w)).
    assert (Hq : k' / w = k / w)
      by (symmetry; apply (Z.div_unique _ _ _ (w - 1 - k mod w)); unfold k'; lia).
    assert (Hr : k' mod w = w - 1 - k mod w)
      by (symmetry; apply (Z.mod_unique _ _ (k / w)); unfold k'; lia).
    unfold zigzag_index. rewrite Hq, He, Hr. lia.
Qed.

Lemma zigzag_index_closed (n w k : Z) :
  0 < w -> zigzag_walkable n w -> 0 <= k < n -> 0 <= zigzag_index w k < n.
Proof.
  intros Hw Hwalk Hk. unfold zigzag_index.
  destruct (Z.even (k / w)) eqn:He; [lia|].
  pose proof (Z.div_mod k w ltac:(lia)) as Hdm.
  pose proof (Z.mod_pos_bound k w Hw) as Hb.
  pose proof (Z.div_mod n w ltac:(lia)) as Hdn.
  pose proof (Z.mod_pos_bound n w Hw) as Hbn.
  assert (Hq : 0 <= k / w) by (apply Z.div_pos; lia).
  assert (Hle : k / w <= n / w) by (apply Z.div_le_mono; lia).
  assert (Hlt : k / w < n / w).
  { destruct (decide (k / w = n / w)) as [Heq|]; [|lia].
    destruct Hwalk as [Hm|Hev]; [nia|]. rewrite Heq in He. congruence. }
  nia.
Qed.

(** The loop on a walkable sequence, from any round on. *)
Lemma zigzag_loop_walk {A} (points : list A) (w : Z) (n : nat) :
  0 < w -> zigzag_walkable (len points) w ->
  forall (acc : list A) (forward : bool) (idx rev_idx : Z),
    n = Z.to_nat (len points - idx) ->
    0 <= idx <= len points ->
    forward = Z.even (idx / w) ->
    (forward = false -> rev_idx = zigzag_index w idx) ->
    exists out,
      zigzag_loop points w acc forward idx rev_idx = Ok (acc ++ out)
      /\ length out = n
      /\ forall k : nat, (k < n)%nat ->
           out !! k = points !! Z.to_nat (zigzag_index w (idx + Z.of_nat k)).
Proof.
  intros Hw Hwalk.
  induction n as [|n IH]; intros acc forward idx rev_idx Hn Hidx Hfw Hrev.
  - exists []. rewrite zigzag_loop_equation_1.
    destruct (decide (idx < len points)) as [Hlt|Hge]; [lia|].
    simpl. rewrite app_nil_r. split; [reflexivity|]. split; [reflexivity|].
    intros k Hk. lia.
  - rewrite zigzag_loop_equation_1.
    destruct (decide (idx < len points)) as [Hlt|Hge]; [|lia].
    simpl.
    assert (Hzr : 0 <= zigzag_index w idx < len points)
      by (apply zigzag_index_closed; [exact Hw | exact Hwalk | lia]).
    destruct (getitem_in_range points _ Hzr) as (p & Hget & Hp).
    assert (Hsel : (if forward then getitem points idx
                    else getitem points rev_idx) = Ok p).
    { destruct forward.
      - unfold zigzag_index in Hget. rewrite <- Hfw in Hget. exact Hget.
      - rewrite (Hrev eq_refl). exact Hget. }
    rewrite Hsel. simpl.
    destruct (decide (w = 0)) as [Hw0|Hw0]; [lia|]. simpl.
    assert (Hnext : forall forward' rev_idx',
              forward' = Z.even ((idx + 1) / w) ->
              (forward' = false -> rev_idx' = zigzag_index w (idx + 1)) ->
              exists out,
                zigzag_loop points w (acc ++ [p]) forward' (idx + 1) rev_idx'
                = Ok (acc ++ out)
                /\ length out = S n
                /\ forall k : nat, (k < S n)%nat ->
                     out !! k
                     = points !! Z.to_nat (zigzag_index w (idx + Z.of_nat k))).
    { intros forward' rev_idx' Hfw' Hrev'.
      destruct (IH (acc ++ [p]) forward' (idx + 1) rev_idx')
        as (out & Hrun & Hout & Hnth); [lia | lia | exact Hfw' | exact Hrev' |].
      exists (p :: out). rewrite Hrun, <- app_assoc. simpl.
      split; [reflexivity|]. split; [lia|].
      intros [|k] Hk.
      - simpl. rewrite Z.add_0_r. symmetry. exact Hp.
      - simpl. rewrite Hnth by lia. do 3 f_equal. lia. }
    destruct (div_mod_succ w idx Hw ltac:(lia))
      as [(Hm & Hq & Hc)|(Hm & Hq & Hc)].
    + destruct (decide ((idx + 1) mod w = 0)) as [He|Hne]; [|contradiction].
      simpl. apply Hnext.
      * rewrite Hq, Hfw, Z.even_add. simpl.
        destruct (Z.even (idx / w)); reflexivity.
      * intros Hf. pose proof (Z.div_mod (idx + 1) w ltac:(lia)) as Hdm.
        unfold zigzag_index. rewrite Hq, Hm in *.
        replace (Z.even (idx / w + 1)) with false.
        -- lia.
        -- rewrite Hfw in Hf. rewrite Z.even_add. simpl.
           destruct (Z.even (idx / w)); [reflexivity | discriminate].
    + destruct (decide ((idx + 1) mod w = 0)) as [He|Hne]; [contradiction|].
      simpl. apply Hnext.
      * rewrite Hq. exact Hfw.
      * intros Hf. rewrite Hf, (Hrev Hf). unfold zigzag_index.
        rewrite Hq, <- Hfw, Hf, Hc. lia.
Qed.

Lemma make_zigzag_walk {A} (points : list A) (w : Z) :
  0 < w -> zigzag_walkable (len points) w ->
  exists out,
    make_zigzag points w = Ok out
    /\ length out = length points
    /\ forall k : nat, (k < length points)%nat ->
         out !! k = points !! Z.to_nat (zigzag_index w (Z.of_nat k)).
Proof.
  intros Hw Hwalk. unfold make_zigzag.
  destruct (zigzag_loop_walk points w (length points) Hw Hwalk [] true 0 (-1))
    as (out & Hrun & Hout & Hnth);
    [unfold len; lia | unfold len; lia | reflexivity | discriminate |].
  exists out. split; [exact Hrun|]. split; [exact Hout|].
  intros k Hk. rewrite (Hnth k Hk). reflexivity.
Qed.

(** X11: for a positive row width, on a sequence whose last row is full
    or has an even row number, [make_zigzag] returns a sequence of the same
    length, and applying [make_zigzag] to it gives the input back. *)
Theorem make_zigzag_involutive {A} (points : list A) (num_cols : Z) :
  0 < num_cols -> zigzag_walkable (len points) num_cols ->
  exists out,
    make_zigzag points num_cols = Ok out
    /\ length out = length points
    /\ make_zigzag out num_cols = Ok points.
Proof.
  intros Hw Hwalk.
  destruct (make_zigzag_walk points num_cols Hw Hwalk) as (out & Hrun & Hlen & Hnth).
  exists out. split; [exact Hrun|]. split; [exact Hlen|].
  assert (Hwalk' : zigzag_walkable (len out) num_cols)
    by (unfold len; rewrite Hlen; exact Hwalk).
  destruct (make_zigzag_walk out num_cols Hw Hwalk') as (out2 & Hrun2 & Hlen2 & Hnth2).
  rewrite Hrun2. f_equal. apply list_eq. intros i.
  destruct (decide (i < length points)%nat) as [Hi|Hi].
  - rewrite Hnth2 by lia.
    pose proof (zigzag_index_closed (len points) num_cols (Z.of_nat i) Hw Hwalk
                  ltac:(unfold len; lia)) as Hc.
    rewrite Hnth by (unfold len in Hc; lia).
    rewrite Z2Nat.id by lia.
    rewrite zigzag_index_involutive by lia.
    rewrite Nat2Z.id. reflexivity.
  - rewrite !lookup_ge_None_2 by lia. reflexivity.
Qed.

Lemma make_zigzag_involutive_witness :
  exists out,
    make_zigzag [1; 2; 3; 4; 5; 6; 7; 8] 3 = Ok out
    /\ length out = 8%nat
    /\ make_zigzag out 3 = Ok [1; 2; 3; 4; 5; 6; 7; 8].
Proof.
  apply (make_zigzag_involutive [1; 2; 3; 4; 5; 6; 7; 8] 3); [lia|].
  right. reflexivity.
Defined.

(** The loop on a sequence whose last row is short and has an odd row
    number: it walks the full rows and fails on the first read of the last
    one. *)
Lemma zigzag_loop_stuck {A} (points : list A) (w : Z) (n : nat) :
  0 < w -> len points mod w <> 0 -> Z.even (len points / w) = false ->
  forall (acc : list A) (forward : bool) (idx rev_idx : Z),
    n = Z.to_nat (len points / w * w - idx) ->
    0 <= idx <= len points / w * w ->
    forward = Z.even (idx / w) ->
    (forward = false -> rev_idx = zigzag_index w idx) ->
    zigzag_loop points w acc forward idx rev_idx = Raise IndexError.
Proof.
  intros Hw Hrem Hodd.
  pose proof (Z.div_mod (len points) w ltac:(lia)) as Hdn.
  pose proof (Z.mod_pos_bound (len points) w Hw) as Hbn.
  set (R := len points / w) in *.
  induction n as [|n IH]; intros acc forward idx rev_idx Hn Hidx Hfw Hrev.
  - assert (Hi : idx = R * w) by lia. subst idx.
    rewrite Z.div_mul in Hfw by lia. rewrite Hodd in Hfw.
    rewrite zigzag_loop_equation_1.
    destruct (decide (R * w < len points)) as [Hlt|Hge]; [|lia].
    simpl. rewrite Hfw. rewrite (Hrev Hfw).
    unfold zigzag_index. rewrite Z.div_mul by lia. rewrite Hodd.
    rewrite Z.mod_mul by lia.
    rewrite getitem_out_of_range by lia. reflexivity.
  - rewrite zigzag_loop_equation_1.
    destruct (decide (idx < len points)) as [Hlt|Hge]; [|lia].
    simpl.
    assert (Hzr : 0 <= zigzag_index w idx < len points).
    { pose proof (zigzag_index_range w R idx Hw ltac:(lia)). lia. }
    destruct (getitem_in_range points _ Hzr) as (p & Hget & Hp).
    assert (Hsel : (if forward then getitem points idx
                    else getitem points rev_idx) = Ok p).
    { destruct forward.
      - unfold zigzag_index in Hget. rewrite <- Hfw in Hget. exact Hget.
      - rewrite (Hrev eq_refl). exact Hget. }
    rewrite Hsel. simpl.
    destruct (decide (w = 0)) as [Hw0|Hw0]; [lia|]. simpl.
    destruct (div_mod_succ w idx Hw ltac:(lia))
      as [(Hm & Hq & Hc)|(Hm & Hq & Hc)].
    + destruct (decide ((idx + 1) mod w = 0)) as [He|Hne]; [|contradiction].
      simpl. apply IH; [lia | lia | |].
      * rewrite Hq, Hfw, Z.even_add. simpl.
        destruct (Z.even (idx / w)); reflexivity.
      * intros Hf. pose proof (Z.div_mod (idx + 1) w ltac:(lia)) as Hdm.
        unfold zigzag_index. rewrite Hq, Hm in *.
        replace (Z.even (idx / w + 1)) with false.
        -- lia.
        -- rewrite Hfw in Hf. rewrite Z.even_add. simpl.
           destruct (Z.even (idx / w)); [reflexivity | discriminate].
    + destruct (decide ((idx + 1) mod w = 0)) as [He|Hne]; [contradiction|].
      simpl. apply IH; [lia | lia | |].
      * rewrite Hq. exact Hfw.
      * intros Hf. rewrite Hf, (Hrev Hf). unfold zigzag_index.
        rewrite Hq, <- Hfw, Hf, Hc. lia.
Qed.

(** X12: [make_zigzag] returns the empty list on the empty list for
    every row width; on a non-empty list with row width 0 it raises
    [ZeroDivisionError]; for a positive row width it raises [IndexError]
    when the last row is short and has an odd row number. *)
Theorem make_zigzag_failures {A} :
  (forall num_cols, make_zigzag (@nil A) num_cols = Ok [])
  /\ (forall (p : A) (points : list A),
        make_zigzag (p :: points) 0 = Raise ZeroDivisionError)
  /\ (forall (points : list A) (num_cols : Z),
        0 < num_cols ->
        ~ zigzag_walkable (len points) num_cols ->
        make_zigzag points num_cols = Raise IndexError).
Proof.
  split; [|split].
  - intros w. unfold make_zigzag. rewrite zigzag_loop_equation_1.
    destruct (decide (0 < len (@nil A))) as [H|H];
      [unfold len in H; cbn in H; lia|].
    reflexivity.
  - intros p points. unfold make_zigzag. rewrite zigzag_loop_equation_1.
    destruct (decide (0 < len (p :: points))) as [H|H];
      [|unfold len in H; cbn in H; lia].
    simpl.
    replace (getitem (p :: points) 0) with (Ok p).
    + simpl. destruct (decide (0 = 0)) as [E|E]; [reflexivity|lia].
    + unfold getitem, norm_index, len. cbn.
      destruct (length points); reflexivity.
  - intros points w Hw Hwalk. unfold make_zigzag.
    assert (Hrem : len points mod w <> 0)
      by (intros E; apply Hwalk; left; exact E).
    assert (Hodd : Z.even (len points / w) = false)
      by (destruct (Z.even (len points / w)) eqn:E; [|reflexivity];
          exfalso; apply Hwalk; right; exact E).
    assert (Hq : 0 <= len points / w) by (apply Z.div_pos; unfold len; lia).
    apply (zigzag_loop_stuck points w (Z.to_nat (len points / w * w)) Hw Hrem Hodd);
      [f_equal; lia | nia | reflexivity | discriminate].
Qed.

Lemma make_zigzag_failures_witness :
  make_zigzag [1; 2; 3; 4; 5] 3 = Raise IndexError.
Proof.
  destruct (@make_zigzag_failures Z) as (_ & _ & H).
  apply H; [lia|]. intros [E|E]; vm_compute in E; discriminate.
Defined.

End ZigzagMore.

(** ** utilities.py: the zig-zag walk and where it stops *)

Section ZigzagClaim.

(** The claim of C7 fails on a sequence whose last row is short and has an
    odd row number: five points, or four, in rows of three. *)
Lemma make_zigzag_short_odd_row :
  make_zigzag [0; 1; 2; 3; 4] 3 = Raise IndexError
  /\ make_zigzag [0; 1; 2; 3] 3 = Raise IndexError.
Proof. split; reflexivity. Qed.

(** C7, amended: for a positive row width, on a sequence whose last row
    is full or has an even row number (so on every sequence of full rows),
    [make_zigzag] returns a sequence of the same length whose element [k]
    is the input element of the same row, at the same column in the rows
    0, 2, 4, ... and at the mirrored column in the rows 1, 3, 5, ...; on a
    sequence whose last row is short and has an odd row number it raises
    [IndexError]; and on nine points with row width 3 it returns
    [p0, p1, p2, p5, p4, p3, p6, p7, p8]. *)
Theorem make_zigzag_boustrophedon :
  (forall (A : Type) (points : list A) (num_cols : Z),
      0 < num_cols -> zigzag_walkable (len points) num_cols ->
      exists out,
        make_zigzag points num_cols = Ok out
        /\ length out = length points
        /\ forall k : nat, (k < length points)%nat ->
             out !! k
             = points !! Z.to_nat (zigzag_index num_cols (Z.of_nat k)))
  /\ (forall (A : Type) (points : list A) (num_cols rows : Z),
        0 < num_cols -> len points = rows * num_cols ->
        zigzag_walkable (len points) num_cols)
  /\ (forall (A : Type) (points : list A) (num_cols : Z),
        0 < num_cols -> ~ zigzag_walkable (len points) num_cols ->
        make_zigzag points num_cols = Raise IndexError)
  /\ (forall (A : Type) (p0 p1 p2 p3 p4 p5 p6 p7 p8 : A),
        make_zigzag [p0; p1; p2; p3; p4; p5; p6; p7; p8] 3
        = Ok [p0; p1; p2; p5; p4; p3; p6; p7; p8]).
Proof.
  split; [|split; [|split]].
  - intros A points w Hw Hwalk. apply make_zigzag_walk; assumption.
  - intros A points w rows Hw Hlen. left. rewrite Hlen.
    apply Z.mod_mul. lia.
  - intros A points w Hw Hwalk. unfold make_zigzag.
    assert (Hrem : len points mod w <> 0)
      by (intros E; apply Hwalk; left; exact E).
    assert (Hodd : Z.even (len points / w) = false)
      by (destruct (Z.even (len points / w)) eqn:E; [|reflexivity];
          exfalso; apply Hwalk; right; exact E).
    assert (Hq : 0 <= len points / w) by (apply Z.div_pos; unfold len; lia).
    apply (zigzag_loop_stuck points w (Z.to_nat (len points / w * w)) Hw Hrem Hodd);
      [f_equal; lia | nia | reflexivity | discriminate].
  - intros. reflexivity.
Qed.

Lemma make_zigzag_boustrophedon_witness :
  (exists out,
      make_zigzag [10; 11; 12; 13; 14; 15; 16] 3 = Ok out
      /\ length out = 7%nat
      /\ out !! 3%nat = Some 15 /\ out !! 5%nat = Some 13
      /\ out !! 6%nat = Some 16)
  /\ make_zigzag [10; 11; 12; 13; 14; 15; 16] 2 = Raise IndexError
  /\ make_zigzag [10; 11; 12; 13; 14; 15; 16] 4 = Raise IndexError.
Proof.
  destruct make_zigzag_boustrophedon as (Hwalk & _ & Hstuck & _).
  split; [|split].
  - destruct (Hwalk Z [10; 11; 12; 13; 14; 15; 16] 3 ltac:(lia))
      as (out & Hrun & Hout & Hnth); [right; reflexivity|].
    exists out. split; [exact Hrun|]. split; [exact Hout|].
    split; [|split].
    + rewrite (Hnth 3%nat) by (simpl; lia). reflexivity.
    + rewrite (Hnth 5%nat) by (simpl; lia). reflexivity.
    + rewrite (Hnth 6%nat) by (simpl; lia). reflexivity.
  - apply Hstuck; [lia|]. intros [E|E]; vm_compute in E; discriminate.
  - apply Hstuck; [lia|]. intros [E|E]; vm_compute in E; discriminate.
Defined.

End ZigzagClaim.

(** ** utilities.py: the quad ordering *)

Section Quad.

Context {A : Type}.
Implicit Types (points : list A).

(** Reading a list at a run of positions that are all in range. *)
Lemma mapM_getitem points (f : Z -> Z) (l : list Z) :
  (forall x, x ∈ l -> 0 <= f x < len points) ->
  exists temp,
    mapM (fun x => getitem points (f x)) l = Ok temp
    /\ length temp = length l
    /\ forall i x, l !! i = Some x -> temp !! i = points !! Z.to_nat (f x).
Proof.
  induction l as [|x l IH]; intros Hin.
  - exists []. repeat split. intros i x Hx. discriminate.
  - destruct (getitem_in_range points (f x)) as (p & Hg & Hp);
      [apply Hin; left|].
    destruct IH as (temp & Hm & Hl & Hnth);
      [intros y Hy; apply Hin; right; exact Hy|].
    exists (p :: temp). cbn. rewrite Hg. cbn. rewrite Hm. cbn.
    split; [reflexivity|]. split; [lia|].
    intros [|i] y Hy; cbn in *.
    + injection Hy as <-. symmetry. exact Hp.
    + apply Hnth, Hy.
Qed.

Lemma quad_rows_grid points (size_u size_v : Z) :
  0 < size_u -> 0 < size_v -> len points = size_u * size_v ->
  forall (k : nat) (r : Z) (forward : bool) (new_points : list A),
    0 <= r -> r + Z.of_nat k = size_v -> forward = Z.even r ->
    exists second,
      quad_rows points size_u size_v (seqZ r (Z.of_nat k)) forward new_points
      = Ok (new_points ++ second)
      /\ length second = (k * Z.to_nat size_u)%nat
      /\ forall i col : nat,
           (i < k)%nat -> Z.of_nat col < size_u ->
           second !! (i * Z.to_nat size_u + col)%nat
           = points !! Z.to_nat
                         (quad_index size_u size_v (r + Z.of_nat i)
                            (Z.of_nat col)).
Proof.
  intros Hu Hv Hlen.
  induction k as [|k IH]; intros r forward new_points Hr Hk Hfw.
  - exists []. cbn. rewrite app_nil_r. repeat split. intros i col Hi. lia.
  - rewrite seqZ_cons by lia. cbn [quad_rows].
    destruct (mapM_getitem points (fun col => r + col * size_v) (seqZ 0 size_u))
      as (temp & Hm & Hl & Hnth).
    { intros x Hx. apply elem_of_seqZ in Hx. nia. }
    rewrite length_seqZ in Hl.
    rewrite Hm. cbn.
    replace (Z.pred (Z.of_nat (S k))) with (Z.of_nat k) by lia.
    set (row := if forward then temp else reverse temp).
    assert (Hrowlen : length row = Z.to_nat size_u)
      by (unfold row; destruct forward; [|rewrite length_reverse]; exact Hl).
    assert (Hrow : forall col : nat, Z.of_nat col < size_u ->
              row !! col
              = points !! Z.to_nat (quad_index size_u size_v r (Z.of_nat col))).
    { intros col Hc. unfold row, quad_index. rewrite <- Hfw.
      destruct forward.
      - rewrite (Hnth col (Z.of_nat col)) by (apply lookup_seqZ; lia).
        reflexivity.
      - rewrite reverse_lookup by lia. rewrite Hl.
        rewrite (Hnth _ (size_u - 1 - Z.of_nat col)) by (apply lookup_seqZ; lia).
        reflexivity. }
    destruct (IH (Z.succ r) (negb forward) (new_points ++ row))
      as (second & Hrun & Hsl & Hsnth).
    + lia.
    + lia.
    + rewrite Hfw, Z.even_succ, <- Z.negb_even. reflexivity.
    + exists (row ++ second).
      split.
      * rewrite app_assoc, <- Hrun. unfold row. destruct forward; reflexivity.
      * split; [rewrite length_app; lia|].
        intros [|i] col Hi Hc.
        -- cbn [Nat.mul Nat.add]. rewrite lookup_app_l by lia.
           rewrite Z.add_0_r. apply Hrow, Hc.
        -- rewrite lookup_app_r by lia.
           replace (S i * Z.to_nat size_u + col - length row)%nat
             with (i * Z.to_nat size_u + col)%nat by lia.
           rewrite Hsnth by lia. do 3 f_equal. lia.
Qed.

(** X13: on a full grid of [size_u * size_v] points [make_quad] returns
    the reversed zig-zag of row width [size_v] followed by a second pass of
    the same length, whose row [row] holds the points
    [points[row + col * size_v]] for [col] from 0 up in the even rows and
    from [size_u - 1] down in the odd rows. *)
Theorem make_quad_full_grid points (size_u size_v : Z) :
  0 < size_u -> 0 < size_v -> len points = size_u * size_v ->
  exists zigzag second,
    make_zigzag points size_v = Ok zigzag
    /\ make_quad points size_u size_v = Ok (reverse zigzag ++ second)
    /\ length zigzag = length points
    /\ length second = length points
    /\ forall row col : nat,
         Z.of_nat row < size_v -> Z.of_nat col < size_u ->
         second !! (row * Z.to_nat size_u + col)%nat
         = points !! Z.to_nat
                       (quad_index size_u size_v (Z.of_nat row) (Z.of_nat col)).
Proof.
  intros Hu Hv Hlen.
  destruct (make_zigzag_walk points size_v Hv) as (zz & Hzz & Hzl & _).
  { left. rewrite Hlen. apply Z.mod_mul. lia. }
  destruct (quad_rows_grid points size_u size_v Hu Hv Hlen
              (Z.to_nat size_v) 0 true (reverse zz))
    as (second & Hrun & Hsl & Hnth); [lia | lia | reflexivity |].
  rewrite Z2Nat.id in Hrun by lia.
  exists zz, second. split; [exact Hzz|].
  split; [unfold make_quad; rewrite Hzz; cbn; exact Hrun|].
  split; [exact Hzl|].
  split; [unfold len in Hlen; nia|].
  intros row col Hrow Hcol. rewrite Hnth by lia. reflexivity.
Qed.

End Quad.

Lemma make_quad_full_grid_witness :
  exists zigzag second,
    make_quad [0; 1; 2; 3; 4; 5] 3 2 = Ok (reverse zigzag ++ second)
    /\ length second = 6%nat
    /\ second !! 4%nat = Some 3.
Proof.
  destruct (make_quad_full_grid [0; 1; 2; 3; 4; 5] 3 2) as
    (zz & second & _ & Hq & _ & Hl & Hnth); [lia | lia | reflexivity |].
  exists zz, second. split; [exact Hq|]. split; [exact Hl|].
  apply (Hnth 1%nat 1%nat); lia.
Defined.

(** ** utilities.py: sample size and delta at the edges *)

Section SampleSizeEdges.

Import Float64.

Lemma int_of_float_not_negative (q : spec_float) (n : Z) :
  not_negative q -> int_of_float q = Ok n -> 0 <= n.
Proof.
  destruct q as [s|s| |s m e]; try discriminate.
  - intros _ [= <-]. lia.
  - unfold not_negative, int_of_float. intros -> [= <-]. unfold cond_Zopp.
    destruct (0 <=? e) eqn:He.
    + apply Z.mul_nonneg_nonneg; [lia|]. apply Z.pow_nonneg. lia.
    + apply Z.leb_gt in He. apply Z.div_pos; [lia|].
      apply Z.pow_pos_nonneg; lia.
Qed.

(** X14: [compute_sample_size_from_delta] raises [ZeroDivisionError] on a
    zero delta and [ValueError] on NaN, gives 1 on positive infinity, and
    every sample size it returns for a positive delta is at least 1. *)
Theorem sample_size_edges :
  (forall s, compute_sample_size_from_delta (S754_zero s)
             = Raise ZeroDivisionError)
  /\ compute_sample_size_from_delta S754_nan = Raise ValueError
  /\ compute_sample_size_from_delta (S754_infinity false) = Ok 1
  /\ (forall delta n,
        positive delta = true ->
        compute_sample_size_from_delta delta = Ok n -> 1 <= n).
Proof.
  split; [intros s; reflexivity|]. split; [reflexivity|].
  split; [reflexivity|].
  intros delta n Hpos. unfold compute_sample_size_from_delta, truediv.
  destruct (is_zero delta); [discriminate|].
  pose proof (div_one_positive delta Hpos) as Hq.
  revert Hq. generalize (SFdiv prec emax one delta). intros q Hq. cbn.
  destruct (int_of_float q) as [k|] eqn:Hk; [|discriminate].
  cbn. intros [= <-].
  pose proof (int_of_float_not_negative q k Hq Hk). lia.
Qed.

Lemma sample_size_edges_witness :
  exists n, compute_sample_size_from_delta tenth = Ok n /\ 1 <= n.
Proof.
  destruct sample_size_edges as (_ & _ & _ & H).
  exists 11. split; [reflexivity|].
  apply (H tenth 11); reflexivity.
Defined.

(** X15: [compute_delta_from_sample_size] raises [ZeroDivisionError] for
    a sample size of 1 with any finite domain range, and for a zero domain
    range with any sample size whose predecessor converts to a finite
    float; on a domain of one entry it raises [IndexError]. *)
Theorem delta_zero_divisor :
  (forall domain d0 d1 domain_range,
      getitem domain 0 = Ok d0 -> getitem domain 1 = Ok d1 ->
      is_number domain_range ->
      compute_delta_from_sample_size 1 domain domain_range
      = Raise ZeroDivisionError)
  /\ (forall sample_size domain d0 d1 s fn,
        getitem domain 0 = Ok d0 -> getitem domain 1 = Ok d1 ->
        float_of_int (sample_size - 1) = Ok fn -> is_number fn ->
        compute_delta_from_sample_size sample_size domain (S754_zero s)
        = Raise ZeroDivisionError)
  /\ (forall sample_size d1 domain_range,
        compute_delta_from_sample_size sample_size [d1] domain_range
        = Raise IndexError).
Proof.
  split; [|split].
  - intros domain d0 d1 dr H0 H1 Hdr.
    unfold compute_delta_from_sample_size. rewrite H1. cbn. rewrite H0. cbn.
    destruct dr as [s|s| |s m e]; try destruct Hdr; reflexivity.
  - intros n domain d0 d1 s fn H0 H1 Hfn Hnum.
    unfold compute_delta_from_sample_size. rewrite H1. cbn. rewrite H0. cbn.
    rewrite Hfn. cbn.
    destruct fn as [s'|s'| |s' m e]; try destruct Hnum; reflexivity.
  - intros n d1 dr. reflexivity.
Qed.

Lemma delta_zero_divisor_witness :
  compute_delta_from_sample_size 1 [zero; one] tenth = Raise ZeroDivisionError
  /\ compute_delta_from_sample_size 11 [zero; one] zero
     = Raise ZeroDivisionError.
Proof.
  destruct delta_zero_divisor as (H1 & H2 & _).
  split.
  - apply (H1 _ zero one); [reflexivity | reflexivity | exact I].
  - apply (H2 11 _ zero one false (S754_finite false 5629499534213120 (-49)));
      [reflexivity | reflexivity | reflexivity | exact I].
Defined.

End SampleSizeEdges.

(** ** utilities.py: the bounding box *)

Section BoundingBox.

Lemma SFltb_irrefl (x : spec_float) : SFltb x x = false.
Proof.
  unfold SFltb, SFcompare. destruct x as [s|s| |s m e]; try reflexivity.
  - destruct s; reflexivity.
  - rewrite Z.compare_refl.
    change (Pos.compare_cont Eq m m) with (Pos.compare m m).
    rewrite Pos.compare_refl. destruct s; reflexivity.
Qed.

Lemma finite_lt_trans (e1 e2 e3 : Z) (m1 m2 m3 : positive) :
  match (e1 ?= e2) with
  | Eq => Pos.compare_cont Eq m1 m2 | Lt => Lt | Gt => Gt end = Lt ->
  match (e2 ?= e3) with
  | Eq => Pos.compare_cont Eq m2 m3 | Lt => Lt | Gt => Gt end = Lt ->
  match (e1 ?= e3) with
  | Eq => Pos.compare_cont Eq m1 m3 | Lt => Lt | Gt => Gt end = Lt.
Proof.
  change (Pos.compare_cont Eq m1 m2) with (Pos.compare m1 m2).
  change (Pos.compare_cont Eq m2 m3) with (Pos.compare m2 m3).
  change (Pos.compare_cont Eq m1 m3) with (Pos.compare m1 m3).
  destruct (Z.compare_spec e1 e2), (Z.compare_spec e2 e3),
    (Z.compare_spec e1 e3); try discriminate; try reflexivity; try lia.
  rewrite !Pos.compare_lt_iff. lia.
Qed.

Lemma finite_gt_trans (e1 e2 e3 : Z) (m1 m2 m3 : positive) :
  match (e1 ?= e2) with
  | Eq => CompOpp (Pos.compare_cont Eq m1 m2) | Lt => Gt | Gt => Lt end = Lt ->
  match (e2 ?= e3) with
  | Eq => CompOpp (Pos.compare_cont Eq m2 m3) | Lt => Gt | Gt => Lt end = Lt ->
  match (e1 ?= e3) with
  | Eq => CompOpp (Pos.compare_cont Eq m1 m3) | Lt => Gt | Gt => Lt end = Lt.
Proof.
  change (Pos.compare_cont Eq m1 m2) with (Pos.compare m1 m2).
  change (Pos.compare_cont Eq m2 m3) with (Pos.compare m2 m3).
  change (Pos.compare_cont Eq m1 m3) with (Pos.compare m1 m3).
  destruct (Z.compare_spec e1 e2), (Z.compare_spec e2 e3),
    (Z.compare_spec e1 e3); try discriminate; try reflexivity; try lia.
  destruct (Pos.compare_spec m1 m2), (Pos.compare_spec m2 m3),
    (Pos.compare_spec m1 m3); cbn; try discriminate; try reflexivity; lia.
Qed.

Lemma SFltb_trans (x y z : spec_float) :
  SFltb x y = true -> SFltb y z = true -> SFltb x z = true.
Proof.
  unfold SFltb, SFcompare.
  destruct x as [sx|sx| |sx mx ex], y as [sy|sy| |sy my ey],
    z as [sz|sz| |sz mz ez];
    try discriminate; try reflexivity;
    try (destruct sx; discriminate); try (destruct sy; discriminate);
    try (destruct sx, sy; discriminate);
    try (destruct sy, sz; discriminate);
    try (destruct sx, sy, sz; (discriminate || reflexivity)).
  destruct sx, sy, sz; try discriminate; try reflexivity; intros H1 H2.
  - rewrite (finite_gt_trans ex ey ez mx my mz); [reflexivity| |].
    + destruct (match ex ?= ey with Eq => _ | Lt => _ | Gt => _ end);
        (reflexivity || discriminate).
    + destruct (match ey ?= ez with Eq => _ | Lt => _ | Gt => _ end);
        (reflexivity || discriminate).
  - rewrite (finite_lt_trans ex ey ez mx my mz); [reflexivity| |].
    + destruct (match ex ?= ey with Eq => _ | Lt => _ | Gt => _ end);
        (reflexivity || discriminate).
    + destruct (match ey ?= ez with Eq => _ | Lt => _ | Gt => _ end);
        (reflexivity || discriminate).
Qed.

Section Update.

Variable better : spec_float -> spec_float -> bool.
Hypothesis better_irrefl : forall x, better x x = false.
Hypothesis better_trans :
  forall x y z, better x y = true -> better y z = true -> better x z = true.

Lemma bb_update_length cpt bb :
  length (bb_update better cpt bb) = length bb.
Proof.
  revert bb. induction cpt as [|c cpt IH]; intros [|b bb]; cbn;
    try reflexivity. rewrite IH. reflexivity.
Qed.

Lemma bb_update_lookup cpt bb i :
  bb_update better cpt bb !! i
  = match cpt !! i, bb !! i with
    | Some c, Some b => Some (if better c b then c else b)
    | _, _ => bb !! i
    end.
Proof.
  revert bb i. induction cpt as [|c cpt IH]; intros [|b bb] [|i]; cbn;
    try reflexivity.
  - destruct (cpt !! i); reflexivity.
  - apply IH.
Qed.

Lemma bb_update_bounds_new cpt bb :
  bounded_by better (bb_update better cpt bb) cpt.
Proof.
  intros i x m Hx. rewrite bb_update_lookup, Hx.
  destruct (bb !! i) as [b|]; [|discriminate].
  destruct (better x b) eqn:E; intros [= <-]; [apply better_irrefl | exact E].
Qed.

Lemma bb_update_bounds_old cpt bb p :
  bounded_by better bb p -> bounded_by better (bb_update better cpt bb) p.
Proof.
  intros Hp i x m Hx. rewrite bb_update_lookup.
  destruct (cpt !! i) as [c|]; [|apply Hp, Hx].
  destruct (bb !! i) as [b|] eqn:Hb; [|discriminate].
  specialize (Hp i x b Hx Hb).
  destruct (better c b) eqn:E; intros [= <-]; [|exact Hp].
  destruct (better x c) eqn:E'; [|reflexivity].
  rewrite (better_trans x c b E' E) in Hp. discriminate.
Qed.

End Update.

Lemma float_lt_order :
  (forall x, float_lt x x = false)
  /\ (forall x y z, float_lt x y = true -> float_lt y z = true ->
                    float_lt x z = true).
Proof. split; [exact SFltb_irrefl | exact SFltb_trans]. Qed.

Lemma float_gt_order :
  (forall x, float_gt x x = false)
  /\ (forall x y z, float_gt x y = true -> float_gt y z = true ->
                    float_gt x z = true).
Proof.
  split; [exact SFltb_irrefl|].
  unfold float_gt. intros x y z H1 H2. exact (SFltb_trans z y x H2 H1).
Qed.

(** The box after the loop over [pts] bounds the points it started with
    and the points of [pts]. *)
Lemma bb_fold_bounds pts :
  forall (bb : list spec_float * list spec_float) (seen : list (list spec_float)),
    (forall p, p ∈ seen ->
       bounded_by float_lt bb.1 p /\ bounded_by float_gt bb.2 p) ->
    let bb' := foldl (fun bb cpt =>
                        (bb_update float_lt cpt bb.1,
                         bb_update float_gt cpt bb.2)) bb pts in
    length bb'.1 = length bb.1 /\ length bb'.2 = length bb.2
    /\ forall p, p ∈ seen ++ pts ->
         bounded_by float_lt bb'.1 p /\ bounded_by float_gt bb'.2 p.
Proof.
  destruct float_lt_order as [Hli Hlt], float_gt_order as [Hgi Hgt].
  induction pts as [|q pts IH]; intros bb seen Hseen; cbn.
  - rewrite app_nil_r. repeat split; apply Hseen; assumption.
  - destruct (IH (bb_update float_lt q bb.1, bb_update float_gt q bb.2)
                (seen ++ [q])) as (Hl1 & Hl2 & Hb).
    + intros p Hp. apply elem_of_app in Hp as [Hp|Hp].
      * destruct (Hseen p Hp) as [H1 H2]. cbn. split.
        -- apply bb_update_bounds_old; assumption.
        -- apply bb_update_bounds_old; assumption.
      * apply list_elem_of_singleton in Hp as ->. cbn. split.
        -- apply bb_update_bounds_new; assumption.
        -- apply bb_update_bounds_new; assumption.
    + cbn in Hl1, Hl2. rewrite bb_update_length in Hl1, Hl2.
      split; [exact Hl1|]. split; [exact Hl2|].
      intros p Hp. apply Hb. rewrite <- app_assoc. exact Hp.
Qed.

(** X16: [evaluate_bounding_box] raises [IndexError] on the empty list;
    on a non-empty list it returns a minimum and a maximum corner with as
    many coordinates as the first point has, and no coordinate of any point
    is below the minimum or above the maximum of its axis. *)
Theorem bounding_box_encloses :
  evaluate_bounding_box [] = Raise IndexError
  /\ forall first rest,
       exists bbmin bbmax,
         evaluate_bounding_box (first :: rest) = Ok (bbmin, bbmax)
         /\ length bbmin = length first /\ length bbmax = length first
         /\ forall p i x,
              p ∈ first :: rest -> p !! i = Some x ->
              (forall m, bbmin !! i = Some m -> SFltb x m = false)
              /\ (forall m, bbmax !! i = Some m -> SFltb m x = false).
Proof.
  split; [reflexivity|]. intros first rest.
  unfold evaluate_bounding_box.
  change (getitem (first :: rest) 0) with (Ok first). cbn [mbind result_bind Py.bind].
  set (bb0 := (replicate (length first) (S754_infinity false),
               replicate (length first) (S754_infinity true))).
  destruct (bb_fold_bounds (first :: rest) bb0 [])
    as (Hl1 & Hl2 & Hb); [intros p Hp; inversion Hp|].
  set (bb' := foldl _ bb0 (first :: rest)) in *.
  exists bb'.1, bb'.2. split; [destruct bb'; reflexivity|].
  cbn in Hl1, Hl2. rewrite length_replicate in Hl1, Hl2.
  split; [exact Hl1|]. split; [exact Hl2|].
  intros p i x Hp Hx. destruct (Hb p Hp) as [H1 H2].
  split; intros m Hm; [exact (H1 i x m Hx Hm) | exact (H2 i x m Hx Hm)].
Qed.

Lemma bounding_box_encloses_witness :
  exists bbmin bbmax,
    evaluate_bounding_box
      [[Float64.zero; Float64.zero];
       [Float64.one; Float64.tenth];
       [S754_finite true 4503599627370496 (-52); Float64.one]]
    = Ok (bbmin, bbmax)
    /\ (forall m, bbmin !! 0%nat = Some m -> SFltb Float64.one m = false)
    /\ (forall m, bbmax !! 1%nat = Some m -> SFltb m Float64.tenth = false).
Proof.
  destruct bounding_box_encloses as [_ H].
  destruct (H [Float64.zero; Float64.zero]
              [[Float64.one; Float64.tenth];
               [S754_finite true 4503599627370496 (-52); Float64.one]])
    as (bbmin & bbmax & Heval & _ & _ & Hb).
  exists bbmin, bbmax. split; [exact Heval|].
  assert (Hin : [Float64.one; Float64.tenth]
                ∈ [[Float64.zero; Float64.zero];
                   [Float64.one; Float64.tenth];
                   [S754_finite true 4503599627370496 (-52); Float64.one]])
    by (right; left).
  split.
  - exact (proj1 (Hb _ 0%nat Float64.one Hin eq_refl)).
  - exact (proj2 (Hb _ 1%nat Float64.tenth Hin eq_refl)).
Defined.

(** The box of the points (0, 0), (2, 3), (-1, 5). *)
Lemma bounding_box_example :
  evaluate_bounding_box
    [[S754_zero false; S754_zero false];
     [S754_finite false 4503599627370496 (-51);
      S754_finite false 6755399441055744 (-51)];
     [S754_finite true 4503599627370496 (-52);
      S754_finite false 5629499534213120 (-50)]]
  = Ok ([S754_finite true 4503599627370496 (-52); S754_zero false],
        [S754_finite false 4503599627370496 (-51);
         S754_finite false 5629499534213120 (-50)]).
Proof. reflexivity. Qed.

End BoundingBox.

(** ** utilities.py: the quadtree-like structure on square grids *)

Section QuadtreeSquare.

Context {P V : Type}.
Variable vector_generate : P -> P -> result V.
Variable point_translate : P -> V -> result P.

Lemma mapM_Forall2 {A B} (f : A -> result B) (R : A -> B -> Prop) (l : list A) :
  (forall x, x ∈ l -> exists y, f x = Ok y /\ R x y) ->
  exists ys, mapM f l = Ok ys /\ Forall2 R l ys.
Proof.
  induction l as [|x l IH]; intros H.
  - exists []. split; [reflexivity | constructor].
  - destruct (H x) as (y & Hy & Hr); [left|].
    destruct IH as (ys & Hys & Hall); [intros z Hz; apply H; right; exact Hz|].
    exists (y :: ys). cbn. rewrite Hy. cbn. rewrite Hys. cbn.
    split; [reflexivity | constructor; assumption].
Qed.

Lemma concat_lookup_uniform {A} (rows : list (list A)) (k i j : nat) r :
  Forall (fun r => length r = k) rows ->
  rows !! i = Some r -> (j < k)%nat ->
  concat rows !! (i * k + j)%nat = r !! j.
Proof.
  intros Hall. revert i. induction Hall as [|r0 rows Hr0 _ IH]; intros i Hi Hj.
  - discriminate.
  - destruct i as [|i]; cbn in *.
    + injection Hi as ->. apply lookup_app_l. lia.
    + rewrite lookup_app_r by lia.
      replace (k + i * k + j - length r0)%nat with (i * k + j)%nat by lia.
      apply IH; assumption.
Qed.

Lemma concat_length_uniform {A} (rows : list (list A)) (k : nat) :
  Forall (fun r => length r = k) rows ->
  length (concat rows) = (length rows * k)%nat.
Proof.
  induction 1 as [|r rows Hr _ IH]; [reflexivity|].
  cbn. rewrite length_app, IH, Hr. reflexivity.
Qed.

Section Grid.

Variables (points : list P) (n : Z).
Hypothesis n_pos : 0 < n.
Hypothesis points_len : len points = n * n.

(** The two-dimensional form: row [a] holds the points
    [points[b + a * n]]. *)
Lemma quadtree_points2d_square :
  exists points2d,
    quadtree_points2d points n n = Ok points2d
    /\ forall a b, 0 <= a < n -> 0 <= b < n ->
         exists x, getitem2d points2d a b = Ok x
                   /\ points !! Z.to_nat (b + a * n) = Some x.
Proof.
  unfold quadtree_points2d.
  destruct (mapM_Forall2
              (fun j => mapM (fun i => getitem points (i + j * n)) (seqZ 0 n))
              (fun j row => length row = Z.to_nat n
                 /\ forall i : nat, Z.of_nat i < n ->
                      row !! i = points !! Z.to_nat (Z.of_nat i + j * n))
              (seqZ 0 n)) as (p2d & Hm & Hall).
  { intros j Hj. apply elem_of_seqZ in Hj.
    destruct (mapM_getitem points (fun i => i + j * n) (seqZ 0 n))
      as (row & Hrow & Hl & Hnth).
    - intros x Hx. apply elem_of_seqZ in Hx. nia.
    - exists row. split; [exact Hrow|]. rewrite length_seqZ in Hl.
      split; [exact Hl|]. intros i Hi.
      rewrite (Hnth i (Z.of_nat i)) by (apply lookup_seqZ; lia). reflexivity. }
  exists p2d. split; [exact Hm|].
  intros a b Ha Hb. unfold getitem2d.
  pose proof (Forall2_length _ _ _ Hall) as Hlen. rewrite length_seqZ in Hlen.
  destruct (getitem_in_range p2d a) as (row & Hg & Hrow);
    [unfold len; lia|].
  rewrite Hg. cbn.
  destruct (Forall2_lookup_r _ _ _ _ _ Hall Hrow) as (j & Hj & Hl & Hnth).
  apply lookup_seqZ in Hj as [-> _]. rewrite Z2Nat.id in Hnth by lia.
  destruct (getitem_in_range row b) as (x & Hgx & Hx); [unfold len; lia|].
  exists x. split; [exact Hgx|].
  rewrite <- Hx, (Hnth (Z.to_nat b)) by lia.
  do 2 f_equal. lia.
Qed.

Lemma quadtree_neighbor_square points2d u v inside nu nv ou ov :
  (forall a b, 0 <= a < n -> 0 <= b < n ->
     exists x, getitem2d points2d a b = Ok x
               /\ points !! Z.to_nat (b + a * n) = Some x) ->
  (inside = true -> 0 <= nu < n /\ 0 <= nv < n) ->
  exists t,
    quadtree_neighbor vector_generate point_translate points2d false
      u v inside nu nv ou ov = Ok t
    /\ holds_points points n t (if inside then [(nu, nv)] else []).
Proof.
  intros H2d Hin. unfold quadtree_neighbor. destruct inside.
  - destruct (Hin eq_refl) as [Hu Hv].
    destruct (H2d nu nv Hu Hv) as (x & Hg & Hx).
    exists [x]. rewrite Hg. cbn. split; [reflexivity|].
    constructor; [exact Hx | constructor].
  - exists []. split; [reflexivity | constructor].
Qed.

Lemma quadtree_cell_square points2d u v :
  (forall a b, 0 <= a < n -> 0 <= b < n ->
     exists x, getitem2d points2d a b = Ok x
               /\ points !! Z.to_nat (b + a * n) = Some x) ->
  0 <= u < n -> 0 <= v < n ->
  exists t,
    quadtree_cell vector_generate point_translate points2d n n false u v = Ok t
    /\ holds_points points n t (quadtree_cells n n u v).
Proof.
  intros H2d Hu Hv. unfold quadtree_cell, quadtree_cells.
  destruct (H2d u v Hu Hv) as (x & Hg & Hx). rewrite Hg. cbn.
  destruct (quadtree_neighbor_square points2d u v (u + 1 <? n)
              (u + 1) v (u - 1) v H2d) as (te & -> & He);
    [intros E; apply Z.ltb_lt in E; lia|].
  cbn.
  destruct (quadtree_neighbor_square points2d u v (v + 1 <? n)
              u (v + 1) u (v - 1) H2d) as (tn & -> & Hn);
    [intros E; apply Z.ltb_lt in E; lia|].
  cbn.
  destruct (quadtree_neighbor_square points2d u v (0 <=? u - 1)
              (u - 1) v (u + 1) v H2d) as (tw & -> & Hw);
    [intros E; apply Z.leb_le in E; lia|].
  cbn.
  destruct (quadtree_neighbor_square points2d u v (0 <=? v - 1)
              u (v - 1) u (v + 1) H2d) as (ts & -> & Hs);
    [intros E; apply Z.leb_le in E; lia|].
  cbn. eexists. split; [reflexivity|].
  constructor; [exact Hx|].
  repeat apply Forall2_app; assumption.
Qed.

(** X17: on a square grid of [n * n] points and without extrapolation
    [make_quadtree] returns one tuple per cell, the tuple of the cell
    [(u, v)] at position [v * n + u]; it holds the point of the cell and
    the points of its neighbours at [u + 1], [v + 1], [u - 1], [v - 1] that
    are in the grid, in this order, the point of a cell [(a, b)] being
    [points[b + a * n]]. *)
Theorem make_quadtree_square :
  exists qtree,
    make_quadtree vector_generate point_translate points n n false = Ok qtree
    /\ length qtree = length points
    /\ forall u v : nat,
         Z.of_nat u < n -> Z.of_nat v < n ->
         exists t,
           qtree !! (v * Z.to_nat n + u)%nat = Some t
           /\ holds_points points n t (quadtree_cells n n (Z.of_nat u) (Z.of_nat v)).
Proof.
  destruct quadtree_points2d_square as (p2d & Hp2d & H2d).
  unfold make_quadtree. rewrite Hp2d. cbn.
  destruct (mapM_Forall2
              (fun v => mapM (fun u =>
                 quadtree_cell vector_generate point_translate p2d n n false u v)
                 (seqZ 0 n))
              (fun v row => length row = Z.to_nat n
                 /\ forall u : nat, Z.of_nat u < n ->
                      exists t, row !! u = Some t
                        /\ holds_points points n t (quadtree_cells n n (Z.of_nat u) v))
              (seqZ 0 n)) as (rows & Hm & Hall).
  { intros v Hv. apply elem_of_seqZ in Hv.
    destruct (mapM_Forall2
                (fun u => quadtree_cell vector_generate point_translate
                            p2d n n false u v)
                (fun u t => holds_points points n t (quadtree_cells n n u v))
                (seqZ 0 n)) as (row & Hrow & Hr).
    - intros u Hu. apply elem_of_seqZ in Hu.
      apply quadtree_cell_square; [exact H2d | lia | lia].
    - exists row. split; [exact Hrow|].
      pose proof (Forall2_length _ _ _ Hr) as Hl. rewrite length_seqZ in Hl.
      split; [lia|]. intros u Hu.
      destruct (Forall2_lookup_l _ _ _ u (Z.of_nat u) Hr) as (t & Ht & Hh);
        [apply lookup_seqZ; lia|].
      exists t. split; [exact Ht | exact Hh]. }
  rewrite Hm. cbn. eexists. split; [reflexivity|].
  pose proof (Forall2_length _ _ _ Hall) as Hlen. rewrite length_seqZ in Hlen.
  assert (Hrows : Forall (fun r => length r = Z.to_nat n) rows).
  { apply Forall_forall. intros r Hr. apply list_elem_of_lookup in Hr as [i Hi].
    destruct (Forall2_lookup_r _ _ _ _ _ Hall Hi) as (v & _ & Hl & _).
    exact Hl. }
  split.
  - rewrite (concat_length_uniform rows (Z.to_nat n) Hrows), <- Hlen.
    unfold len in points_len. nia.
  - intros u v Hu Hv.
    destruct (Forall2_lookup_l _ _ _ v (Z.of_nat v) Hall) as (row & Hrow & _ & Hnth);
      [apply lookup_seqZ; lia|].
    destruct (Hnth u Hu) as (t & Ht & Hh).
    exists t. split; [|exact Hh].
    rewrite (concat_lookup_uniform rows (Z.to_nat n) v u row Hrows Hrow) by lia.
    exact Ht.
Qed.

End Grid.

End QuadtreeSquare.

Lemma make_quadtree_square_witness :
  exists qtree t,
    make_quadtree (fun a b : Z => Ok (b - a)) (fun a b : Z => Ok (a + b))
      [0; 1; 2; 3; 4; 5; 6; 7; 8] 3 3 false = Ok qtree
    /\ length qtree = 9%nat
    /\ qtree !! 5%nat = Some t
    /\ holds_points [0; 1; 2; 3; 4; 5; 6; 7; 8] 3 t
         [(2, 1); (2, 2); (1, 1); (2, 0)].
Proof.
  destruct (make_quadtree_square (fun a b : Z => Ok (b - a))
              (fun a b : Z => Ok (a + b)) [0; 1; 2; 3; 4; 5; 6; 7; 8] 3
              ltac:(lia) eq_refl) as (qtree & Hq & Hl & Hcells).
  destruct (Hcells 2%nat 1%nat ltac:(lia) ltac:(lia)) as (t & Ht & Hh).
  exists qtree, t. split; [exact Hq|]. split; [exact Hl|].
  split; [exact Ht | exact Hh].
Defined.

(** ** The manager: access inside the shape *)

Section InShapeAccess.

Implicit Types (self : CPManager).

Lemma reachable_default_cfg args kwargs self :
  reachable args kwargs default_config self -> _cfg self = default_config.
Proof.
  intros Hreach.
  destruct (reachable_same_shape _ _ _ Hreach) as (s0 & H0 & (Hc & _)).
  destruct (init_fields _ _ _ _ H0) as (Hc0 & _). congruence.
Qed.

(** The linear index of a coordinate tuple of the shape is a position of
    the storage. *)
Lemma in_shape_position args kwargs self coords :
  reachable args kwargs default_config self ->
  in_shape (size self) coords ->
  0 <= default_find_index (size self) coords
  /\ (Z.to_nat (default_find_index (size self) coords)
      < Z.to_nat (count self))%nat.
Proof.
  intros Hreach Hin.
  destruct (reachable_same_shape _ _ _ Hreach)
    as (s0 & H0 & (_ & Hsz & Hcnt & _)).
  destruct (init_fields _ _ _ _ H0) as (_ & _ & Hred & _).
  apply reduce_mul_prod in Hred.
  destruct (in_shape_index _ _ Hin) as (_ & -> & _).
  pose proof (horner_range _ _ Hin) as Hr.
  unfold size, count in *. rewrite Hcnt, Hred, <- Hsz. lia.
Qed.

(** X18: in every state of a default manager, [pt] at a coordinate tuple
    of the shape returns the point stored at its linear index, and [ptdata]
    for a declared key returns the datum stored at that index: neither
    raises nor runs out of the arrays. *)
Theorem in_shape_access_succeeds args kwargs self coords :
  reachable args kwargs default_config self ->
  in_shape (size self) coords ->
  (exists p,
      pt coords self = Ok p
      /\ points self !! Z.to_nat (default_find_index (size self) coords)
         = Some p)
  /\ (forall k, k ∈ kwargs.*1 ->
        exists arr v,
          points_data self !! k = Some arr
          /\ arr !! Z.to_nat (default_find_index (size self) coords) = Some v
          /\ ptdata k coords self = Ok v).
Proof.
  intros Hreach Hin.
  pose proof (reachable_default_cfg _ _ _ Hreach) as Hcfg.
  destruct (in_shape_position _ _ _ _ Hreach Hin) as [H0 Hlt].
  destruct (in_shape_index _ _ Hin) as (Hlen & _).
  destruct (reachable_same_shape _ _ _ Hreach)
    as (s0 & Hs0 & (_ & _ & Hcnt & Hp & Hd)).
  destruct (init_fields _ _ _ _ Hs0) as (_ & _ & _ & Hinit).
  cbn in Hinit. inversion Hinit as [[Hpts Hdata]].
  set (idx := default_find_index (size self) coords) in *.
  split.
  - unfold pt, __getitem__.
    replace (len coords =? len (size self)) with true
      by (symmetry; apply Z.eqb_eq; exact Hlen).
    cbn. rewrite Hcfg. cbn. fold idx.
    destruct (getitem_in_range (_pts self) idx) as (p & Hg & Hpp).
    + unfold len. rewrite Hp, <- Hpts, length_replicate, <- Hcnt.
      fold (count self). lia.
    + exists p. split; [exact Hg | exact Hpp].
  - intros k Hk.
    apply (reachable_data_keys args kwargs default_config self k eq_refl Hreach)
      in Hk as [arr Harr].
    assert (Hal : length arr = Z.to_nat (count self)).
    { specialize (Hd k). rewrite Harr in Hd. cbn in Hd.
      destruct (_ptsd s0 !! k) as [arr0|] eqn:Hk0; [|discriminate].
      cbn in Hd. injection Hd as ->. rewrite <- Hdata in Hk0.
      unfold count. rewrite Hcnt.
      eapply init_data_lengths; [|exact Hk0].
      intros arr'. rewrite lookup_empty. discriminate. }
    destruct (getitem_in_range arr idx) as (v & Hg & Hv);
      [unfold len; lia|].
    exists arr, v. split; [exact Harr|]. split; [exact Hv|].
    eapply ptdata_lookup; [exact Harr|]. rewrite Hcfg. cbn. exact Hg.
Qed.

Lemma in_shape_access_succeeds_witness :
  exists cm p v,
    __init__ [VInt 2; VInt 3] [("weight"%string, 1)] default_config = Ok cm
    /\ pt [1; 2] cm = Ok p
    /\ ptdata "weight" [1; 2] cm = Ok v.
Proof.
  eexists.
  match goal with
  | |- exists p v, __init__ ?a ?k ?c = Ok ?cm /\ _ =>
      assert (Hr : reachable a k c cm) by (apply reach_init; reflexivity);
      destruct (in_shape_access_succeeds a k cm [1; 2] Hr
                  ltac:(repeat constructor; lia))
        as ((p & Hp & _) & Hdata);
      destruct (Hdata "weight"%string ltac:(left)) as (arr & v & _ & _ & Hv)
  end.
  exists p, v. split; [reflexivity|]. split; [exact Hp | exact Hv].
Defined.

(** The dictionary [default_ctrlpts_init] builds holds one array per
    keyword, the array of its last occurrence. *)
Lemma init_data_lookup (n : Z) (kwargs : list (string * Z))
    (d : gmap string (list pyval)) (k : string) (v : Z) :
  NoDup kwargs.*1 -> (k, v) ∈ kwargs ->
  foldl (fun d kv => <[kv.1 := init_data_array n kv.2]> d) d kwargs !! k
  = Some (init_data_array n v).
Proof.
  revert d. induction kwargs as [|[k' v'] kwargs IH]; intros d Hnd Hin.
  - inversion Hin.
  - cbn in *. apply NoDup_cons in Hnd as [Hk' Hnd].
    apply elem_of_cons in Hin as [[= <- <-]|Hin].
    + clear IH. revert d. revert Hk'.
      induction kwargs as [|[k2 v2] kwargs IH2]; intros Hk' d; cbn.
      * apply lookup_insert_eq.
      * cbn in Hk'. apply not_elem_of_cons in Hk' as [Hne Hk'].
        apply NoDup_cons in Hnd as [_ Hnd].
        rewrite insert_insert_ne by congruence.
        apply (IH2 Hnd Hk').
    + apply IH; assumption.
Qed.

(** X19: a manager constructed with the default functions has
    [max(count, 0)] empty point slots ([count] of them when the count is
    not negative), no dimension, and for every declared attribute an array
    of as many zeros, or of as many zero vectors of the declared arity when
    the arity is above 1. *)
Theorem init_zero_initialises args kwargs self :
  __init__ args kwargs default_config = Ok self ->
  NoDup kwargs.*1 ->
  points self = replicate (Z.to_nat (Z.max 0 (count self))) []
  /\ len (points self) = Z.max 0 (count self)
  /\ dimension self = 0
  /\ forall k v,
       (k, v) ∈ kwargs ->
       exists arr,
         points_data self !! k = Some arr
         /\ arr = replicate (Z.to_nat (Z.max 0 (count self)))
                    (if 1 <? v
                     then VSeq (replicate (Z.to_nat v)
                                  (VFloat Float64.zero))
                     else VFloat Float64.zero)
         /\ len arr = Z.max 0 (count self).
Proof.
  intros Hinit Hnd.
  destruct (init_fields _ _ _ _ Hinit) as (_ & _ & _ & Hstore).
  cbn in Hstore. inversion Hstore as [[Hpts Hdata]].
  assert (Hmax : forall z, Z.to_nat (Z.max 0 z) = Z.to_nat z) by (intros; lia).
  rewrite !Hmax.
  split; [symmetry; exact Hpts|]. split.
  { unfold points, count. rewrite <- Hpts. unfold len.
    rewrite length_replicate. lia. }
  split.
  - unfold __init__ in Hinit.
    destruct (mapM py_int args); [|discriminate]. cbn in Hinit.
    destruct (reduce_mul _); [|discriminate]. cbn in Hinit.
    injection Hinit as <-. reflexivity.
  - intros k v Hin. unfold points_data. rewrite <- Hdata.
    rewrite (init_data_lookup _ _ _ k v Hnd Hin).
    eexists. split; [reflexivity|]. split.
    + unfold init_data_array. destruct (1 <? v); reflexivity.
    + unfold init_data_array, len, count.
      destruct (1 <? v); rewrite length_replicate; lia.
Qed.

Lemma init_zero_initialises_witness :
  (exists cm,
      __init__ [VInt 2] [("weight"%string, 1); ("normal"%string, 3)]
        default_config = Ok cm
      /\ points_data cm !! "normal"%string
         = Some (replicate 2
                   (VSeq (replicate 3 (VFloat Float64.zero)))))
  /\ (exists cm,
        __init__ [VInt 3; VInt (-1)] [("weight"%string, 1)] default_config
        = Ok cm
        /\ count cm = -3 /\ points cm = []).
Proof.
  split.
  - eexists. split; [reflexivity|].
    match goal with
    | |- points_data ?cm !! _ = _ =>
        destruct (init_zero_initialises
                    [VInt 2] [("weight"%string, 1); ("normal"%string, 3)] cm
                    eq_refl) as (_ & _ & _ & H)
    end.
    + repeat constructor; rewrite ?list_elem_of_In; cbn; intuition discriminate.
    + destruct (H "normal"%string 3) as (arr & Harr & -> & _);
        [right; left|].
      exact Harr.
  - eexists. split; [reflexivity|]. split; [reflexivity|].
    match goal with
    | |- points ?cm = _ =>
        destruct (init_zero_initialises
                    [VInt 3; VInt (-1)] [("weight"%string, 1)] cm
                    eq_refl) as (H & _)
    end.
    + repeat constructor; rewrite ?list_elem_of_In; cbn; intuition discriminate.
    + rewrite H. reflexivity.
Defined.

End InShapeAccess.

(** ** utilities.py: the quadtree-like structure on other grids and with
    extrapolation *)

Section QuadtreeReads.

Context {P : Type}.
Variables (size_u size_v : Z) (points2d : list (list P)).
Hypothesis rows : len points2d = size_v.
Hypothesis cols :
  forall (j : nat) row, points2d !! j = Some row -> len row = size_u.

Lemma getitem2d_row_out a b :
  size_v <= a -> getitem2d points2d a b = Raise IndexError.
Proof.
  intros Ha. unfold getitem2d.
  rewrite getitem_out_of_range by lia. reflexivity.
Qed.

Lemma getitem2d_col_out a b :
  0 <= a < size_v -> size_u <= b ->
  getitem2d points2d a b = Raise IndexError.
Proof.
  intros Ha Hb. unfold getitem2d.
  destruct (getitem_in_range points2d a) as (row & -> & Hr); [lia|]. cbn.
  pose proof (cols _ row Hr) as Hl.
  apply getitem_out_of_range. lia.
Qed.

End QuadtreeReads.

Section MapM.

Context {A B : Type}.
Implicit Types (f : A -> result B) (l : list A).

Lemma bind_Ok_inv (m : result A) (k : A -> result B) y :
  m ≫= k = Ok y -> exists x, m = Ok x /\ k x = Ok y.
Proof.
  destruct m as [x|e]; cbn; [|discriminate].
  intros H. exists x. split; [reflexivity | exact H].
Qed.

Lemma mapM_Ok_Forall2 f l ys :
  mapM f l = Ok ys -> Forall2 (fun x y => f x = Ok y) l ys.
Proof.
  revert ys. induction l as [|x l IH]; intros ys; cbn.
  - intros [= <-]. constructor.
  - destruct (f x) as [y|] eqn:Hy; [|discriminate]. cbn.
    destruct (mapM f l) as [ys'|]; [|discriminate]. cbn.
    intros [= <-]. constructor; [exact Hy | apply IH; reflexivity].
Qed.

Lemma mapM_raises_only f l (e0 : exn) :
  (forall x e, x ∈ l -> f x = Raise e -> e = e0) ->
  forall e, mapM f l = Raise e -> e = e0.
Proof.
  induction l as [|x l IH]; intros Hf e; cbn; [discriminate|].
  destruct (f x) as [y|e'] eqn:Hy; cbn.
  - destruct (mapM f l) as [ys|e''] eqn:Hm; cbn; [discriminate|].
    intros [= <-]. apply IH; [|reflexivity].
    intros z e1 Hz. apply Hf. right. exact Hz.
  - intros [= <-]. eapply Hf; [left | exact Hy].
Qed.

End MapM.

Section QuadtreeFailures.

Context {P V : Type}.
Variable vector_generate : P -> P -> result V.
Variable point_translate : P -> V -> result P.

Lemma getitem2d_raises (points2d : list (list P)) a b e :
  getitem2d points2d a b = Raise e -> e = IndexError.
Proof.
  unfold getitem2d. destruct (getitem points2d a) as [row|e'] eqn:Hr; cbn.
  - apply getitem_raises.
  - intros [= <-]. eapply getitem_raises, Hr.
Qed.

Lemma quadtree_points2d_raises (points : list P) su sv e :
  quadtree_points2d points su sv = Raise e -> e = IndexError.
Proof.
  unfold quadtree_points2d. apply mapM_raises_only.
  intros j e1 _. apply mapM_raises_only.
  intros i e2 _. apply getitem_raises.
Qed.

Lemma quadtree_points2d_shape (points : list P) su sv points2d :
  0 <= su -> 0 <= sv ->
  quadtree_points2d points su sv = Ok points2d ->
  len points2d = sv
  /\ forall (j : nat) row, points2d !! j = Some row -> len row = su.
Proof.
  intros Hu Hv H. apply mapM_Ok_Forall2 in H.
  pose proof (Forall2_length _ _ _ H) as Hl. rewrite length_seqZ in Hl.
  split; [unfold len; lia|].
  intros j row Hrow.
  destruct (Forall2_lookup_r _ _ _ _ _ H Hrow) as (j' & _ & Hm).
  apply mapM_Ok_Forall2, Forall2_length in Hm. rewrite length_seqZ in Hm.
  unfold len. lia.
Qed.

Lemma quadtree_neighbor_raises points2d extrapolate u v inside nu nv ou ov e :
  (extrapolate = true -> linalg_total vector_generate point_translate) ->
  quadtree_neighbor vector_generate point_translate points2d extrapolate
    u v inside nu nv ou ov = Raise e ->
  e = IndexError.
Proof.
  intros Htot. unfold quadtree_neighbor. destruct inside.
  - destruct (getitem2d points2d nu nv) as [x|e'] eqn:Hx; cbn; [discriminate|].
    intros [= <-]. eapply getitem2d_raises, Hx.
  - destruct extrapolate; [|discriminate].
    destruct (Htot eq_refl) as [Hvg Hpt].
    destruct (getitem2d points2d ou ov) as [a|e'] eqn:Ha; cbn;
      [|intros [= <-]; eapply getitem2d_raises, Ha].
    destruct (getitem2d points2d u v) as [b|e'] eqn:Hb; cbn;
      [|intros [= <-]; eapply getitem2d_raises, Hb].
    destruct (Hvg a b) as (edge & ->). cbn.
    destruct (Hpt b edge) as (t & ->). cbn. discriminate.
Qed.

Lemma quadtree_cell_raises points2d su sv extrapolate u v e :
  (extrapolate = true -> linalg_total vector_generate point_translate) ->
  quadtree_cell vector_generate point_translate points2d su sv extrapolate u v
  = Raise e ->
  e = IndexError.
Proof.
  intros Htot. unfold quadtree_cell.
  destruct (getitem2d points2d u v) as [x|e'] eqn:Hx; cbn;
    [|intros [= <-]; eapply getitem2d_raises, Hx].
  repeat
    match goal with
    | |- context [quadtree_neighbor ?vg ?pt ?p ?ex ?u ?v ?i ?a ?b ?c ?d] =>
        let H := fresh "Hn" in
        destruct (quadtree_neighbor vg pt p ex u v i a b c d) as [?|?] eqn:H;
        cbn; [|intros [= <-]; eapply quadtree_neighbor_raises; eassumption]
    end.
  discriminate.
Qed.

Lemma make_quadtree_raises (points : list P) su sv extrapolate e :
  (extrapolate = true -> linalg_total vector_generate point_translate) ->
  make_quadtree vector_generate point_translate points su sv extrapolate
  = Raise e ->
  e = IndexError.
Proof.
  intros Htot. unfold make_quadtree.
  destruct (quadtree_points2d points su sv) as [p2d|e'] eqn:Hp; cbn;
    [|intros [= <-]; eapply quadtree_points2d_raises, Hp].
  destruct (mapM _ (seqZ 0 sv)) as [qtree|e'] eqn:Hq; cbn; [discriminate|].
  intros [= <-]. revert Hq. apply mapM_raises_only.
  intros v e1 _. apply mapM_raises_only.
  intros u e2 _. apply quadtree_cell_raises, Htot.
Qed.

(** X20: [make_quadtree] reads its two-dimensional form, whose rows run
    over [v], with the row subscript [u]: on a grid that is not square it
    raises [IndexError], whatever the points are, and so it does with
    extrapolation on a grid of one point, where the extrapolation to the
    west reads row [1]. *)
Theorem make_quadtree_failures (points : list P) size_u size_v extrapolate :
  0 < size_u -> 0 < size_v ->
  (extrapolate = true -> linalg_total vector_generate point_translate) ->
  size_u <> size_v \/ (size_u = 1 /\ size_v = 1 /\ extrapolate = true) ->
  make_quadtree vector_generate point_translate points size_u size_v
    extrapolate = Raise IndexError.
Proof.
  intros Hu Hv Htot Hcase.
  destruct (make_quadtree vector_generate point_translate points size_u size_v
              extrapolate) as [qtree|e] eqn:Hrun;
    [|f_equal; eapply make_quadtree_raises; eassumption].
  exfalso. unfold make_quadtree in Hrun.
  destruct (quadtree_points2d points size_u size_v) as [p2d|] eqn:Hp;
    [|discriminate].
  cbn in Hrun.
  destruct (quadtree_points2d_shape points size_u size_v p2d) as [Hrows Hcols];
    [lia | lia | exact Hp |].
  destruct (mapM _ (seqZ 0 size_v)) as [rows|] eqn:Hq; [|discriminate].
  apply mapM_Ok_Forall2 in Hq.
  assert (Hcell : forall u v, 0 <= u < size_u -> 0 <= v < size_v ->
            exists t, quadtree_cell vector_generate point_translate p2d
                        size_u size_v extrapolate u v = Ok t).
  { intros u v Hu' Hv'.
    destruct (Forall2_lookup_l _ _ _ (Z.to_nat v) v Hq) as (row & _ & Hrow);
      [apply lookup_seqZ; lia|].
    apply mapM_Ok_Forall2 in Hrow.
    destruct (Forall2_lookup_l _ _ _ (Z.to_nat u) u Hrow) as (t & _ & Ht);
      [apply lookup_seqZ; lia|].
    exists t. exact Ht. }
  destruct Hcase as [Hne | (-> & -> & ->)].
  - destruct (decide (size_v < size_u)) as [Hlt|Hge].
    + destruct (Hcell size_v 0 ltac:(lia) ltac:(lia)) as (t & Ht).
      unfold quadtree_cell in Ht.
      rewrite (getitem2d_row_out size_v p2d Hrows) in Ht by lia.
      discriminate.
    + destruct (Hcell 0 size_u ltac:(lia) ltac:(lia)) as (t & Ht).
      unfold quadtree_cell in Ht.
      rewrite (getitem2d_col_out size_u size_v p2d Hrows Hcols) in Ht by lia.
      discriminate.
  - destruct (Hcell 0 0 ltac:(lia) ltac:(lia)) as (t & Ht).
    unfold quadtree_cell in Ht.
    apply bind_Ok_inv in Ht as (self & _ & Ht).
    apply bind_Ok_inv in Ht as (east & _ & Ht).
    apply bind_Ok_inv in Ht as (north & _ & Ht).
    apply bind_Ok_inv in Ht as (west & Hw & _).
    unfold quadtree_neighbor in Hw. change (0 <=? 0 - 1) with false in Hw.
    rewrite (getitem2d_row_out 1 p2d Hrows (0 + 1) 0) in Hw by lia.
    discriminate.
Qed.

End QuadtreeFailures.

Lemma make_quadtree_failures_witness :
  make_quadtree (fun a b : Z => Ok (b - a)) (fun c e : Z => Ok (c + e))
    [0; 1; 2; 3; 4; 5; 6; 7] 4 2 true = Raise IndexError
  /\ make_quadtree (fun a b : Z => Ok (b - a)) (fun c e : Z => Ok (c + e))
       [7] 1 1 true = Raise IndexError.
Proof.
  split.
  - apply make_quadtree_failures; [lia | lia | | left; lia].
    intros _. split; intros; eexists; reflexivity.
  - apply make_quadtree_failures;
      [lia | lia | | right; repeat split; reflexivity].
    intros _. split; intros; eexists; reflexivity.
Defined.

Section QuadtreeExtrapolated.

Context {P V : Type}.
Variable vector_generate : P -> P -> result V.
Variable point_translate : P -> V -> result P.
Variables (points : list P) (n : Z).
Hypothesis n_two : 2 <= n.
Hypothesis points_len : len points = n * n.
Hypothesis total : linalg_total vector_generate point_translate.

Lemma quadtree_neighbor_extrapolated points2d u v inside nu nv ou ov :
  (forall a b, 0 <= a < n -> 0 <= b < n ->
     exists x, getitem2d points2d a b = Ok x
               /\ points !! Z.to_nat (b + a * n) = Some x) ->
  0 <= u < n -> 0 <= v < n ->
  (inside = true -> 0 <= nu < n /\ 0 <= nv < n) ->
  (inside = false -> 0 <= ou < n /\ 0 <= ov < n) ->
  exists x,
    quadtree_neighbor vector_generate point_translate points2d true
      u v inside nu nv ou ov = Ok [x]
    /\ quadtree_side vector_generate point_translate points n u v
         inside nu nv ou ov x.
Proof.
  intros H2d Hu Hv Hin Hout. unfold quadtree_neighbor, quadtree_side.
  destruct total as [Hvg Hpt]. destruct inside.
  - destruct (Hin eq_refl) as [Hnu Hnv].
    destruct (H2d nu nv Hnu Hnv) as (x & Hg & Hx).
    exists x. rewrite Hg. cbn. split; [reflexivity | exact Hx].
  - destruct (Hout eq_refl) as [Hou Hov].
    destruct (H2d ou ov Hou Hov) as (a & Hga & Ha).
    destruct (H2d u v Hu Hv) as (c & Hgc & Hc).
    destruct (Hvg a c) as (e & He). destruct (Hpt c e) as (x & Hx).
    exists x. rewrite Hga. cbn. rewrite Hgc. cbn. rewrite He. cbn.
    rewrite Hx. cbn. split; [reflexivity|].
    exists a, c, e. repeat split; assumption.
Qed.

Lemma quadtree_cell_extrapolated points2d u v :
  (forall a b, 0 <= a < n -> 0 <= b < n ->
     exists x, getitem2d points2d a b = Ok x
               /\ points !! Z.to_nat (b + a * n) = Some x) ->
  0 <= u < n -> 0 <= v < n ->
  exists self east north west south,
    quadtree_cell vector_generate point_translate points2d n n true u v
    = Ok [self; east; north; west; south]
    /\ grid_point points n u v self
    /\ quadtree_side vector_generate point_translate points n u v
         (u + 1 <? n) (u + 1) v (u - 1) v east
    /\ quadtree_side vector_generate point_translate points n u v
         (v + 1 <? n) u (v + 1) u (v - 1) north
    /\ quadtree_side vector_generate point_translate points n u v
         (0 <=? u - 1) (u - 1) v (u + 1) v west
    /\ quadtree_side vector_generate point_translate points n u v
         (0 <=? v - 1) u (v - 1) u (v + 1) south.
Proof.
  intros H2d Hu Hv. unfold quadtree_cell.
  destruct (H2d u v Hu Hv) as (self & Hg & Hself). rewrite Hg. cbn.
  destruct (quadtree_neighbor_extrapolated points2d u v (u + 1 <? n)
              (u + 1) v (u - 1) v H2d Hu Hv) as (east & -> & He);
    [intros E; apply Z.ltb_lt in E; lia
    |intros E; apply Z.ltb_ge in E; lia|].
  cbn.
  destruct (quadtree_neighbor_extrapolated points2d u v (v + 1 <? n)
              u (v + 1) u (v - 1) H2d Hu Hv) as (north & -> & Hn);
    [intros E; apply Z.ltb_lt in E; lia
    |intros E; apply Z.ltb_ge in E; lia|].
  cbn.
  destruct (quadtree_neighbor_extrapolated points2d u v (0 <=? u - 1)
              (u - 1) v (u + 1) v H2d Hu Hv) as (west & -> & Hw);
    [intros E; apply Z.leb_le in E; lia
    |intros E; apply Z.leb_gt in E; lia|].
  cbn.
  destruct (quadtree_neighbor_extrapolated points2d u v (0 <=? v - 1)
              u (v - 1) u (v + 1) H2d Hu Hv) as (south & -> & Hs);
    [intros E; apply Z.leb_le in E; lia
    |intros E; apply Z.leb_gt in E; lia|].
  cbn. exists self, east, north, west, south.
  repeat split; assumption.
Qed.

(** X21: on a square grid of [n * n] points with [n >= 2], and with
    linear-algebra functions that return, [make_quadtree] with
    extrapolation returns one tuple of five points per cell, the tuple of
    the cell [(u, v)] at position [v * n + u]: the point of the cell, then
    for the sides [u + 1], [v + 1], [u - 1], [v - 1] the neighbour when it
    is in the grid, else the point of the cell translated by the vector
    from the opposite neighbour to the cell; the point of a cell [(a, b)]
    is [points[b + a * n]]. *)
Theorem make_quadtree_extrapolated :
  exists qtree,
    make_quadtree vector_generate point_translate points n n true = Ok qtree
    /\ length qtree = length points
    /\ forall u v : nat,
         Z.of_nat u < n -> Z.of_nat v < n ->
         exists self east north west south,
           qtree !! (v * Z.to_nat n + u)%nat
           = Some [self; east; north; west; south]
           /\ grid_point points n (Z.of_nat u) (Z.of_nat v) self
           /\ quadtree_side vector_generate point_translate points n
                (Z.of_nat u) (Z.of_nat v) (Z.of_nat u + 1 <? n)
                (Z.of_nat u + 1) (Z.of_nat v) (Z.of_nat u - 1) (Z.of_nat v) east
           /\ quadtree_side vector_generate point_translate points n
                (Z.of_nat u) (Z.of_nat v) (Z.of_nat v + 1 <? n)
                (Z.of_nat u) (Z.of_nat v + 1) (Z.of_nat u) (Z.of_nat v - 1) north
           /\ quadtree_side vector_generate point_translate points n
                (Z.of_nat u) (Z.of_nat v) (0 <=? Z.of_nat u - 1)
                (Z.of_nat u - 1) (Z.of_nat v) (Z.of_nat u + 1) (Z.of_nat v) west
           /\ quadtree_side vector_generate point_translate points n
                (Z.of_nat u) (Z.of_nat v) (0 <=? Z.of_nat v - 1)
                (Z.of_nat u) (Z.of_nat v - 1) (Z.of_nat u) (Z.of_nat v + 1) south.
Proof.
  destruct (quadtree_points2d_square points n ltac:(lia) points_len)
    as (p2d & Hp2d & H2d).
  unfold make_quadtree. rewrite Hp2d. cbn.
  pose (cell_ok := fun (u v : Z) (t : list P) =>
    exists self east north west south,
      t = [self; east; north; west; south]
      /\ grid_point points n u v self
      /\ quadtree_side vector_generate point_translate points n u v
           (u + 1 <? n) (u + 1) v (u - 1) v east
      /\ quadtree_side vector_generate point_translate points n u v
           (v + 1 <? n) u (v + 1) u (v - 1) north
      /\ quadtree_side vector_generate point_translate points n u v
           (0 <=? u - 1) (u - 1) v (u + 1) v west
      /\ quadtree_side vector_generate point_translate points n u v
           (0 <=? v - 1) u (v - 1) u (v + 1) south).
  destruct (mapM_Forall2
              (fun v => mapM (fun u =>
                 quadtree_cell vector_generate point_translate p2d n n true u v)
                 (seqZ 0 n))
              (fun v row => length row = Z.to_nat n
                 /\ forall u : nat, Z.of_nat u < n ->
                      exists t, row !! u = Some t /\ cell_ok (Z.of_nat u) v t)
              (seqZ 0 n)) as (rows & Hm & Hall).
  { intros v Hv. apply elem_of_seqZ in Hv.
    destruct (mapM_Forall2
                (fun u => quadtree_cell vector_generate point_translate
                            p2d n n true u v)
                (fun u t => cell_ok u v t)
                (seqZ 0 n)) as (row & Hrow & Hr).
    - intros u Hu. apply elem_of_seqZ in Hu.
      destruct (quadtree_cell_extrapolated p2d u v H2d) as
        (self & east & north & west & south & Hc & Hrest); [lia | lia |].
      eexists. split; [exact Hc|].
      exists self, east, north, west, south. split; [reflexivity | exact Hrest].
    - exists row. split; [exact Hrow|].
      pose proof (Forall2_length _ _ _ Hr) as Hl. rewrite length_seqZ in Hl.
      split; [lia|]. intros u Hu.
      destruct (Forall2_lookup_l _ _ _ u (Z.of_nat u) Hr) as (t & Ht & Hh);
        [apply lookup_seqZ; lia|].
      exists t. split; [exact Ht | exact Hh]. }
  rewrite Hm. cbn. eexists. split; [reflexivity|].
  pose proof (Forall2_length _ _ _ Hall) as Hlen. rewrite length_seqZ in Hlen.
  assert (Hrows : Forall (fun r => length r = Z.to_nat n) rows).
  { apply Forall_forall. intros r Hr. apply list_elem_of_lookup in Hr as [i Hi].
    destruct (Forall2_lookup_r _ _ _ _ _ Hall Hi) as (v & _ & Hl & _).
    exact Hl. }
  split.
  - rewrite (concat_length_uniform rows (Z.to_nat n) Hrows), <- Hlen.
    unfold len in points_len. nia.
  - intros u v Hu Hv.
    destruct (Forall2_lookup_l _ _ _ v (Z.of_nat v) Hall) as (row & Hrow & _ & Hnth);
      [apply lookup_seqZ; lia|].
    destruct (Hnth u Hu) as (t & Ht & (self & east & north & west & south & -> & Hrest)).
    exists self, east, north, west, south. split; [|exact Hrest].
    rewrite (concat_lookup_uniform rows (Z.to_nat n) v u row Hrows Hrow) by lia.
    exact Ht.
Qed.

End QuadtreeExtrapolated.

Lemma make_quadtree_extrapolated_witness :
  exists qtree self east north west south,
    make_quadtree (fun a b : Z => Ok (b - a)) (fun c e : Z => Ok (c + e))
      [0; 10; 20; 30] 2 2 true = Ok qtree
    /\ qtree !! 1%nat = Some [self; east; north; west; south]
    /\ grid_point [0; 10; 20; 30] 2 1 0 self
    /\ quadtree_side (fun a b : Z => Ok (b - a)) (fun c e : Z => Ok (c + e))
         [0; 10; 20; 30] 2 1 0 false 2 0 0 0 east
    /\ quadtree_side (fun a b : Z => Ok (b - a)) (fun c e : Z => Ok (c + e))
         [0; 10; 20; 30] 2 1 0 true 1 1 1 (-1) north.
Proof.
  destruct (make_quadtree_extrapolated (fun a b : Z => Ok (b - a))
              (fun c e : Z => Ok (c + e)) [0; 10; 20; 30] 2
              ltac:(lia) eq_refl) as (qtree & Hq & _ & Hcells).
  { split; intros; eexists; reflexivity. }
  destruct (Hcells 1%nat 0%nat ltac:(lia) ltac:(lia))
    as (self & east & north & west & south & Ht & Hs & He & Hn & _).
  exists qtree, self, east, north, west, south.
  split; [exact Hq|]. split; [exact Ht|]. split; [exact Hs|].
  split; [exact He | exact Hn].
Defined.
